(** * codebraid-mcp: session manager and client hub

    A shallow embedding of [internal/client/clienthub.go] and of the
    session manager ([Manager], [initializeSessionBundleDir],
    [regenerateLibForServer]) together with the lifecycle properties of
    the specification.

    Conventions of the embedding:
    - a Go [map[string]T] is a [gmap string T]; a [range] loop over it
      visits the entries in an order chosen by the runtime, see [range];
    - code that talks to the outside (provider connections, the file
      system, the clock, the logger) runs in the state monad [IO] over a
      [World]; what the outside answers is read from an [Env];
    - a Go [error] built by [fmt.Errorf] is kept as the format string and
      its operands, see [error];
    - a hub sits behind a pointer: the record keeps the address, so
      that the hubs built by two calls are told apart, and a method that
      changes the hub returns the hub it leaves. *)

From stdpp Require Import base strings pretty list gmap.

Open Scope string_scope.

(** ** Errors *)

(** [fmt.Errorf(format, args...)]: the format string of the source, the
    string operands ([%q], [%s]) and the error operands ([%w], [%v]). *)
#[local] Unset Elimination Schemes.
Inductive error : Type :=
  | External (op : string)
  | Errorf (format : string) (args : list string) (errs : list error).
#[local] Set Elimination Schemes.

(** ** The tool record of the protocol SDK *)

Module mcp.
(** The two fields of [mcp.Tool] that the hub reads. *)
Record Tool : Type := mkTool { Name : string; Description : string }.
End mcp.

(** ** Provider configuration *)

Module config.
(** The per-server record is only handed on to [NewMcpClient]. *)
Record ServerConfig : Type := mkServerConfig { Endpoint : string }.
Record Config : Type := mkConfig { McpServers : gmap string ServerConfig }.
End config.

(** ** The world outside the core *)

Inductive node : Type :=
  | Dir
  | File (data : string).

Inductive event : Type :=
  | EvNewHub (addr : nat)
  | EvDial (name : string) (res : option nat)
  | EvClose (handle : nat) (ok : bool)
  | EvMkdirTemp (pattern : string) (res : option string)
  | EvMkdir (path : string) (ok : bool)
  | EvWriteFile (path : string) (data : string) (ok : bool)
  | EvRemoveAll (path : string) (ok : bool)
  | EvLog (format : string) (args : list string).

(** [clock] counts the calls made to the outside so far; [conns] are the
    provider connections that are open; [fs] is the file system;
    [trace] lists the calls, newest first. *)
Record World : Type := mkWorld {
  clock : nat;
  conns : gset nat;
  fs : gmap string node;
  trace : list event
}.

(** What the outside answers.  Every answer may depend on the time of
    the call, so a provider may be down now and up later: [dial] is the
    provider's answer to a connection attempt (its catalog, or nothing
    when it cannot be reached), [close_ok] tells whether a connection
    closes cleanly, [io_ok] whether a file-system call goes through,
    [torn] how many bytes a failed write has written, if it has
    touched the file at all,
    [tmp_name] is the random text [os.MkdirTemp] puts into a pattern, and
    [pick] is the order in which [range] visits a map.  The code
    generator ([GenerateFile], [GenerateMCPTypesFile]) and the bundler
    configuration ([GetEmbeddedConfig]) belong to packages of the
    repository whose sources are not part of the core. *)
Class Env : Type := mkEnv {
  dial : nat → string → config.ServerConfig → option (list mcp.Tool);
  close_ok : nat → nat → bool;
  io_ok : nat → bool;
  torn : nat → option nat;
  tmp_name : nat → string → string;
  pick : nat → nat → nat;
  GenerateFile : string → list mcp.Tool → option string;
  GenerateMCPTypesFile : string;
  GetEmbeddedConfig : string
}.

Definition IO (A : Type) : Type := World → A * World.

Definition ret {A} (a : A) : IO A := λ w, (a, w).

Definition bind {A B} (c : IO A) (k : A → IO B) : IO B :=
  λ w, let '(a, w') := c w in k a w'.

Notation "x <- c ;; k" := (bind c (λ x, k))
  (at level 100, c at next level, right associativity).

(** One call to the outside: the clock advances and the call is logged. *)
Definition emit (e : event) (w : World) : World :=
  {| clock := S (clock w); conns := conns w; fs := fs w;
     trace := e :: trace w |}.

Definition with_conns (c : gset nat) (w : World) : World :=
  {| clock := clock w; conns := c; fs := fs w; trace := trace w |}.

Definition with_fs (f : gmap string node) (w : World) : World :=
  {| clock := clock w; conns := conns w; fs := f; trace := trace w |}.

(** ** Iteration order of [range] over a map *)

(** Draw the elements of [l] one by one: with [k + 1] elements left,
    the element at position [choose k] (modulo [k + 1]) is drawn. *)
Fixpoint draw {A} (n : nat) (choose : nat → nat) (l : list A) : list A :=
  match n with
  | 0 => []
  | S n' =>
      let i := choose n' `mod` length l in
      match l !! i with
      | Some x => x :: draw n' choose (delete i l)
      | None => []
      end
  end.

Definition shuffle {A} (choose : nat → nat) (l : list A) : list A :=
  draw (length l) choose l.

(** [for k, v := range m]: the entries of [m], in an order the runtime
    picks at the time of the loop. *)
Definition range `{Env} {V} (m : gmap string V) : IO (list (string * V)) :=
  λ w, (shuffle (pick (clock w)) (map_to_list m),
        {| clock := S (clock w); conns := conns w; fs := fs w;
           trace := trace w |}).

(** ** Go standard library: [os], [path/filepath], [log], [time] *)

Module filepath.
(** The slash. *)
Definition Separator : Ascii.ascii := Eval cbv in Ascii.ascii_of_nat 47.

Definition IsPathSeparator (c : Ascii.ascii) : bool := Ascii.eqb c Separator.

Fixpoint has_separator (s : string) : bool :=
  match s with
  | "" => false
  | String c rest => IsPathSeparator c || has_separator rest
  end.

Definition no_separator (s : string) : Prop := has_separator s = false.

(** A real path element, as [Clean] calls it: not empty, not [.], not
    [..], and free of separators. *)
Definition element (e : string) : Prop :=
  e ≠ "" ∧ e ≠ "." ∧ e ≠ ".." ∧ no_separator e.

#[global] Instance element_dec e : Decision (element e).
Proof. unfold element, no_separator. apply _. Defined.

(** The elements of a path: the text between its separators. *)
Fixpoint elements (path : string) : list string :=
  match path with
  | "" => [""]
  | String c rest =>
      if IsPathSeparator c then "" :: elements rest
      else match elements rest with
           | e :: es => String c e :: es
           | [] => [String c ""]
           end
  end.

Definition rooted (path : string) : bool :=
  match path with
  | String c _ => IsPathSeparator c
  | "" => false
  end.

(** One step of [Clean]; [out] holds the elements written so far, the
    last one first.  An empty element and [.] are dropped; [..] takes
    back the last real element, and where there is none to take back it
    is dropped in a rooted path and kept in another; a real element is
    written. *)
Definition clean_element (rooted : bool) (out : list string) (e : string)
  : list string :=
  if decide (e = "" ∨ e = ".") then out
  else if decide (e = "..") then
    match out with
    | top :: below => if decide (top = "..") then e :: out else below
    | [] => if rooted then [] else [e]
    end
  else e :: out.

(** The elements that [Clean] keeps of a path, the last one first. *)
Definition kept (path : string) : list string :=
  foldl (clean_element (rooted path)) [] (elements path).

(** [filepath.Clean] on Unix, element by element: the kept elements
    separated by single slashes, behind a slash when the path is
    rooted; [.] for an empty result. *)
Definition Clean (path : string) : string :=
  let body := String.concat "/" (rev (kept path)) in
  if rooted path then "/" +:+ body
  else if decide (body = "") then "." else body.

(** [filepath.Join]: the elements from the first that is not empty on,
    separated by slashes, and the result cleaned; the empty string when
    there is no such element. *)
Fixpoint Join (elem : list string) : string :=
  match elem with
  | [] => ""
  | e :: rest =>
      if decide (e = "") then Join rest else Clean (String.concat "/" elem)
  end.

#[global] Arguments Join : simpl never.
End filepath.

(** The file system ([fs]) is keyed by path, as on Unix with names
    that tell upper from lower case and without links: two paths name
    the same file exactly when they are the same text. *)
Module os.
(** [p] is [root] or lies below it. *)
Definition within (root p : string) : Prop :=
  p = root ∨ String.prefix (root +:+ "/") p = true.

#[global] Instance within_dec root p : Decision (within root p).
Proof. unfold within. apply _. Defined.

Section Calls.
Context `{Env}.

(** A directory as [os.MkdirTemp] names it: a real path element below
    the temporary directory. *)
Definition tempdir (p : string) : Prop :=
  ∃ name, filepath.element name ∧ p = "/tmp/" +:+ name.

(** [prefixAndSuffix]: the pattern split at its last star; a pattern
    without a star is all prefix. *)
Fixpoint split_last_star (pattern : string) : option (string * string) :=
  match pattern with
  | "" => None
  | String c rest =>
      match split_last_star rest with
      | Some (prefix, suffix) => Some (String c prefix, suffix)
      | None =>
          if Ascii.eqb c (Ascii.ascii_of_nat 42) then Some ("", rest) else None
      end
  end.

Definition prefixAndSuffix (pattern : string) : string * string :=
  default (pattern, "") (split_last_star pattern).

(** [os.MkdirTemp("", pattern)]: a new directory below the temporary
    directory, which is taken to be [/tmp].  Its name is the prefix of
    the pattern, a random text and the suffix of the pattern.  A pattern
    with a separator is refused.  Go draws decimal numbers until the
    name is free; here any text may be drawn, and the call fails when
    the name it gives is not a real path element or is taken, which is
    one more way for the call to fail. *)
Definition MkdirTemp (pattern : string) : IO (error + string) := λ w,
  let name :=
    (prefixAndSuffix pattern).1 +:+ tmp_name (clock w) pattern
      +:+ (prefixAndSuffix pattern).2 in
  let p := "/tmp/" +:+ name in
  if negb (filepath.has_separator pattern) && io_ok (clock w)
     && bool_decide (filepath.element name) && bool_decide (fs w !! p = None)
  then
    (inr p, with_fs (<[p := Dir]> (fs w)) (emit (EvMkdirTemp pattern (Some p)) w))
  else (inl (External "os.MkdirTemp"), emit (EvMkdirTemp pattern None) w).

Definition Mkdir (path : string) : IO (option error) := λ w,
  if io_ok (clock w) then
    (None, with_fs (<[path := Dir]> (fs w)) (emit (EvMkdir path true) w))
  else (Some (External "os.Mkdir"), emit (EvMkdir path false) w).

(** [os.WriteFile]: on success the file holds [data]; a failed call
    leaves the file as it was, or cut to the bytes that were written
    before the failure. *)
Definition WriteFile (path data : string) : IO (option error) := λ w,
  if io_ok (clock w) then
    (None, with_fs (<[path := File data]> (fs w))
             (emit (EvWriteFile path data true) w))
  else
    (Some (External "os.WriteFile"),
     match torn (clock w) with
     | Some k =>
         with_fs (<[path := File (String.substring 0 k data)]> (fs w))
           (emit (EvWriteFile path data false) w)
     | None => emit (EvWriteFile path data false) w
     end).

(** [os.RemoveAll]: on success nothing is left at or below [path]; a
    failed call is taken to leave everything in place. *)
Definition RemoveAll (path : string) : IO (option error) := λ w,
  if io_ok (clock w) then
    (None, with_fs (filter (λ kv, ¬ within path kv.1) (fs w))
             (emit (EvRemoveAll path true) w))
  else (Some (External "os.RemoveAll"), emit (EvRemoveAll path false) w).
End Calls.
End os.

Module log.
Definition Printf (format : string) (args : list string) : IO unit :=
  λ w, (tt, emit (EvLog format args) w).
End log.

Module time.
(** [time.Now]: the clock of the model counts the calls made so far,
    so that a later reading is the larger one; two readings of Go's
    clock may also be equal. *)
Definition Now : IO nat := λ w,
  (clock w, {| clock := S (clock w); conns := conns w; fs := fs w;
               trace := trace w |}).
End time.

(** ** Package [client] *)

Module client.

(** Modelled from the spec: [McpClient], whose source file is missing;
    section 6, ProviderConnection: "Connect(config) → Connection|error;
    ListTools() → tool list; ...; Close() → error".  The record keeps
    the connection it holds and the catalog last fetched from the
    provider, which [GetTools] returns. *)
Record McpClient : Type := mkMcpClient {
  serverName : string;
  handle : nat;
  tools : list mcp.Tool
}.

Definition GetTools (c : McpClient) : list mcp.Tool := tools c.

(** [McpClientHub]: the hub sits behind a pointer, [addr]; [clients]
    is its map; [refreshed] tells whether a tools-refreshed callback
    is registered. *)
Record McpClientHub : Type := mkMcpClientHub {
  addr : nat;
  clients : gmap string McpClient;
  refreshed : bool
}.

Record ToolInfo : Type := mkToolInfo {
  Name : string;
  Description : string
}.

Section Hub.
Context `{Env}.

(** Modelled from the spec: [NewMcpClient(ctx, name, serverCfg)],
    missing with [McpClient]; section 6, "Connect(config) →
    Connection|error": the provider answers with its catalog, or the
    connection fails. *)
Definition NewMcpClient (name : string) (serverCfg : config.ServerConfig)
  : IO (error + McpClient) := λ w,
  match dial (clock w) name serverCfg with
  | Some ts =>
      (inr (mkMcpClient name (clock w) ts),
       with_conns ({[clock w]} ∪ conns w)
         (emit (EvDial name (Some (clock w))) w))
  | None => (inl (External "NewMcpClient"), emit (EvDial name None) w)
  end.

(** Modelled from the spec: [client.Close()], missing with
    [McpClient]; section 6, "Close() → error". *)
Definition McpClient_Close (c : McpClient) : IO (option error) := λ w,
  if close_ok (clock w) (handle c) then
    (None, with_conns (conns w ∖ {[handle c]})
             (emit (EvClose (handle c) true) w))
  else (Some (External "McpClient.Close"), emit (EvClose (handle c) false) w).

Definition NewMcpClientHub : IO McpClientHub := λ w,
  (mkMcpClientHub (clock w) ∅ false, emit (EvNewHub (clock w)) w).

(** The loop of [Connect]: [ch.clients[name] = client] for every
    server, stopping at the first one that fails.  The hub is
    returned as the loop left it. *)
Fixpoint Connect_loop (servers : list (string * config.ServerConfig))
    (ch : McpClientHub) : IO (option error * McpClientHub) :=
  match servers with
  | [] => ret (None, ch)
  | (name, serverCfg) :: rest =>
      r <- NewMcpClient name serverCfg ;;
      match r with
      | inl err =>
          ret (Some (Errorf "failed to connect to server %q: %w" [name] [err]), ch)
      | inr c =>
          Connect_loop rest
            (mkMcpClientHub (addr ch) (<[name := c]> (clients ch)) (refreshed ch))
      end
  end.

Definition Connect (ch : McpClientHub) (cfg : config.Config)
  : IO (option error * McpClientHub) :=
  servers <- range (config.McpServers cfg) ;;
  Connect_loop servers ch.

(** The inner loop of [FindToolServer]. *)
Fixpoint hasTool (ts : list mcp.Tool) (toolName : string) : bool :=
  match ts with
  | [] => false
  | tool :: rest =>
      if decide (mcp.Name tool = toolName) then true else hasTool rest toolName
  end.

Fixpoint FindToolServer_loop (cs : list (string * McpClient))
    (toolName : string) : error + string :=
  match cs with
  | [] => inl (Errorf "tool %q not found in any server" [toolName] [])
  | (name, c) :: rest =>
      if hasTool (GetTools c) toolName then inr name
      else FindToolServer_loop rest toolName
  end.

Definition FindToolServer (ch : McpClientHub) (toolName : string)
  : IO (error + string) :=
  cs <- range (clients ch) ;;
  ret (FindToolServer_loop cs toolName).

Fixpoint ListTools_loop (cs : list (string * McpClient))
    (result : gmap string (list mcp.Tool)) : gmap string (list mcp.Tool) :=
  match cs with
  | [] => result
  | (name, c) :: rest => ListTools_loop rest (<[name := GetTools c]> result)
  end.

Definition ListTools (ch : McpClientHub) : IO (gmap string (list mcp.Tool)) :=
  cs <- range (clients ch) ;;
  ret (ListTools_loop cs ∅).

(** [tools = append(tools, ToolInfo{...})] for every tool. *)
Fixpoint describe (ts : list mcp.Tool) (acc : list ToolInfo) : list ToolInfo :=
  match ts with
  | [] => acc
  | tool :: rest =>
      describe rest (acc ++ [mkToolInfo (mcp.Name tool) (mcp.Description tool)])%list
  end.

Fixpoint GetToolsWithDescription_loop (cs : list (string * McpClient))
    (result : gmap string (list ToolInfo)) : gmap string (list ToolInfo) :=
  match cs with
  | [] => result
  | (name, c) :: rest =>
      GetToolsWithDescription_loop rest
        (<[name := describe (GetTools c) []]> result)
  end.

Definition GetToolsWithDescription (ch : McpClientHub)
  : IO (gmap string (list ToolInfo)) :=
  cs <- range (clients ch) ;;
  ret (GetToolsWithDescription_loop cs ∅).

(** The loop of [Close]: every client is closed, the failures are
    collected. *)
Fixpoint Close_loop (cs : list (string * McpClient)) (errs : list error)
  : IO (list error) :=
  match cs with
  | [] => ret errs
  | (name, c) :: rest =>
      err <- McpClient_Close c ;;
      match err with
      | Some e =>
          Close_loop rest
            (errs ++ [Errorf "failed to close client %q: %w" [name] [e]])%list
      | None => Close_loop rest errs
      end
  end.

Definition Close (ch : McpClientHub) : IO (option error) :=
  cs <- range (clients ch) ;;
  errs <- Close_loop cs [] ;;
  if decide (0 < length errs) then
    ret (Some (Errorf "errors closing clients: %v" [] errs))
  else ret None.

(** Modelled from the spec: [Tools], the method of this version of
    the hub that the session manager calls and whose source is
    missing; section 4.2, "a snapshot of every provider's currently
    known catalog", which is what [ListTools] returns. *)
Definition Tools (ch : McpClientHub) : IO (gmap string (list mcp.Tool)) :=
  ListTools ch.

(** Modelled from the spec: [ServerTools], missing as well; section
    4.3, "re-fetch P's current catalog from the hub", with [ok]
    false when the hub has no such provider. *)
Definition ServerTools (ch : McpClientHub) (name : string)
  : option (list mcp.Tool) :=
  GetTools <$> clients ch !! name.

(** Modelled from the spec: the handler of a provider's tools-changed
    notification, missing as well; section 3, the catalog "may change at
    runtime, announced via a change notification": the client of
    [name] now holds the new catalog. *)
Definition refreshTools (ch : McpClientHub) (name : string) (ts : list mcp.Tool)
  : McpClientHub :=
  mkMcpClientHub (addr ch)
    (alter (λ c, mkMcpClient (serverName c) (handle c) ts) name (clients ch))
    (refreshed ch).

(** Modelled from the spec: [SetToolsRefreshedCallback], missing as
    well; section 4.2, "registers exactly one subscriber". *)
Definition SetToolsRefreshedCallback (ch : McpClientHub) : McpClientHub :=
  mkMcpClientHub (addr ch) (clients ch) true.
End Hub.
End client.

(** ** Package [session] *)

Module session.
Import mcp client.

(** Modelled from the spec: [SessionContext] in the version the
    manager uses, which is missing ([context.go] is an earlier version,
    without [Libs] and [BundleDir]); section 3, Session: "creation
    timestamp; last-accessed timestamp; owned ClientHub; owned
    BundleWorkspace path; map of provider name → currently rendered
    artifact source". *)
Record SessionContext : Type := mkSessionContext {
  SessionID : string;
  ClientHub : McpClientHub;
  Libs : gmap string string;
  BundleDir : string;
  CreatedAt : nat;
  lastAccessedAt : nat
}.

Record Manager : Type := mkManager {
  sessions : gmap string SessionContext;
  config : config.Config
}.

Definition NewManager (cfg : config.Config) : Manager := mkManager ∅ cfg.

Definition set_sessions (m : Manager) (s : gmap string SessionContext)
  : Manager := mkManager s (config m).

Definition set_ClientHub (s : SessionContext) (ch : McpClientHub)
  : SessionContext :=
  mkSessionContext (SessionID s) ch (Libs s) (BundleDir s) (CreatedAt s)
    (lastAccessedAt s).

Definition set_Libs (s : SessionContext) (libs : gmap string string)
  : SessionContext :=
  mkSessionContext (SessionID s) (ClientHub s) libs (BundleDir s)
    (CreatedAt s) (lastAccessedAt s).

Definition set_BundleDir (s : SessionContext) (dir : string)
  : SessionContext :=
  mkSessionContext (SessionID s) (ClientHub s) (Libs s) dir (CreatedAt s)
    (lastAccessedAt s).

(** [libPath] of a server below the bundle directory. *)
Definition libPath (bundleDir serverName : string) : string :=
  filepath.Join [bundleDir; "lib"; serverName +:+ ".ts"].

Section Manager.
Context `{Env}.

(** Modelled from the spec: [NewSessionContext(sessionID, clientHub)],
    missing with [SessionContext]; as in [context.go], both timestamps
    are the time of creation; no library and no bundle directory yet. *)
Definition NewSessionContext (sessionID : string) (clientHub : McpClientHub)
  : IO SessionContext :=
  now <- time.Now ;;
  ret (mkSessionContext sessionID clientHub ∅ "" now now).

(** The loop of [initializeSessionBundleDir] over [allTools]. *)
Fixpoint initialize_libs (bundleDir libDir : string)
    (allTools : list (string * list Tool)) (libs : gmap string string)
  : IO (option error * gmap string string) :=
  match allTools with
  | [] => ret (None, libs)
  | (serverName, tools) :: rest =>
      match GenerateFile serverName tools with
      | None =>
          _ <- os.RemoveAll bundleDir ;;
          ret (Some (Errorf "failed to generate lib for %s: %w" [serverName]
                       [External "GenerateFile"]), libs)
      | Some file =>
          let libs := <[serverName := file]> libs in
          let libPath := filepath.Join [libDir; serverName +:+ ".ts"] in
          err <- os.WriteFile libPath file ;;
          match err with
          | Some e =>
              _ <- os.RemoveAll bundleDir ;;
              ret (Some (Errorf "failed to write lib %s: %w" [serverName] [e]),
                   libs)
          | None => initialize_libs bundleDir libDir rest libs
          end
      end
  end.

Definition initializeSessionBundleDir (m : Manager) (session : SessionContext)
  : IO (option error * SessionContext) :=
  r <- os.MkdirTemp ("codebraid-" +:+ SessionID session +:+ "-") ;;
  match r with
  | inl err =>
      ret (Some (Errorf "failed to create bundle dir: %w" [] [err]), session)
  | inr bundleDir =>
      let libDir := filepath.Join [bundleDir; "lib"] in
      err <- os.Mkdir libDir ;;
      match err with
      | Some e =>
          _ <- os.RemoveAll bundleDir ;;
          ret (Some (Errorf "failed to create lib dir: %w" [] [e]), session)
      | None =>
          allTools <- Tools (ClientHub session) ;;
          allTools <- range allTools ;;
          r <- initialize_libs bundleDir libDir allTools ∅ ;;
          match r.1 with
          | Some e => ret (Some e, session)
          | None =>
              let libs := r.2 in
              let mcpTypesPath := filepath.Join [libDir; "mcp-types.ts"] in
              err <- os.WriteFile mcpTypesPath GenerateMCPTypesFile ;;
              match err with
              | Some e =>
                  _ <- os.RemoveAll bundleDir ;;
                  ret (Some (Errorf "failed to write mcp-types.ts: %w" [] [e]),
                       session)
              | None =>
                  let rspackConfigPath :=
                    filepath.Join [bundleDir; "rspack.config.ts"] in
                  err <- os.WriteFile rspackConfigPath GetEmbeddedConfig ;;
                  match err with
                  | Some e =>
                      _ <- os.RemoveAll bundleDir ;;
                      ret (Some (Errorf "failed to write rspack config: %w" [] [e]),
                           session)
                  | None =>
                      ret (None, set_BundleDir (set_Libs session libs) bundleDir)
                  end
              end
          end
      end
  end.

Definition regenerateLibForServer (session : SessionContext)
    (serverName : string) : IO (option error * SessionContext) :=
  match ServerTools (ClientHub session) serverName with
  | None =>
      ret (Some (Errorf "server %q not found" [serverName] []), session)
  | Some tools =>
      match GenerateFile serverName tools with
      | None =>
          ret (Some (Errorf "failed to generate TypeScript: %w" []
                       [External "GenerateFile"]), session)
      | Some file =>
          let session := set_Libs session (<[serverName := file]> (Libs session)) in
          if decide (BundleDir session ≠ "") then
            err <- os.WriteFile (libPath (BundleDir session) serverName) file ;;
            match err with
            | Some e =>
                ret (Some (Errorf "failed to write lib to disk: %w" [] [e]),
                     session)
            | None => ret (None, session)
            end
          else ret (None, session)
      end
  end.

(** The closure that [GetOrCreateSession] hands to
    [SetToolsRefreshedCallback]: it regenerates the library of the
    server whose tools changed and logs the outcome. *)
Definition toolsRefreshed (sessionID : string) (session : SessionContext)
    (serverName : string) : IO SessionContext :=
  _ <- log.Printf
         "Session %s: tools changed for server %q, regenerating libraries..."
         [sessionID; serverName] ;;
  r <- regenerateLibForServer session serverName ;;
  match r.1 with
  | Some err =>
      _ <- log.Printf "Session %s: failed to regenerate libs for %q: %v"
             [sessionID; serverName] ;;
      ret r.2
  | None =>
      _ <- log.Printf "Session %s: successfully regenerated libs for %q"
             [sessionID; serverName] ;;
      ret r.2
  end.

(** The part of [GetOrCreateSession] that runs under the write
    lock: the recheck, and the construction when the session is
    still missing. *)
Definition GetOrCreateSession_locked (m : Manager) (sessionID : string)
  : IO ((error + SessionContext) * Manager) :=
  match sessions m !! sessionID with
  | Some session => ret (inr session, m)
  | None =>
      clientHub <- NewMcpClientHub ;;
      r <- Connect clientHub (config m) ;;
      let clientHub := r.2 in
      match r.1 with
      | Some err =>
          ret (inl (Errorf "failed to connect client hub: %w" [] [err]), m)
      | None =>
          session <- NewSessionContext sessionID clientHub ;;
          r <- initializeSessionBundleDir m session ;;
          let session := r.2 in
          match r.1 with
          | Some err =>
              _ <- Close clientHub ;;
              ret (inl (Errorf
                     "failed to initialize session bundle directory: %w" []
                     [err]), m)
          | None =>
              let session :=
                set_ClientHub session (SetToolsRefreshedCallback clientHub) in
              ret (inr session,
                   set_sessions m (<[sessionID := session]> (sessions m)))
          end
      end
  end.

(** [GetOrCreateSession] called on its own: the lookup under the
    read lock, then the part under the write lock. *)
Definition GetOrCreateSession (m : Manager) (sessionID : string)
  : IO ((error + SessionContext) * Manager) :=
  match sessions m !! sessionID with
  | Some session => ret (inr session, m)
  | None => GetOrCreateSession_locked m sessionID
  end.

Definition GetSession (m : Manager) (sessionID : string)
  : option SessionContext := sessions m !! sessionID.

(** The removal of the bundle directory, as [DeleteSession] and
    [CloseAll] both do it. *)
Definition cleanBundleDir (session : SessionContext) : IO unit :=
  if decide (BundleDir session ≠ "") then
    err <- os.RemoveAll (BundleDir session) ;;
    match err with
    | Some e =>
        log.Printf "Warning: failed to clean up bundle dir %s: %v"
          [BundleDir session]
    | None => ret tt
    end
  else ret tt.

Definition DeleteSession (m : Manager) (sessionID : string)
  : IO (option error * Manager) :=
  match sessions m !! sessionID with
  | None => ret (Some (Errorf "session %q not found" [sessionID] []), m)
  | Some session =>
      err <- Close (ClientHub session) ;;
      match err with
      | Some e =>
          ret (Some (Errorf "failed to close client hub: %w" [] [e]), m)
      | None =>
          _ <- cleanBundleDir session ;;
          ret (None, set_sessions m (delete sessionID (sessions m)))
      end
  end.

Fixpoint CloseAll_loop (ss : list (string * SessionContext))
    (errs : list error) : IO (list error) :=
  match ss with
  | [] => ret errs
  | (sessionID, session) :: rest =>
      err <- Close (ClientHub session) ;;
      let errs :=
        match err with
        | Some e => (errs ++ [Errorf "session %q: %w" [sessionID] [e]])%list
        | None => errs
        end in
      _ <- cleanBundleDir session ;;
      CloseAll_loop rest errs
  end.

Definition CloseAll (m : Manager) : IO (option error * Manager) :=
  ss <- range (sessions m) ;;
  errs <- CloseAll_loop ss [] ;;
  let m := set_sessions m ∅ in
  if decide (0 < length errs) then
    ret (Some (Errorf "errors closing sessions: %v" [] errs), m)
  else ret (None, m).
End Manager.
End session.


(** ** Observations on the world *)

(** [w'] is [w] after some more calls; [evs] are those calls, newest
    first. *)
Definition extends_by (evs : list event) (w w' : World) : Prop :=
  trace w' = (evs ++ trace w)%list.

Definition extends (w w' : World) : Prop := ∃ evs, extends_by evs w w'.

(** The number of hubs built so far: every connect-and-build sequence
    of [GetOrCreateSession] starts with [NewMcpClientHub]. *)
Fixpoint builds (tr : list event) : nat :=
  match tr with
  | [] => 0
  | EvNewHub _ :: rest => S (builds rest)
  | _ :: rest => builds rest
  end.

(** A step that only adds calls [evs], none of which builds a hub. *)
Definition quiet (w w' : World) : Prop :=
  ∃ evs, extends_by evs w w' ∧ builds evs = 0.

(** A session that is fully built in world [w]: every configured
    provider is connected and its connection is open, the callback is
    registered, there is a bundle directory, every provider has its
    rendering in [Libs], and the rendering of every provider, the
    shared-types file and the bundler configuration have been written
    with success.  Where no provider name has a separator in it, the
    bundle directory and its library directory are on disk with these
    files in them, the file of a provider named [mcp-types] apart, whose
    place the shared-types file takes. *)
Definition fully_built `{Env} (cfg : config.Config)
    (s : session.SessionContext) (w : World) : Prop :=
  let ch := session.ClientHub s in
  let dir := session.BundleDir s in
  dom (client.clients ch) = dom (config.McpServers cfg)
  ∧ (∀ name c, client.clients ch !! name = Some c → client.handle c ∈ conns w)
  ∧ client.refreshed ch = true
  ∧ dir ≠ ""
  ∧ (∀ name, session.Libs s !! name
       = (client.clients ch !! name) ≫= λ c, GenerateFile name (client.GetTools c))
  ∧ (∀ name c, client.clients ch !! name = Some c →
       ∃ file, GenerateFile name (client.GetTools c) = Some file
         ∧ EvWriteFile (session.libPath dir name) file true ∈ trace w)
  ∧ EvWriteFile (filepath.Join [dir; "lib"; "mcp-types.ts"])
      GenerateMCPTypesFile true ∈ trace w
  ∧ EvWriteFile (filepath.Join [dir; "rspack.config.ts"])
      GetEmbeddedConfig true ∈ trace w
  ∧ ((∀ name, is_Some (client.clients ch !! name) →
              filepath.no_separator name) →
     fs w !! dir = Some Dir
     ∧ fs w !! filepath.Join [dir; "lib"] = Some Dir
     ∧ (∀ name c, client.clients ch !! name = Some c →
          ∃ file, GenerateFile name (client.GetTools c) = Some file
            ∧ (name ≠ "mcp-types" →
               fs w !! session.libPath dir name = Some (File file)))
     ∧ fs w !! filepath.Join [dir; "lib"; "mcp-types.ts"]
       = Some (File GenerateMCPTypesFile)
     ∧ fs w !! filepath.Join [dir; "rspack.config.ts"]
       = Some (File GetEmbeddedConfig)).

(** ** Concurrent callers of [GetOrCreateSession] *)

Module concurrent.
Import session.

(** Where a caller of [GetOrCreateSession] stands: before the lookup
    under the read lock, waiting for the write lock after a lookup that
    found nothing, or returned. *)
Inductive caller : Type :=
  | Start
  | Waiting
  | Returned (r : error + SessionContext).

Record System : Type := mkSystem {
  manager : Manager;
  world : World;
  callers : list caller
}.

Section Steps.
Context `{Env}.

(** One step of caller [i], all callers asking for [sessionID]: the
    sections under the registry lock exclude one another, so each runs
    as one step. *)
Definition step (sessionID : string) (sys : System) (i : nat) : System :=
  match callers sys !! i with
  | Some Start =>
      match sessions (manager sys) !! sessionID with
      | Some session =>
          mkSystem (manager sys) (world sys)
            (<[i := Returned (inr session)]> (callers sys))
      | None =>
          mkSystem (manager sys) (world sys) (<[i := Waiting]> (callers sys))
      end
  | Some Waiting =>
      let r := GetOrCreateSession_locked (manager sys) sessionID (world sys) in
      mkSystem r.1.2 r.2 (<[i := Returned r.1.1]> (callers sys))
  | _ => sys
  end.

(** The callers scheduled one after the other. *)
Definition run (sessionID : string) (schedule : list nat) (sys : System)
  : System := foldl (step sessionID) sys schedule.

Definition init (m : Manager) (w : World) (n : nat) : System :=
  mkSystem m w (replicate n Start).
End Steps.

Definition failed (c : caller) : bool :=
  match c with Returned (inl _) => true | _ => false end.

(** The number of callers that got an error. *)
Fixpoint failures (cs : list caller) : nat :=
  match cs with
  | [] => 0
  | c :: rest => (if failed c then 1 else 0) + failures rest
  end.

(** How far a caller has come. *)
Definition rank (c : option caller) : nat :=
  match c with
  | Some Start => 0
  | Some Waiting => 1
  | Some (Returned _) => 2
  | None => 0
  end.

(** What holds of the callers of one identifier at every moment, [w0]
    being the world they started in: a session handed out is the one
    in the registry, and the hubs built since [w0] are one per failed
    caller, and one more once the session is registered. *)
Definition consistent (sessionID : string) (w0 : World) (sys : System) : Prop :=
  (∀ i s, callers sys !! i = Some (Returned (inr s)) →
          sessions (manager sys) !! sessionID = Some s)
  ∧ builds (trace (world sys))
    = builds (trace w0) + failures (callers sys)
      + (match sessions (manager sys) !! sessionID with
         | Some _ => 1
         | None => 0
         end).
End concurrent.

(** ** Scenarios *)

Module scenario.
Import mcp client session.

Definition w0 : World := mkWorld 0 ∅ ∅ [].

Definition catalog : list Tool :=
  [mkTool "read" "reads a file"; mkTool "write" "writes a file"].

Definition render (name : string) (ts : list Tool) : option string :=
  Some ("// " +:+ name +:+ ": " +:+ String.concat "," (map mcp.Name ts)).

Definition one_server : config.Config :=
  config.mkConfig {["a" := config.mkServerConfig "stdio:a"]}.

Definition two_servers : config.Config :=
  config.mkConfig
    (<["a" := config.mkServerConfig "stdio:a"]>
       {["b" := config.mkServerConfig "stdio:b"]}).

(** An environment with the given answers of the providers, of their
    connections and of the file system; [k] is where [range] starts. *)
Definition env (dials : nat → string → option (list Tool))
    (closes : nat → bool) (io : nat → bool) (k : nat) : Env :=
  mkEnv (λ t name _, dials t name) (λ t _, closes t) io (λ _, None)
    (λ t _, pretty t) (λ _ _, k) render "// types" "// rspack".

(** Every call to the outside succeeds. *)
Definition fine : Env := env (λ _ _, Some catalog) (λ _, true) (λ _, true) 0.

(** Every call succeeds, and [range] starts at position [k]. *)
Definition fine_from (k : nat) : Env :=
  env (λ _ _, Some catalog) (λ _, true) (λ _, true) k.

(** Provider [b] cannot be reached. *)
Definition b_down : Env :=
  env (λ _ name, if decide (name = "b") then None else Some catalog)
    (λ _, true) (λ _, true) 0.

(** Connections refuse to close at and after time [t0]. *)
Definition close_fails_from (t0 : nat) : Env :=
  env (λ _ _, Some catalog) (λ t, bool_decide (t < t0)%nat) (λ _, true) 0.

(** The file system fails at and after time [t0]. *)
Definition disk_fails_from (t0 : nat) : Env :=
  env (λ _ _, Some catalog) (λ _, true) (λ t, bool_decide (t < t0)%nat) 0.

(** The disk is full from time [t0] on: a write cuts the file to
    nothing and fails. *)
Definition disk_full_from (t0 : nat) : Env :=
  mkEnv (λ _ _ _, Some catalog) (λ _ _, true) (λ t, bool_decide (t < t0)%nat)
    (λ _, Some 0) (λ t _, pretty t) (λ _ _, 0) render
    "// types" "// rspack".

(** The file system fails at time [t0] only. *)
Definition disk_fails_at (t0 : nat) : Env :=
  env (λ _ _, Some catalog) (λ _, true) (λ t, bool_decide (t ≠ t0)) 0.

(** No provider can be reached before time [t0]. *)
Definition up_from (t0 : nat) : Env :=
  env (λ t _, if bool_decide (t < t0)%nat then None else Some catalog)
    (λ _, true) (λ _, true) 0.

(** The session ["s1"] of a manager with one server, created in [E], and
    the same session after provider ["a"] announced a new catalog. *)
Definition created (E : Env) : (error + SessionContext) * Manager * World :=
  GetOrCreateSession (H := E) (NewManager one_server) "s1" w0.

Definition new_catalog : list Tool := [mkTool "search" "searches"].

Definition refreshed_session (s : SessionContext) : SessionContext :=
  set_ClientHub s (refreshTools (ClientHub s) "a" new_catalog).

(** A session that is connected to provider ["a"] and has no bundle
    directory yet. *)
Definition connected_session : SessionContext :=
  mkSessionContext "s1"
    (mkMcpClientHub 0 {["a" := mkMcpClient "a" 1 catalog]} false) ∅ "" 0 0.

Definition the_session (E : Env) : SessionContext :=
  match (created E).1.1 with
  | inr s => s
  | inl _ => mkSessionContext "" (mkMcpClientHub 0 ∅ false) ∅ "" 0 0
  end.

(** Two providers whose library files are one file, and a provider
    named like the shared-types file. *)
Definition clashing_servers : config.Config :=
  config.mkConfig
    (<["a" := config.mkServerConfig "stdio:a"]>
       {["./a" := config.mkServerConfig "stdio:b"]}).


(** The session ["s1"] of a manager with the servers of [cfg], created
    in [E]. *)
Definition created_of (cfg : config.Config) (E : Env)
  : (error + SessionContext) * Manager * World :=
  GetOrCreateSession (H := E) (NewManager cfg) "s1" w0.

Definition session_of (r : (error + SessionContext) * Manager * World)
  : SessionContext :=
  match r.1.1 with
  | inr s => s
  | inl _ => mkSessionContext "" (mkMcpClientHub 0 ∅ false) ∅ "" 0 0
  end.
End scenario.

(** * The rest of the code *)

(** ** [clienthub.go]: calling a tool *)

Module clienthub.
Import client.

(** The arguments of a tool call, [map[string]interface{}], and its
    result, [*mcp.CallToolResult], pass through the hub untouched: the
    values are kept as text. *)
Definition Args : Type := gmap string string.
Definition CallToolResult : Type := string.

(** What a provider answers to a call made at a given time on a given
    connection. *)
Class Provider : Type := mkProvider {
  answer : nat → nat → string → Args → error + CallToolResult
}.

Section Calls.
Context `{Provider}.

(** Modelled from the spec: [client.CallTool(ctx, toolName, args)],
    missing with [McpClient]; section 6, "CallTool(name, args) →
    result|error". *)
Definition McpClient_CallTool (c : McpClient) (toolName : string) (args : Args)
  : IO (error + CallToolResult) := λ w,
  (answer (clock w) (handle c) toolName args,
   {| clock := S (clock w); conns := conns w; fs := fs w; trace := trace w |}).

Definition CallTool (ch : McpClientHub) (serverName toolName : string)
    (args : Args) : IO (error + CallToolResult) :=
  match clients ch !! serverName with
  | None => ret (inl (Errorf "server %q not found" [serverName] []))
  | Some c => McpClient_CallTool c toolName args
  end.
End Calls.
End clienthub.

(** ** [context.go]: the session context *)

Module sessioncontext.

Section Context.
(** [context.Context] and [client.ClientBox] are only stored. *)
Variables (Ctx Box : Type).

Record SessionContext : Type := mkSessionContext {
  Context : Ctx;
  SessionID : string;
  ClientBox : Box;
  CreatedAt : nat;
  lastAccessedAt : nat
}.

Definition NewSessionContext (ctx : Ctx) (sessionID : string)
    (clientBox : Box) : IO SessionContext :=
  now <- time.Now ;;
  ret (mkSessionContext ctx sessionID clientBox now now).

Definition UpdateLastAccessed (s : SessionContext) : IO SessionContext :=
  now <- time.Now ;;
  ret (mkSessionContext (Context s) (SessionID s) (ClientBox s) (CreatedAt s)
         now).

Definition LastAccessedAt (s : SessionContext) : nat := lastAccessedAt s.

(** [time.Since(t)]: the time from [t] to now. *)
Definition Since (t : nat) : IO Z :=
  now <- time.Now ;;
  ret (Z.of_nat now - Z.of_nat t)%Z.

Definition Age (s : SessionContext) : IO Z := Since (CreatedAt s).

Definition IdleDuration (s : SessionContext) : IO Z :=
  Since (LastAccessedAt s).

(** The timestamps of [s] are in order and lie before the time of [w]. *)
Definition timely (s : SessionContext) (w : World) : Prop :=
  (CreatedAt s ≤ lastAccessedAt s)%nat ∧ (lastAccessedAt s < clock w)%nat.
End Context.

Arguments mkSessionContext {Ctx Box}.
Arguments Context {Ctx Box}.
Arguments SessionID {Ctx Box}.
Arguments ClientBox {Ctx Box}.
Arguments CreatedAt {Ctx Box}.
Arguments lastAccessedAt {Ctx Box}.
Arguments NewSessionContext {Ctx Box}.
Arguments UpdateLastAccessed {Ctx Box}.
Arguments LastAccessedAt {Ctx Box}.
Arguments Age {Ctx Box}.
Arguments IdleDuration {Ctx Box}.
Arguments timely {Ctx Box}.
End sessioncontext.

(** ** [manager.go]: the manager before bundle directories *)

Module manager_go.
Import client session.

Section Manager.
Context `{Env}.

Definition GetOrCreateSession (m : Manager) (sessionID : string)
  : IO ((error + SessionContext) * Manager) :=
  match sessions m !! sessionID with
  | Some session => ret (inr session, m)
  | None =>
      match sessions m !! sessionID with
      | Some session => ret (inr session, m)
      | None =>
          clientHub <- NewMcpClientHub ;;
          r <- Connect clientHub (config m) ;;
          let clientHub := r.2 in
          match r.1 with
          | Some err =>
              ret (inl (Errorf "failed to connect client hub: %w" [] [err]), m)
          | None =>
              session <- NewSessionContext sessionID clientHub ;;
              ret (inr session,
                   set_sessions m (<[sessionID := session]> (sessions m)))
          end
      end
  end.

Definition GetSession (m : Manager) (sessionID : string)
  : option SessionContext := sessions m !! sessionID.

Definition DeleteSession (m : Manager) (sessionID : string)
  : IO (option error * Manager) :=
  match sessions m !! sessionID with
  | None => ret (Some (Errorf "session %q not found" [sessionID] []), m)
  | Some session =>
      err <- Close (ClientHub session) ;;
      match err with
      | Some e =>
          ret (Some (Errorf "failed to close client hub: %w" [] [e]), m)
      | None => ret (None, set_sessions m (delete sessionID (sessions m)))
      end
  end.

Fixpoint CloseAll_loop (ss : list (string * SessionContext))
    (errs : list error) : IO (list error) :=
  match ss with
  | [] => ret errs
  | (sessionID, session) :: rest =>
      err <- Close (ClientHub session) ;;
      match err with
      | Some e =>
          CloseAll_loop rest
            (errs ++ [Errorf "session %q: %w" [sessionID] [e]])%list
      | None => CloseAll_loop rest errs
      end
  end.

Definition CloseAll (m : Manager) : IO (option error * Manager) :=
  ss <- range (sessions m) ;;
  errs <- CloseAll_loop ss [] ;;
  let m := set_sessions m ∅ in
  if decide (0 < length errs) then
    ret (Some (Errorf "errors closing sessions: %v" [] errs), m)
  else ret (None, m).
End Manager.
End manager_go.

(** ** The sandbox: TypeScript to JavaScript *)

Module sandbox.

Record TransformOptions : Type := mkTransformOptions {
  Target : string;
  Module_ : string
}.

Record TypeScriptTransformer : Type := mkTypeScriptTransformer {
  swcPath : string;
  options : TransformOptions
}.

(** The configuration handed to [json.Marshal]: a map literal of
    strings, booleans and maps. *)
#[local] Unset Elimination Schemes.
Inductive json : Type :=
  | JString (s : string)
  | JBool (b : bool)
  | JObject (fields : list (string * json)).
#[local] Set Elimination Schemes.

(** What the host answers: [exec.LookPath], [os.Getenv],
    [json.Marshal], and [cmd.Run], which returns its error and what the
    command wrote to standard output and standard error; the command
    sees the file system and leaves it as it likes. *)
Class Host : Type := mkHost {
  LookPath : nat → string → option string;
  Getenv : string → string;
  Marshal : json → option string;
  Run : nat → list string → gmap string node
        → (option error * string * string) * gmap string node
}.

Definition tick (w : World) : World :=
  {| clock := S (clock w); conns := conns w; fs := fs w; trace := trace w |}.

(** [strings.Contains(s, substr)]. *)
Fixpoint Contains (s substr : string) : bool :=
  String.prefix substr s
  || match s with
     | EmptyString => false
     | String _ rest => Contains rest substr
     end.

Definition tsIndicators : list string :=
  [": string"; ": number"; ": boolean"; ": any"; "interface "; "type ";
   "enum "; "<T>"; "<T,"; " as "; "readonly "; "public "; "private ";
   "protected "].

Fixpoint IsTypeScript_loop (indicators : list string) (code : string) : bool :=
  match indicators with
  | [] => false
  | indicator :: rest =>
      if Contains code indicator then true else IsTypeScript_loop rest code
  end.

Definition IsTypeScript (code : string) : bool :=
  IsTypeScript_loop tsIndicators code.

Section Transformer.
Context `{Env} `{Host}.

Definition exec_LookPath (file : string) : IO (option string) :=
  λ w, (LookPath (clock w) file, tick w).

Definition exec_Run (argv : list string) : IO (option error * string * string) :=
  λ w, let r := Run (clock w) argv (fs w) in (r.1, with_fs r.2 (tick w)).

(** The third candidate of [findSWC]. *)
Definition nvmCandidate : string :=
  filepath.Join
    [Getenv "HOME"; ".nvm"; "versions"; "node"; "*"; "bin"; "swc"].

Fixpoint findSWC_loop (candidates : list string) : IO (error + string) :=
  match candidates with
  | [] => ret (inl (Errorf "swc executable not found" [] []))
  | candidate :: rest =>
      if decide (candidate = "npx") then
        r <- exec_LookPath "npx" ;;
        match r with
        | Some _ => ret (inr "npx")
        | None => findSWC_loop rest
        end
      else
        r <- exec_LookPath candidate ;;
        match r with
        | Some path => ret (inr path)
        | None => findSWC_loop rest
        end
  end.

Definition findSWC : IO (error + string) :=
  findSWC_loop ["swc"; "npx"; nvmCandidate].

Definition NewTypeScriptTransformer : IO (error + TypeScriptTransformer) :=
  r <- findSWC ;;
  match r with
  | inl err =>
      ret (inl (Errorf
             "SWC not found: %w (install with: npm install -g @swc/cli @swc/core)"
             [] [err]))
  | inr swcPath =>
      ret (inr (mkTypeScriptTransformer swcPath
                  (mkTransformOptions "es2020" "es6")))
  end.

(** The SWC configuration of [Transform]. *)
Definition swcConfig (o : TransformOptions) : json :=
  JObject
    [("jsc", JObject
       [("parser", JObject
          [("syntax", JString "typescript"); ("tsx", JBool false);
           ("decorators", JBool false); ("dynamicImport", JBool true)]);
        ("target", JString (Target o))]);
     ("module", JObject [("type", JString (Module_ o))]);
     ("sourceMaps", JBool false)].

(** The command line of [Transform]. *)
Definition swcCommand (t : TypeScriptTransformer) (inputFile configFile : string)
  : list string :=
  if decide (swcPath t = "npx") then
    ["npx"; "-y"; "@swc/cli"; "compile"; inputFile; "--config-file"; configFile]
  else [swcPath t; "compile"; inputFile; "--config-file"; configFile].

Definition newline : string := String (Ascii.ascii_of_nat 10) EmptyString.

(** [Transform]; the deferred [os.RemoveAll(tmpDir)] runs on every
    return that follows the creation of the directory. *)
Definition Transform (t : TypeScriptTransformer) (code : string)
  : IO (error + string) :=
  match Marshal (swcConfig (options t)) with
  | None =>
      ret (inl (Errorf "failed to create SWC config: %w" []
                  [External "json.Marshal"]))
  | Some configJSON =>
      r <- os.MkdirTemp "swc-transform-*" ;;
      match r with
      | inl err => ret (inl (Errorf "failed to create temp dir: %w" [] [err]))
      | inr tmpDir =>
          let inputFile := filepath.Join [tmpDir; "input.ts"] in
          let configFile := filepath.Join [tmpDir; ".swcrc"] in
          err <- os.WriteFile inputFile code ;;
          match err with
          | Some e =>
              _ <- os.RemoveAll tmpDir ;;
              ret (inl (Errorf "failed to write input file: %w" [] [e]))
          | None =>
              err <- os.WriteFile configFile configJSON ;;
              match err with
              | Some e =>
                  _ <- os.RemoveAll tmpDir ;;
                  ret (inl (Errorf "failed to write config file: %w" [] [e]))
              | None =>
                  r <- exec_Run (swcCommand t inputFile configFile) ;;
                  match r.1.1 with
                  | Some e =>
                      _ <- os.RemoveAll tmpDir ;;
                      ret (inl (Errorf
                             ("SWC transformation failed: %w" +:+ newline
                              +:+ "Stderr: %s") [r.2] [e]))
                  | None =>
                      _ <- os.RemoveAll tmpDir ;;
                      ret (inr r.1.2)
                  end
              end
          end
      end
  end.
End Transformer.
End sandbox.

(** ** More observations on the world *)

(** A step that only adds calls and leaves every path outside [root]
    as it was. *)
Definition inside (root : string) (w w' : World) : Prop :=
  extends w w' ∧ ∀ p, ¬ os.within root p → fs w' !! p = fs w !! p.

(** The sessions of a registry as [GetOrCreateSession] registers them:
    under their own id, with a bundle directory, the callback
    registered and a client for every configured server. *)
Definition registered (m : session.Manager) : Prop :=
  ∀ id s, session.sessions m !! id = Some s →
    session.SessionID s = id
    ∧ session.BundleDir s ≠ ""
    ∧ client.refreshed (session.ClientHub s) = true
    ∧ dom (client.clients (session.ClientHub s))
      = dom (config.McpServers (session.config m)).

(** The sessions of a registry of [manager.go]: no bundle directory and
    no library. *)
Definition plain (m : session.Manager) : Prop :=
  ∀ id s, session.sessions m !! id = Some s →
    session.BundleDir s = "" ∧ session.Libs s = ∅.

(** The closes in a trace that failed. *)
Fixpoint failed_closes (tr : list event) : nat :=
  match tr with
  | [] => 0
  | EvClose _ false :: rest => S (failed_closes rest)
  | _ :: rest => failed_closes rest
  end.

(** ** More scenarios *)

Module examples.
Import mcp client session scenario.

Definition hub0 : McpClientHub := mkMcpClientHub 0 ∅ false.

(** A new hub after [Connect] to two servers in [E]. *)
Definition connected (E : Env) : (option error * McpClientHub) * World :=
  Connect (H := E) hub0 two_servers w0.

(** A hub of two providers with different catalogs. *)
Definition two_catalogs : McpClientHub :=
  mkMcpClientHub 0
    (<["a" := mkMcpClient "a" 1 catalog]>
       {["b" := mkMcpClient "b" 2 new_catalog]}) false.

(** What is returned where an error was expected and none came. *)
Definition the_error (r : option error) : error :=
  match r with
  | Some e => e
  | None => External ""
  end.

(** The session ["s1"] of the manager of [manager.go] with one server,
    created in [E]. *)
Definition older (E : Env) : (error + SessionContext) * Manager * World :=
  manager_go.GetOrCreateSession (H := E) (NewManager one_server) "s1" w0.

(** A host with [swc] on the path; its compiler prints the input file
    behind a note, and leaves the file system alone. *)
Definition host : sandbox.Host :=
  sandbox.mkHost
    (λ _ file, if decide (file = "swc") then Some "/usr/bin/swc" else None)
    (λ _, "/home/u")
    (λ _, Some "{}")
    (λ _ argv f,
       match argv !! 2 ≫= (f !!.) with
       | Some (File code) => ((None, "/* js */ " +:+ code, ""), f)
       | _ => ((Some (External "swc"), "", "no input"), f)
       end).

Definition transformer : sandbox.TypeScriptTransformer :=
  sandbox.mkTypeScriptTransformer "/usr/bin/swc"
    (sandbox.mkTransformOptions "es2020" "es6").

Definition typed_code : string := "let x: number = 1;".
End examples.
(** * Properties *)

(** ** Running [IO] programs *)

Lemma bind_run {A B} (c : IO A) (k : A → IO B) (w : World) :
  bind c k w = k (c w).1 (c w).2.
Proof. unfold bind. by destruct (c w). Qed.

Lemma bind_inv {A B} (c : IO A) (k : A → IO B) (w w2 : World) (b : B) :
  bind c k w = (b, w2) → ∃ a w1, c w = (a, w1) ∧ k a w1 = (b, w2).
Proof. rewrite bind_run. destruct (c w) as [a w1]. eauto. Qed.

Lemma ret_inv {A} (a b : A) (w w' : World) : ret a w = (b, w') → b = a ∧ w' = w.
Proof. unfold ret. by intros [= -> ->]. Qed.

(** ** Strings and paths *)

Lemma string_app_nil (s : string) : "" +:+ s = s.
Proof. done. Qed.

Lemma string_app_cons (c : Ascii.ascii) (s1 s2 : string) :
  String c s1 +:+ s2 = String c (s1 +:+ s2).
Proof. done. Qed.

Lemma string_app_assoc (s1 s2 s3 : string) :
  (s1 +:+ s2) +:+ s3 = s1 +:+ (s2 +:+ s3).
Proof.
  induction s1 as [|c s1 IH]; [done |].
  rewrite !string_app_cons. by f_equal.
Qed.

Lemma string_length_app (s1 s2 : string) :
  String.length (s1 +:+ s2) = String.length s1 + String.length s2.
Proof.
  induction s1 as [|c s1 IH]; [done |].
  rewrite string_app_cons. simpl. by f_equal.
Qed.

Lemma string_prefix_app (s1 s2 : string) : String.prefix s1 (s1 +:+ s2) = true.
Proof.
  induction s1 as [|c s1 IH]; [by destruct s2 |].
  rewrite string_app_cons. simpl.
  destruct (Ascii.ascii_dec c c); [done | congruence].
Qed.

Lemma string_app_inv_tail (s1 s2 t : string) : s1 +:+ t = s2 +:+ t → s1 = s2.
Proof.
  revert s2. induction s1 as [|c s1 IH]; intros [|d s2] Heq.
  - done.
  - apply (f_equal String.length) in Heq.
    rewrite string_app_nil, string_app_cons in Heq. simpl in Heq.
    rewrite string_length_app in Heq. lia.
  - apply (f_equal String.length) in Heq.
    rewrite string_app_nil, string_app_cons in Heq. simpl in Heq.
    rewrite string_length_app in Heq. lia.
  - rewrite !string_app_cons in Heq. injection Heq as -> Heq.
    f_equal. by apply IH.
Qed.

Lemma within_root (root : string) : os.within root root.
Proof. by left. Qed.

Lemma within_below (root rest : string) : os.within root (root +:+ "/" +:+ rest).
Proof. right. rewrite <- string_app_assoc. apply string_prefix_app. Qed.

(** ** [filepath.Clean] and [filepath.Join] *)

Section Paths.
Import filepath.

Lemma elements_cons (path : string) : ∃ e es, elements path = e :: es.
Proof.
  induction path as [|c rest (e & es & IH)]; [by eexists _, _ |].
  simpl. rewrite IH. destruct (IsPathSeparator c); by eexists _, _.
Qed.

(** Splitting at a separator. *)
Lemma elements_app (p b : string) :
  elements (p +:+ "/" +:+ b) = (elements p ++ elements b)%list.
Proof.
  induction p as [|c p IH]; [done |].
  rewrite string_app_cons. cbn [elements]. rewrite IH.
  destruct (IsPathSeparator c); [done |].
  by destruct (elements_cons p) as (e & es & ->).
Qed.

Lemma elements_no_separator (e : string) : no_separator e → elements e = [e].
Proof.
  unfold no_separator. induction e as [|c e IH]; [done |].
  cbn [has_separator elements]. intros Hc.
  apply orb_false_iff in Hc as [-> Hc]. by rewrite (IH Hc).
Qed.

Lemma has_separator_app (s t : string) :
  has_separator (s +:+ t) = has_separator s || has_separator t.
Proof.
  induction s as [|c s IH]; [done |].
  rewrite string_app_cons. cbn [has_separator]. by rewrite IH, orb_assoc.
Qed.

Lemma concat_cons (x y : string) (l : list string) :
  String.concat "/" (x :: y :: l) = x +:+ "/" +:+ String.concat "/" (y :: l).
Proof. done. Qed.

Lemma elements_concat (es : list string) :
  Forall no_separator es → es ≠ [] → elements (String.concat "/" es) = es.
Proof.
  induction es as [|x [|y l] IH]; intros Hall Hne; [done | |].
  - simpl. apply elements_no_separator. by apply Forall_inv in Hall.
  - rewrite concat_cons, elements_app.
    apply Forall_cons in Hall as [Hx Hall].
    by rewrite (elements_no_separator x Hx), IH.
Qed.

Lemma concat_app (l1 l2 : list string) :
  l1 ≠ [] → l2 ≠ [] →
  String.concat "/" (l1 ++ l2)
  = String.concat "/" l1 +:+ "/" +:+ String.concat "/" l2.
Proof.
  intros Hne1 Hne2. induction l1 as [|x [|y l] IH]; [done | |].
  - destruct l2; [done |]. done.
  - change ((x :: y :: l) ++ l2)%list with (x :: y :: (l ++ l2))%list.
    rewrite !concat_cons.
    change (String.concat "/" (y :: (l ++ l2)%list))
      with (String.concat "/" ((y :: l) ++ l2)%list).
    rewrite IH by done. by rewrite !string_app_assoc.
Qed.

Lemma element_no_separator (e : string) : element e → no_separator e.
Proof. by intros (_ & _ & _ & ?). Qed.

Lemma clean_element_real (r : bool) (out : list string) (e : string) :
  element e → clean_element r out e = e :: out.
Proof.
  intros (Hne & Hdot & Hdots & _). unfold clean_element.
  rewrite decide_False by tauto. by rewrite decide_False.
Qed.

Lemma foldl_clean_real (r : bool) (out es : list string) :
  Forall element es → foldl (clean_element r) out es = (rev es ++ out)%list.
Proof.
  revert out. induction es as [|e es IH]; intros out Hall; [done |].
  apply Forall_cons in Hall as [He Hall]. cbn [foldl].
  rewrite clean_element_real, IH by done.
  simpl. by rewrite <- app_assoc.
Qed.

Lemma rooted_app (p s : string) : p ≠ "" → rooted (p +:+ s) = rooted p.
Proof. by destruct p. Qed.

(** Real elements joined onto a directory: [Clean] keeps them behind
    what it keeps of the directory. *)
Lemma kept_onto (dir : string) (xs : list string) :
  dir ≠ "" → Forall element xs → xs ≠ [] →
  kept (dir +:+ "/" +:+ String.concat "/" xs) = (rev xs ++ kept dir)%list.
Proof.
  intros Hdir Hall Hne. unfold kept.
  rewrite rooted_app, elements_app, foldl_app by done.
  rewrite elements_concat; [by apply foldl_clean_real | | done].
  eapply Forall_impl; [done |]. apply element_no_separator.
Qed.

Lemma concat_real_ne (xs : list string) :
  Forall element xs → xs ≠ [] → String.concat "/" xs ≠ "".
Proof.
  intros Hall Hne. destruct xs as [|x [|y l]]; [done | |].
  - apply Forall_inv in Hall as (Hx & _). done.
  - rewrite concat_cons. apply Forall_inv in Hall as (Hx & _).
    by destruct x.
Qed.

Lemma Join_cons (e : string) (rest : list string) :
  Join (e :: rest)
  = if decide (e = "") then Join rest else Clean (String.concat "/" (e :: rest)).
Proof. done. Qed.

Lemma Join_onto (dir : string) (xs : list string) :
  dir ≠ "" → Forall element xs → xs ≠ [] →
  Join (dir :: xs)
  = (if rooted dir then "/" else "")
    +:+ String.concat "/" (rev (kept dir) ++ xs).
Proof.
  intros Hdir Hall Hne. rewrite Join_cons, decide_False by done.
  destruct xs as [|x l]; [done |]. rewrite concat_cons. unfold Clean.
  rewrite kept_onto, rooted_app by done.
  rewrite rev_app_distr, rev_involutive.
  destruct (rooted dir); [done |].
  rewrite decide_False; [done |].
  destruct (rev (kept dir)) as [|k ks] eqn:Hk.
  - by apply concat_real_ne.
  - rewrite concat_app by done. intros Heq.
    apply (f_equal String.length) in Heq.
    rewrite !string_length_app in Heq.
    change (String.length "/") with 1 in Heq. simpl in Heq. lia.
Qed.

(** A clean absolute path: real elements behind a slash. *)
Lemma kept_absolute (es : list string) :
  Forall element es → es ≠ [] →
  kept ("/" +:+ String.concat "/" es) = rev es
  ∧ rooted ("/" +:+ String.concat "/" es) = true.
Proof.
  intros Hall Hne. split; [| done]. unfold kept.
  change ("/" +:+ String.concat "/" es)
    with ("" +:+ "/" +:+ String.concat "/" es).
  rewrite elements_app, elements_concat; [| | done].
  - cbn [elements app foldl]. unfold clean_element at 2.
    rewrite decide_True by (by left).
    rewrite foldl_clean_real by done. by rewrite app_nil_r.
  - eapply Forall_impl; [done |]. apply element_no_separator.
Qed.

Lemma Join_absolute (es xs : list string) :
  Forall element es → es ≠ [] → Forall element xs → xs ≠ [] →
  Join (("/" +:+ String.concat "/" es) :: xs)
  = ("/" +:+ String.concat "/" es) +:+ "/" +:+ String.concat "/" xs.
Proof.
  intros Hes Hne Hxs Hnx. rewrite Join_onto by done.
  destruct (kept_absolute es Hes Hne) as [-> ->].
  rewrite rev_involutive, concat_app by done.
  by rewrite !string_app_assoc.
Qed.

Lemma ts_element (name : string) :
  no_separator name → element (name +:+ ".ts").
Proof.
  intros Hname.
  assert (3 ≤ String.length (name +:+ ".ts"))%nat as Hlen
    by (rewrite string_length_app; simpl; lia).
  repeat split.
  - intros Heq. rewrite Heq in Hlen. simpl in Hlen. lia.
  - intros Heq. rewrite Heq in Hlen. simpl in Hlen. lia.
  - intros Heq. rewrite Heq in Hlen. simpl in Hlen. lia.
  - unfold no_separator in *. by rewrite has_separator_app, Hname.
Qed.

Lemma lib_element : element "lib".
Proof. by repeat split. Qed.

(** Whatever the directory, the path of a library is the same text
    followed by the name of the file. *)
Lemma Join_lib_onto (dir : string) :
  ∃ pre, ∀ x, element x → Join [dir; "lib"; x] = pre +:+ x.
Proof.
  destruct (decide (dir = "")) as [->|Hdir].
  - exists "lib/". intros x Hx. rewrite Join_cons, decide_True by done.
    rewrite Join_onto; [done | done | | done].
    by apply Forall_singleton.
  - exists ((if rooted dir then "/" else "")
            +:+ String.concat "/" (rev (kept dir) ++ ["lib"]) +:+ "/").
    intros x Hx. rewrite Join_onto; [| done | | done].
    + change [ "lib"; x ] with ([ "lib" ] ++ [x])%list.
      rewrite app_assoc, concat_app; [| by destruct (rev (kept dir)) | done].
      by rewrite !string_app_assoc.
    + apply Forall_cons. split; [apply lib_element | by apply Forall_singleton].
Qed.
End Paths.

Lemma libPath_inj (bundleDir p q : string) :
  filepath.no_separator p → filepath.no_separator q →
  session.libPath bundleDir p = session.libPath bundleDir q → p = q.
Proof.
  intros Hp Hq. unfold session.libPath.
  destruct (Join_lib_onto bundleDir) as [pre Hpre].
  rewrite !Hpre by by apply ts_element.
  intros Heq. apply String.app_inj in Heq.
  by apply string_app_inv_tail in Heq.
Qed.

(** ** The order of [range] *)

Lemma draw_perm {A} (choose : nat → nat) (n : nat) (l : list A) :
  length l = n → draw n choose l ≡ₚ l.
Proof.
  revert l. induction n as [|n IH]; intros l Hlen; simpl.
  - by destruct l.
  - assert (Hlt : choose n `mod` length l < length l)
      by (apply Nat.mod_upper_bound; lia).
    destruct (lookup_lt_is_Some_2 _ _ Hlt) as [x Hx]. rewrite Hx.
    etrans; [| symmetry; apply (delete_Permutation l _ x Hx)].
    constructor. apply IH. rewrite length_delete by eauto. lia.
Qed.

Lemma shuffle_perm {A} (choose : nat → nat) (l : list A) : shuffle choose l ≡ₚ l.
Proof. by apply draw_perm. Qed.

Lemma draw_ext {A} (c1 c2 : nat → nat) (n : nat) (l : list A) :
  (∀ k, k < n → c1 k = c2 k) → draw n c1 l = draw n c2 l.
Proof.
  revert l. induction n as [|n IH]; intros l Hsame; [done |].
  cbn [draw]. rewrite (Hsame n) by lia.
  destruct (l !! _); [| done]. f_equal. apply IH. intros k Hk. apply Hsame. lia.
Qed.

(** Every order of the elements is drawn by some choice, so a statement
    that holds for every [pick] holds for every order of iteration. *)
Lemma shuffle_complete {A} (l l' : list A) :
  l' ≡ₚ l → ∃ choose, shuffle choose l = l'.
Proof.
  unfold shuffle. revert l. induction l' as [|x l' IH]; intros l Hperm.
  - apply Permutation_nil in Hperm. subst l. by exists (λ _, 0).
  - assert (x ∈ l) as Hin by (rewrite <- Hperm; left).
    apply list_elem_of_lookup in Hin as [i Hi].
    assert (l' ≡ₚ delete i l) as Hrest.
    { apply (Permutation_cons_inv (a := x)).
      by rewrite Hperm, <- delete_Permutation. }
    destruct (IH _ Hrest) as [choose Hdraw].
    pose proof (lookup_lt_Some _ _ _ Hi) as Hlt.
    assert (length l = S (length (delete i l))) as Hlen
      by (rewrite length_delete by eauto; lia).
    exists (λ k, if decide (k = length (delete i l)) then i else choose k).
    rewrite Hlen. cbn [draw]. rewrite decide_True by done.
    rewrite Nat.mod_small by done. rewrite Hi. f_equal.
    rewrite <- Hdraw. apply draw_ext. intros k Hk.
    rewrite decide_False by lia. done.
Qed.

Section Range.
Context `{Env} {V : Type}.
Implicit Types (m : gmap string V) (l : list (string * V)).

Lemma range_perm m w : (range m w).1 ≡ₚ map_to_list m.
Proof. apply shuffle_perm. Qed.

Lemma range_elem m w k v : (k, v) ∈ (range m w).1 ↔ m !! k = Some v.
Proof. rewrite range_perm. apply elem_of_map_to_list. Qed.

Lemma range_NoDup m w : NoDup ((range m w).1).*1.
Proof. rewrite range_perm. apply NoDup_fst_map_to_list. Qed.

Lemma range_to_map m w : list_to_map (range m w).1 = m.
Proof.
  rewrite <- (list_to_map_to_list m) at 2.
  apply list_to_map_proper; [apply range_NoDup | apply range_perm].
Qed.

Lemma range_world m w :
  (range m w).2 = mkWorld (S (clock w)) (conns w) (fs w) (trace w).
Proof. done. Qed.
End Range.

(** Inserting the entries of a list without repeated keys, one after
    the other, builds the map of the list over what was there. *)
Lemma foldl_insert_lookup {A B} (f : A → B) (l : list (string * A))
    (acc : gmap string B) (k : string) :
  NoDup l.*1 →
  foldl (λ r kv, <[kv.1 := f kv.2]> r) acc l !! k
  = match (list_to_map l : gmap string A) !! k with
    | Some a => Some (f a)
    | None => acc !! k
    end.
Proof.
  revert acc. induction l as [|[k' a] l IH]; intros acc Hnd; simpl.
  - by rewrite lookup_empty.
  - apply NoDup_cons in Hnd as [Hnotin Hnd]. rewrite IH by done.
    destruct (decide (k' = k)) as [->|Hne].
    + rewrite lookup_insert_eq.
      rewrite (not_elem_of_list_to_map_1 l k) by done.
      by rewrite lookup_insert_eq.
    + rewrite (lookup_insert_ne (list_to_map l)) by done.
      destruct (list_to_map l !! k); [done|]. by rewrite lookup_insert_ne.
Qed.

(** ** The client hub: lookups *)

Section HubLookups.
Context `{Env}.
Import mcp client.

Lemma hasTool_true ts toolName :
  hasTool ts toolName = true ↔ ∃ tool, tool ∈ ts ∧ mcp.Name tool = toolName.
Proof.
  induction ts as [|t ts IH]; simpl.
  - split; [done |]. intros (tool & Hin & _). by apply elem_of_nil in Hin.
  - destruct (decide (mcp.Name t = toolName)) as [Heq|Hne].
    + split; [|done]. intros _. exists t. split; [left | done].
    + rewrite IH. split.
      * intros (tool & Hin & Hname). exists tool. split; [by right | done].
      * intros (tool & Hin & Hname). apply elem_of_cons in Hin as [->|Hin];
          [done | by exists tool].
Qed.

Lemma FindToolServer_loop_found cs toolName name :
  FindToolServer_loop cs toolName = inr name →
  ∃ c, (name, c) ∈ cs ∧ hasTool (GetTools c) toolName = true.
Proof.
  induction cs as [|[n c] cs IH]; simpl; [done |].
  destruct (hasTool (GetTools c) toolName) eqn:Hhas.
  - intros [= <-]. exists c. split; [left | done].
  - intros Hrest. destruct (IH Hrest) as (c' & Hin & Hc').
    exists c'. split; [by right | done].
Qed.

Lemma FindToolServer_loop_missing cs toolName err :
  FindToolServer_loop cs toolName = inl err →
  err = Errorf "tool %q not found in any server" [toolName] [] ∧
  ∀ name c, (name, c) ∈ cs → hasTool (GetTools c) toolName = false.
Proof.
  induction cs as [|[n c] cs IH]; simpl.
  - intros [= <-]. split; [done |]. intros name c Hin.
    by apply elem_of_nil in Hin.
  - destruct (hasTool (GetTools c) toolName) eqn:Hhas; [done |].
    intros Hrest. destruct (IH Hrest) as [-> Hall]. split; [done |].
    intros name c' Hin. apply elem_of_cons in Hin as [[= -> ->]|Hin]; eauto.
Qed.

Lemma ListTools_loop_foldl cs result :
  ListTools_loop cs result
  = foldl (λ r kv, <[kv.1 := GetTools kv.2]> r) result cs.
Proof. revert result. induction cs as [|[n c] cs IH]; intros; simpl; auto. Qed.

Lemma GetToolsWithDescription_loop_foldl cs result :
  GetToolsWithDescription_loop cs result
  = foldl (λ r kv, <[kv.1 := describe (GetTools kv.2) []]> r) result cs.
Proof. revert result. induction cs as [|[n c] cs IH]; intros; simpl; auto. Qed.

Lemma ListTools_lookup ch w name :
  (ListTools ch w).1 !! name = GetTools <$> clients ch !! name.
Proof.
  unfold ListTools. rewrite bind_run. unfold ret. cbn [fst snd].
  rewrite ListTools_loop_foldl, foldl_insert_lookup by apply range_NoDup.
  rewrite range_to_map, lookup_empty. by destruct (clients ch !! name).
Qed.

Lemma GetToolsWithDescription_lookup ch w name :
  (GetToolsWithDescription ch w).1 !! name
  = (λ c, describe (GetTools c) []) <$> clients ch !! name.
Proof.
  unfold GetToolsWithDescription. rewrite bind_run. unfold ret. cbn [fst snd].
  rewrite GetToolsWithDescription_loop_foldl.
  rewrite (foldl_insert_lookup (λ c, describe (GetTools c) []))
    by apply range_NoDup.
  rewrite range_to_map, lookup_empty. by destruct (clients ch !! name).
Qed.

Lemma describe_map ts acc :
  describe ts acc
  = (acc ++ map (λ t, mkToolInfo (mcp.Name t) (mcp.Description t)) ts)%list.
Proof.
  revert acc. induction ts as [|t ts IH]; intros acc; simpl.
  - by rewrite app_nil_r.
  - by rewrite IH, <- app_assoc.
Qed.

(** C9. For every hub and tool name, [FindToolServer] returns a
    provider of the hub whose catalog holds a tool of exactly that
    name, or it returns the tool-not-found error and then no provider
    of the hub has such a tool; the error is returned exactly when no
    catalog holds the name.  This holds for every iteration order. *)
Theorem FindToolServer_correct (ch : McpClientHub) (toolName : string)
    (w : World) :
  let r := (FindToolServer ch toolName w).1 in
  match r with
  | inr name =>
      ∃ c tool, clients ch !! name = Some c ∧ tool ∈ GetTools c
                ∧ mcp.Name tool = toolName
  | inl err =>
      err = Errorf "tool %q not found in any server" [toolName] []
  end
  ∧ ((∃ err, r = inl err)
     ↔ ∀ name c tool, clients ch !! name = Some c → tool ∈ GetTools c →
                      mcp.Name tool ≠ toolName).
Proof.
  unfold FindToolServer. rewrite bind_run. unfold ret. cbn [fst snd].
  destruct (FindToolServer_loop _ toolName) as [err|name] eqn:Hloop.
  - apply FindToolServer_loop_missing in Hloop as [-> Hall].
    split; [done |]. split; [| by eauto]. intros _ name c tool Hc Hin Hname.
    apply (proj2 (range_elem _ w _ _)) in Hc. specialize (Hall _ _ Hc).
    assert (hasTool (GetTools c) toolName = true) as Htrue
      by (apply hasTool_true; eauto).
    congruence.
  - apply FindToolServer_loop_found in Hloop as (c & Hin & Hhas).
    apply range_elem in Hin. apply hasTool_true in Hhas as (tool & Htool & Hname).
    split; [by eauto |]. split; [by intros [? [=]] |].
    intros Hnone. by destruct (Hnone _ _ _ Hin Htool).
Qed.

(** C10. For every hub, [GetToolsWithDescription] has the provider
    keys of [ListTools], and the list of a provider is as long as the
    provider's tool list and carries, position by position, the name
    and the description of the tool. *)
Theorem GetToolsWithDescription_mirrors_ListTools (ch : McpClientHub)
    (w1 w2 : World) :
  let infos := (GetToolsWithDescription ch w1).1 in
  let listed := (ListTools ch w2).1 in
  dom infos = dom listed
  ∧ ∀ name ts, listed !! name = Some ts →
      ∃ descs, infos !! name = Some descs
        ∧ length descs = length ts
        ∧ ∀ i tool, ts !! i = Some tool →
            ∃ info, descs !! i = Some info
              ∧ client.Name info = mcp.Name tool
              ∧ client.Description info = mcp.Description tool.
Proof.
  cbv zeta. split.
  - apply set_eq. intros name. rewrite !elem_of_dom.
    rewrite ListTools_lookup, GetToolsWithDescription_lookup.
    rewrite !fmap_is_Some. done.
  - intros name ts. rewrite ListTools_lookup, GetToolsWithDescription_lookup.
    destruct (clients ch !! name) as [c|]; [|done]. simpl. intros [= <-].
    exists (describe (GetTools c) []). rewrite describe_map. simpl.
    split; [done |]. split; [by rewrite length_map |].
    intros i tool Hi. exists (mkToolInfo (mcp.Name tool) (mcp.Description tool)).
    split; [| done]. by rewrite list_lookup_fmap, Hi.
Qed.
End HubLookups.

(** ** Traces *)

Lemma builds_app (evs tr : list event) :
  builds (evs ++ tr) = builds evs + builds tr.
Proof.
  induction evs as [|e evs IH]; [done |].
  destruct e; simpl; rewrite IH; lia.
Qed.

Lemma extends_refl (w : World) : extends w w.
Proof. by exists []. Qed.

Lemma extends_trans (w1 w2 w3 : World) :
  extends w1 w2 → extends w2 w3 → extends w1 w3.
Proof.
  intros [e1 H1] [e2 H2]. exists (e2 ++ e1)%list.
  unfold extends_by in *. by rewrite H2, H1, app_assoc.
Qed.

Lemma extends_elem (w w' : World) (e : event) :
  extends w w' → e ∈ trace w → e ∈ trace w'.
Proof. intros [evs ->] Hin. apply elem_of_app. by right. Qed.

Lemma quiet_refl (w : World) : quiet w w.
Proof. by exists []. Qed.

Lemma quiet_trans (w1 w2 w3 : World) : quiet w1 w2 → quiet w2 w3 → quiet w1 w3.
Proof.
  intros (e1 & H1 & Hb1) (e2 & H2 & Hb2). exists (e2 ++ e1)%list.
  unfold extends_by in *. rewrite H2, H1, app_assoc, builds_app. split; [done | lia].
Qed.

Lemma quiet_extends (w w' : World) : quiet w w' → extends w w'.
Proof. intros (evs & Hext & _). by exists evs. Qed.

Lemma quiet_builds (w w' : World) :
  quiet w w' → builds (trace w') = builds (trace w).
Proof. intros (evs & -> & Hb). rewrite builds_app. lia. Qed.

Lemma quiet_one (w w' : World) (e : event) :
  trace w' = e :: trace w → builds [e] = 0 → quiet w w'.
Proof. intros Htr Hb. by exists [e]. Qed.

Lemma quiet_same (w w' : World) : trace w' = trace w → quiet w w'.
Proof. intros Htr. by exists []. Qed.

#[local] Hint Resolve quiet_refl quiet_trans extends_refl quiet_extends : core.

(** ** The primitive calls *)

Section Primitives.
Context `{Env}.
Import mcp client session.

Lemma range_inv {V} (m : gmap string V) w l w' :
  range m w = (l, w') →
  l ≡ₚ map_to_list m ∧ fs w' = fs w ∧ conns w' = conns w
  ∧ trace w' = trace w.
Proof. unfold range. intros [= <- <-]. split; [apply shuffle_perm | done]. Qed.

Lemma Now_inv w t w' :
  time.Now w = (t, w') → fs w' = fs w ∧ conns w' = conns w ∧ trace w' = trace w.
Proof. unfold time.Now. by intros [= <- <-]. Qed.

Lemma Printf_inv format args w u w' :
  log.Printf format args w = (u, w') →
  fs w' = fs w ∧ conns w' = conns w ∧ trace w' = EvLog format args :: trace w.
Proof. unfold log.Printf. by intros [= <- <-]. Qed.

Lemma MkdirTemp_inv pattern w r w' :
  os.MkdirTemp pattern w = (r, w') →
  conns w' = conns w
  ∧ ((∃ p, r = inr p ∧ p ≠ "" ∧ fs w !! p = None
           ∧ fs w' = <[p := Dir]> (fs w)
           ∧ trace w' = EvMkdirTemp pattern (Some p) :: trace w)
     ∨ (∃ e, r = inl e ∧ fs w' = fs w
           ∧ trace w' = EvMkdirTemp pattern None :: trace w)).
Proof.
  unfold os.MkdirTemp.
  destruct (_ && bool_decide (fs w !! _ = None)) eqn:Hok; intros [= <- <-].
  - split; [done |]. left. eexists. split; [done |].
    apply andb_true_iff in Hok as [_ Hfree]. apply bool_decide_eq_true in Hfree.
    done.
  - split; [done |]. right. by eexists.
Qed.

(** The directory that [os.MkdirTemp] returns lies right below the
    temporary directory. *)
Lemma MkdirTemp_tempdir pattern w p w' :
  os.MkdirTemp pattern w = (inr p, w') → os.tempdir p.
Proof.
  unfold os.MkdirTemp.
  destruct (_ && bool_decide (fs w !! _ = None)) eqn:Hok; intros [= <- <-].
  apply andb_true_iff in Hok as [Hok _].
  apply andb_true_iff in Hok as [_ Hname].
  apply bool_decide_eq_true in Hname. by eexists.
Qed.

Lemma Mkdir_inv path w r w' :
  os.Mkdir path w = (r, w') →
  conns w' = conns w
  ∧ ((r = None ∧ fs w' = <[path := Dir]> (fs w)
      ∧ trace w' = EvMkdir path true :: trace w)
     ∨ (∃ e, r = Some e ∧ fs w' = fs w
           ∧ trace w' = EvMkdir path false :: trace w)).
Proof.
  unfold os.Mkdir. destruct (io_ok (clock w)); intros [= <- <-].
  - split; [done |]. by left.
  - split; [done |]. right. by eexists.
Qed.

Lemma WriteFile_inv path data w r w' :
  os.WriteFile path data w = (r, w') →
  conns w' = conns w
  ∧ ((r = None ∧ fs w' = <[path := File data]> (fs w)
      ∧ trace w' = EvWriteFile path data true :: trace w)
     ∨ (∃ e, r = Some e
           ∧ trace w' = EvWriteFile path data false :: trace w
           ∧ (∀ p, p ≠ path → fs w' !! p = fs w !! p)
           ∧ (fs w' !! path = fs w !! path
              ∨ ∃ k, fs w' !! path
                     = Some (File (String.substring 0 k data))))).
Proof.
  unfold os.WriteFile. destruct (io_ok (clock w)).
  - intros [= <- <-]. split; [done |]. by left.
  - destruct (torn (clock w)) as [k|]; intros [= <- <-].
    + split; [done |]. right. eexists. repeat split; try done.
      * intros p Hp. simpl. by rewrite lookup_insert_ne.
      * right. exists k. simpl. by rewrite lookup_insert_eq.
    + split; [done |]. right. eexists. repeat split; try done. by left.
Qed.

Lemma RemoveAll_inv path w r w' :
  os.RemoveAll path w = (r, w') →
  conns w' = conns w
  ∧ ∃ ok, trace w' = EvRemoveAll path ok :: trace w
      ∧ (r = None ↔ ok = true)
      ∧ (ok = true → fs w' = filter (λ kv, ¬ os.within path kv.1) (fs w))
      ∧ (ok = false → fs w' = fs w).
Proof.
  unfold os.RemoveAll. destruct (io_ok (clock w)); intros [= <- <-].
  - split; [done |]. by exists true.
  - split; [done |]. exists false. repeat split; done.
Qed.

(** After a removal that succeeded nothing is left below the root, and
    what lies elsewhere is untouched. *)
Lemma removed_lookup (root p : string) (f : gmap string node) :
  filter (λ kv, ¬ os.within root kv.1) f !! p
  = if decide (os.within root p) then None else f !! p.
Proof.
  case_decide as Hin.
  - apply map_lookup_filter_None. right. intros x _ Hnot. by apply Hnot.
  - destruct (f !! p) as [x|] eqn:Hp.
    + by apply map_lookup_filter_Some.
    + apply map_lookup_filter_None. by left.
Qed.

Lemma NewMcpClient_inv name serverCfg w r w' :
  NewMcpClient name serverCfg w = (r, w') →
  fs w' = fs w
  ∧ ((∃ ts, r = inr (mkMcpClient name (clock w) ts)
        ∧ dial (clock w) name serverCfg = Some ts
        ∧ conns w' = {[clock w]} ∪ conns w
        ∧ trace w' = EvDial name (Some (clock w)) :: trace w)
     ∨ (∃ e, r = inl e ∧ conns w' = conns w
        ∧ trace w' = EvDial name None :: trace w)).
Proof.
  unfold NewMcpClient. destruct (dial (clock w) name serverCfg) as [ts|] eqn:Hd;
    intros [= <- <-].
  - split; [done |]. left. by exists ts.
  - split; [done |]. right. by eexists.
Qed.

Lemma McpClient_Close_inv c w r w' :
  McpClient_Close c w = (r, w') →
  fs w' = fs w
  ∧ ∃ ok, trace w' = EvClose (handle c) ok :: trace w
      ∧ (r = None ↔ ok = true)
      ∧ (ok = true → conns w' = conns w ∖ {[handle c]})
      ∧ (ok = false → conns w' = conns w).
Proof.
  unfold McpClient_Close. destruct (close_ok (clock w) (handle c));
    intros [= <- <-].
  - split; [done |]. by exists true.
  - split; [done |]. exists false. repeat split; done.
Qed.

Lemma NewMcpClientHub_inv w ch w' :
  NewMcpClientHub w = (ch, w') →
  ch = mkMcpClientHub (clock w) ∅ false
  ∧ fs w' = fs w ∧ conns w' = conns w
  ∧ trace w' = EvNewHub (clock w) :: trace w.
Proof. unfold NewMcpClientHub. by intros [= <- <-]. Qed.
End Primitives.

(** ** Regeneration of one provider's library *)

Section Regeneration.
Context `{Env}.
Import mcp client session.

(** What a failed regeneration leaves behind, step by step: a failed
    catalog lookup or rendering changes nothing at all; a failed disk
    write leaves the hub, the other files and the other providers'
    entries as they were, while the entry of the provider already holds
    the new rendering and its file is as before or cut short. *)
Lemma regenerate_failure_cases (s : SessionContext) (P : string) (w : World)
    (e : error) (s' : SessionContext) (w' : World) :
  regenerateLibForServer s P w = ((Some e, s'), w') →
  (ServerTools (ClientHub s) P = None
   ∧ e = Errorf "server %q not found" [P] [] ∧ s' = s ∧ w' = w)
  ∨ (∃ ts, ServerTools (ClientHub s) P = Some ts
      ∧ GenerateFile P ts = None
      ∧ e = Errorf "failed to generate TypeScript: %w" []
              [External "GenerateFile"]
      ∧ s' = s ∧ w' = w)
  ∨ (∃ ts file cause, ServerTools (ClientHub s) P = Some ts
      ∧ GenerateFile P ts = Some file
      ∧ e = Errorf "failed to write lib to disk: %w" [] [cause]
      ∧ s' = set_Libs s (<[P := file]> (Libs s))
      ∧ conns w' = conns w
      ∧ (∀ path, path ≠ libPath (BundleDir s) P → fs w' !! path = fs w !! path)
      ∧ (fs w' !! libPath (BundleDir s) P = fs w !! libPath (BundleDir s) P
         ∨ ∃ k, fs w' !! libPath (BundleDir s) P
                = Some (File (String.substring 0 k file)))).
Proof.
  unfold regenerateLibForServer.
  destruct (ServerTools (ClientHub s) P) as [ts|] eqn:Hts.
  - destruct (GenerateFile P ts) as [file|] eqn:Hgen.
    + case_decide as Hdir; [| by intros [=]].
      intros Hrun. apply bind_inv in Hrun as (err & w1 & Hwrite & Hk).
      destruct err as [cause|]; [| by apply ret_inv in Hk as [[=] _]].
      apply ret_inv in Hk as [[= -> ->] ->].
      apply WriteFile_inv in Hwrite
        as [Hconns [([=] & _)|(e & [= <-] & _ & Hframe & Hfile)]].
      right; right. by exists ts, file, cause.
    + intros Hrun. apply ret_inv in Hrun as [[= -> ->] ->].
      right; left. by exists ts.
  - intros Hrun. apply ret_inv in Hrun as [[= -> ->] ->]. by left.
Qed.

(** C5, as amended. When the regeneration of provider [P] fails, the
    hub, the bundle directory, the open connections, every file on disk
    other than the file of [P] and the in-memory entries of all other
    providers are as before; the file of another provider is a file
    other than that of [P] when neither name has a separator in it.
    When the catalog lookup or the rendering
    failed, the in-memory entry and the file of [P] are as before too.
    When the disk write failed, the in-memory entry of [P] holds the
    new rendering, and the file of [P] is as before or holds the bytes
    of the new rendering that were written. *)
Theorem regenerate_failure_local (s : SessionContext) (P : string)
    (w : World) (e : error) (s' : SessionContext) (w' : World) :
  regenerateLibForServer s P w = ((Some e, s'), w') →
  ClientHub s' = ClientHub s ∧ BundleDir s' = BundleDir s
  ∧ SessionID s' = SessionID s
  ∧ conns w' = conns w
  ∧ (∀ Q, Q ≠ P →
       Libs s' !! Q = Libs s !! Q
       ∧ (filepath.no_separator P → filepath.no_separator Q →
          fs w' !! libPath (BundleDir s') Q = fs w !! libPath (BundleDir s) Q))
  ∧ (∀ path, path ≠ libPath (BundleDir s) P → fs w' !! path = fs w !! path)
  ∧ ((∀ cause, e ≠ Errorf "failed to write lib to disk: %w" [] [cause]) →
     Libs s' = Libs s ∧ fs w' = fs w)
  ∧ (∀ cause, e = Errorf "failed to write lib to disk: %w" [] [cause] →
     ∃ ts file, ServerTools (ClientHub s) P = Some ts
       ∧ GenerateFile P ts = Some file
       ∧ Libs s' !! P = Some file
       ∧ (fs w' !! libPath (BundleDir s) P = fs w !! libPath (BundleDir s) P
          ∨ ∃ k, fs w' !! libPath (BundleDir s) P
                 = Some (File (String.substring 0 k file)))).
Proof.
  intros Hrun.
  destruct (regenerate_failure_cases _ _ _ _ _ _ Hrun)
    as [(Hts & -> & -> & ->)
       |[(ts & Hts & Hgen & -> & -> & ->)
        |(ts & file & cause & Hts & Hgen & -> & -> & Hconns & Hframe & Hfile)]].
  - repeat split; try done.
  - repeat split; try done.
  - do 4 (split; [done |]). split.
    { intros Q HQ. simpl. rewrite lookup_insert_ne by done. split; [done |].
      intros HP HQ'. apply Hframe. intros Heq. by apply libPath_inj in Heq. }
    split; [done |]. split.
    { intros Hne. by destruct (Hne cause). }
    intros _ _. exists ts, file. simpl. by rewrite lookup_insert_eq.
Qed.

(** C6, as amended. After a successful regeneration for provider [P]
    of a session that has a bundle directory, the in-memory entry of
    [P] and the file of [P] on disk both hold the rendering of the
    catalog the hub now has for [P]; the entries of all other providers
    and every file other than that of [P] are as before, and so is the
    file of every other provider when neither its name nor that of [P]
    has a separator in it. *)
Theorem regenerate_success_frame (s : SessionContext) (P : string)
    (w : World) (s' : SessionContext) (w' : World) :
  BundleDir s ≠ "" →
  regenerateLibForServer s P w = ((None, s'), w') →
  ∃ ts file,
    ServerTools (ClientHub s) P = Some ts
    ∧ GenerateFile P ts = Some file
    ∧ Libs s' !! P = Some file
    ∧ fs w' !! libPath (BundleDir s') P = Some (File file)
    ∧ (∀ Q, Q ≠ P →
         Libs s' !! Q = Libs s !! Q
         ∧ (filepath.no_separator P → filepath.no_separator Q →
            fs w' !! libPath (BundleDir s') Q
            = fs w !! libPath (BundleDir s) Q))
    ∧ (∀ path, path ≠ libPath (BundleDir s) P → fs w' !! path = fs w !! path)
    ∧ ClientHub s' = ClientHub s ∧ BundleDir s' = BundleDir s.
Proof.
  intros Hdir. unfold regenerateLibForServer.
  destruct (ServerTools (ClientHub s) P) as [ts|] eqn:Hts; [| by intros [=]].
  destruct (GenerateFile P ts) as [file|] eqn:Hgen; [| by intros [=]].
  case_decide as Hdir'; [| done].
  intros Hrun. apply bind_inv in Hrun as (err & w1 & Hwrite & Hk).
  destruct err as [cause|]; [by apply ret_inv in Hk as [[=] _] |].
  apply ret_inv in Hk as [[= ->] ->].
  apply WriteFile_inv in Hwrite as [_ [(_ & Hfs & _)|(e & [=] & _)]].
  simpl in Hfs. exists ts, file. simpl. rewrite Hfs.
  repeat split; try done.
  - by rewrite lookup_insert_eq.
  - by rewrite lookup_insert_eq.
  - by rewrite lookup_insert_ne.
  - intros HP HQ. rewrite lookup_insert_ne; [done |]. intros Heq.
    by apply libPath_inj in Heq.
  - intros path Hpath. by rewrite lookup_insert_ne.
Qed.

(** The callback registered by [GetOrCreateSession] leaves the session
    that [regenerateLibForServer] leaves, and the files on disk too:
    it adds nothing but its log lines. *)
Lemma toolsRefreshed_regenerates (sessionID : string) (s : SessionContext)
    (P : string) (w : World) :
  let w1 := (log.Printf
               "Session %s: tools changed for server %q, regenerating libraries..."
               [sessionID; P] w).2 in
  (toolsRefreshed sessionID s P w).1 = (regenerateLibForServer s P w1).1.2
  ∧ fs (toolsRefreshed sessionID s P w).2 = fs (regenerateLibForServer s P w1).2.
Proof.
  cbv zeta. unfold toolsRefreshed. rewrite !bind_run.
  destruct (regenerateLibForServer s P _) as [[[e|] s'] w2]; done.
Qed.
End Regeneration.

(** ** The client hub: connecting and closing *)

Section HubLifecycle.
Context `{Env}.
Import mcp client.

Lemma Connect_loop_spec servers ch w err ch' w' :
  Connect_loop servers ch w = ((err, ch'), w') →
  addr ch' = addr ch ∧ refreshed ch' = refreshed ch
  ∧ fs w' = fs w ∧ quiet w w' ∧ conns w ⊆ conns w'
  ∧ (∀ name c, clients ch' !! name = Some c →
       clients ch !! name = Some c ∨ handle c ∈ conns w')
  ∧ (err = None →
     dom (clients ch') = dom (clients ch) ∪ list_to_set servers.*1).
Proof.
  revert ch w. induction servers as [|[name serverCfg] rest IH]; intros ch w.
  - simpl. intros Hrun. apply ret_inv in Hrun as [[= -> ->] ->].
    repeat split; auto. intros _. simpl. by rewrite union_empty_r_L.
  - simpl. intros Hrun. apply bind_inv in Hrun as (r & w1 & Hdial & Hk).
    apply NewMcpClient_inv in Hdial
      as [Hfs [(ts & -> & Hd & Hconns & Htr)|(e & -> & Hconns & Htr)]].
    + apply IH in Hk as (Haddr & Href & Hfs' & Hq & Hsub & Hcl & Hdom).
      simpl in *. repeat split; auto.
      * congruence.
      * eapply quiet_trans; [| exact Hq]. by eapply quiet_one.
      * rewrite Hconns in Hsub. etrans; [apply union_subseteq_r | exact Hsub].
      * intros n c Hn. destruct (Hcl n c Hn) as [Hold|Hnew]; [| by right].
        destruct (decide (name = n)) as [->|Hne].
        -- rewrite lookup_insert_eq in Hold. injection Hold as <-. simpl.
           right. apply Hsub. rewrite Hconns.
           by apply elem_of_union_l, elem_of_singleton.
        -- rewrite lookup_insert_ne in Hold by done. by left.
      * intros Hnone. rewrite (Hdom Hnone), dom_insert_L. simpl.
        apply set_eq. intros x. rewrite !elem_of_union. tauto.
    + apply ret_inv in Hk as [[= -> ->] ->].
      repeat split; auto.
      * by eapply quiet_one.
      * by rewrite Hconns.
      * done.
Qed.

Lemma Connect_spec ch cfg w err ch' w' :
  Connect ch cfg w = ((err, ch'), w') →
  addr ch' = addr ch ∧ refreshed ch' = refreshed ch
  ∧ fs w' = fs w ∧ quiet w w' ∧ conns w ⊆ conns w'
  ∧ (∀ name c, clients ch' !! name = Some c →
       clients ch !! name = Some c ∨ handle c ∈ conns w')
  ∧ (err = None →
     dom (clients ch') = dom (clients ch) ∪ dom (config.McpServers cfg)).
Proof.
  unfold Connect. intros Hrun.
  apply bind_inv in Hrun as (servers & w1 & Hrange & Hk).
  apply range_inv in Hrange as (Hperm & Hfs & Hconns & Htr).
  apply Connect_loop_spec in Hk as (Haddr & Href & Hfs' & Hq & Hsub & Hcl & Hdom).
  repeat split; auto.
  - congruence.
  - eapply quiet_trans; [by apply quiet_same | done].
  - by rewrite <- Hconns.
  - intros Hnone. rewrite (Hdom Hnone). f_equal.
    apply set_eq. intros k. rewrite elem_of_list_to_set, Hperm.
    rewrite elem_of_dom, list_elem_of_fmap. split.
    + intros ([k' v] & -> & Hin). apply elem_of_map_to_list in Hin. eauto.
    + intros [v Hv]. exists (k, v). split; [done |].
      by apply elem_of_map_to_list.
Qed.

(** [Connect] only dials. *)
Lemma Connect_loop_dials servers ch w r w' :
  Connect_loop servers ch w = (r, w') →
  ∃ evs, extends_by evs w w'
    ∧ ∀ e, e ∈ evs → ∃ name res, e = EvDial name res.
Proof.
  revert ch w. induction servers as [|[name serverCfg] rest IH]; intros ch w.
  - simpl. intros Hrun. apply ret_inv in Hrun as [_ ->]. exists [].
    split; [done |]. intros e He. by apply elem_of_nil in He.
  - simpl. intros Hrun. apply bind_inv in Hrun as (r0 & w1 & Hdial & Hk).
    assert (∃ res, trace w1 = EvDial name res :: trace w) as [res Htr].
    { apply NewMcpClient_inv in Hdial
        as [_ [(ts & _ & _ & _ & Htr)|(e & _ & _ & Htr)]]; eauto. }
    assert (∃ evs, extends_by evs w1 w'
              ∧ ∀ e, e ∈ evs → ∃ name res, e = EvDial name res)
      as (evs & Hext & Hall).
    { destruct r0 as [err|c]; [| by eapply IH].
      apply ret_inv in Hk as [_ ->]. exists []. split; [done |].
      intros e He. by apply elem_of_nil in He. }
    exists (evs ++ [EvDial name res])%list. unfold extends_by in *.
    rewrite Hext, Htr, <- app_assoc. split; [done |].
    intros e He. apply elem_of_app in He as [He|He]; [by apply Hall |].
    apply list_elem_of_singleton in He as ->. eauto.
Qed.

Lemma Connect_dials ch cfg w r w' :
  Connect ch cfg w = (r, w') →
  ∃ evs, extends_by evs w w'
    ∧ ∀ e, e ∈ evs → ∃ name res, e = EvDial name res.
Proof.
  unfold Connect. intros Hrun.
  apply bind_inv in Hrun as (servers & w1 & Hrange & Hk).
  apply range_inv in Hrange as (_ & _ & _ & Htr).
  apply Connect_loop_dials in Hk as (evs & Hext & Hall).
  exists evs. unfold extends_by in *. by rewrite Hext, Htr.
Qed.

Lemma Close_loop_spec cs errs w errs' w' :
  Close_loop cs errs w = (errs', w') →
  fs w' = fs w ∧ conns w' ⊆ conns w
  ∧ ∃ evs, extends_by evs w w' ∧ builds evs = 0
      ∧ (∀ name c, (name, c) ∈ cs → ∃ ok, EvClose (handle c) ok ∈ evs)
      ∧ (∀ e, e ∈ evs → ∃ name c ok, (name, c) ∈ cs ∧ e = EvClose (handle c) ok)
      ∧ ((∀ e, e ∈ evs → ∃ h, e = EvClose h true) → errs' = errs)
      ∧ (length errs ≤ length errs')%nat.
Proof.
  revert errs w. induction cs as [|[name c] rest IH]; intros errs w.
  - simpl. intros Hrun. apply ret_inv in Hrun as [-> ->].
    repeat split; auto. exists []. repeat split; auto.
    + intros n c Hin. by apply elem_of_nil in Hin.
    + intros e Hin. by apply elem_of_nil in Hin.
  - simpl. intros Hrun. apply bind_inv in Hrun as (r & w1 & Hclose & Hk).
    apply McpClient_Close_inv in Hclose
      as (Hfs & ok & Htr & Hok & Hconns1 & Hconns0).
    assert (conns w1 ⊆ conns w) as Hsub1.
    { destruct ok; [rewrite Hconns1 by done; by apply subseteq_difference_l
                   | by rewrite Hconns0]. }
    assert (∃ errs1, Close_loop rest errs1 w1 = (errs', w')
                     ∧ (length errs ≤ length errs1)%nat
                     ∧ (ok = true → errs1 = errs)) as (errs1 & Hk' & Hlen & Hsame).
    { destruct r as [e|].
      - eexists. split; [exact Hk |]. split; [rewrite length_app; lia |].
        intros ->. by destruct Hok as [_ Hok]; specialize (Hok eq_refl).
      - exists errs. by repeat split. }
    apply IH in Hk' as (Hfs' & Hsub & evs & Hext & Hb & Hall & Honly & Hnone & Hlen').
    split; [congruence |]. split; [by etrans |].
    exists (evs ++ [EvClose (handle c) ok])%list.
    unfold extends_by in *. rewrite Hext, Htr, <- app_assoc.
    repeat split; auto.
    + rewrite builds_app. simpl. lia.
    + intros n c' Hin. apply elem_of_cons in Hin as [[= -> ->]|Hin].
      * exists ok. apply elem_of_app. right. by left.
      * destruct (Hall n c' Hin) as [ok' Hin']. exists ok'.
        apply elem_of_app. by left.
    + intros e Hin. apply elem_of_app in Hin as [Hin|Hin].
      * destruct (Honly e Hin) as (n & c' & ok' & Hin' & ->).
        exists n, c', ok'. split; [by right | done].
      * apply list_elem_of_singleton in Hin as ->.
        exists name, c, ok. split; [left | done].
    + intros Hallok. rewrite Hnone.
      * apply Hsame. destruct (Hallok (EvClose (handle c) ok)) as [h Heq].
        { apply elem_of_app. right. by left. }
        by injection Heq as _ ->.
      * intros e Hin. apply Hallok. apply elem_of_app. by left.
    + lia.
Qed.

Lemma Close_spec ch w err w' :
  Close ch w = (err, w') →
  fs w' = fs w ∧ conns w' ⊆ conns w
  ∧ ∃ evs, extends_by evs w w' ∧ builds evs = 0
      ∧ (∀ name c, clients ch !! name = Some c →
           ∃ ok, EvClose (handle c) ok ∈ evs)
      ∧ (∀ e, e ∈ evs →
           ∃ name c ok, clients ch !! name = Some c ∧ e = EvClose (handle c) ok)
      ∧ ((∀ e, e ∈ evs → ∃ h, e = EvClose h true) → err = None).
Proof.
  unfold Close. intros Hrun.
  apply bind_inv in Hrun as (cs & w1 & Hrange & Hk).
  apply bind_inv in Hk as (errs & w2 & Hloop & Hk).
  apply range_inv in Hrange as (Hperm & Hfs & Hconns & Htr).
  apply Close_loop_spec in Hloop
    as (Hfs' & Hsub & evs & Hext & Hb & Hall & Honly & Hnone & _).
  assert (w' = w2) as ->.
  { case_decide; by apply ret_inv in Hk as [_ ->]. }
  split; [congruence |]. split; [by rewrite <- Hconns |].
  exists evs. unfold extends_by in *. rewrite Hext, Htr.
  repeat split; auto.
  - intros name c Hc. apply (Hall name).
    rewrite Hperm. by apply elem_of_map_to_list.
  - intros e Hin. destruct (Honly e Hin) as (n & c & ok & Hin' & ->).
    exists n, c, ok. split; [| done].
    rewrite Hperm in Hin'. by apply elem_of_map_to_list in Hin'.
  - intros Hallok. rewrite (Hnone Hallok) in Hk.
    by apply ret_inv in Hk as [-> _].
Qed.

Lemma Close_quiet ch w err w' : Close ch w = (err, w') → quiet w w'.
Proof.
  intros Hrun. apply Close_spec in Hrun as (_ & _ & evs & Hext & Hb & _).
  by exists evs.
Qed.

Lemma Tools_inv ch w r w' :
  Tools ch w = (r, w') →
  (∀ name, r !! name = GetTools <$> clients ch !! name)
  ∧ fs w' = fs w ∧ conns w' = conns w ∧ trace w' = trace w.
Proof.
  intros Hrun. split.
  - intros name. unfold Tools in Hrun.
    pose proof (ListTools_lookup ch w name) as Hl. by rewrite Hrun in Hl.
  - unfold Tools, ListTools in Hrun.
    apply bind_inv in Hrun as (cs & w1 & Hrange & Hk).
    apply ret_inv in Hk as [_ ->]. by apply range_inv in Hrange as (_ & ? & ? & ?).
Qed.
End HubLifecycle.

(** ** Paths of the bundle directory *)

Lemma string_app_ne_self (s t : string) : t ≠ "" → s ≠ s +:+ t.
Proof.
  intros Ht Heq. apply (f_equal String.length) in Heq.
  rewrite string_length_app in Heq. destruct t; [done | simpl in Heq; lia].
Qed.

Section BundlePaths.
Import filepath.

Lemma tempdir_absolute (root : string) :
  os.tempdir root →
  ∃ es, Forall element es ∧ es ≠ [] ∧ root = "/" +:+ String.concat "/" es.
Proof.
  intros (name & Hname & ->). exists ["tmp"; name].
  split; [| done]. apply Forall_cons. split; [by repeat split |].
  by apply Forall_singleton.
Qed.

Lemma tempdir_ne (root : string) : os.tempdir root → root ≠ "".
Proof. by intros (name & _ & ->). Qed.

(** Real elements joined onto a directory that [os.MkdirTemp] made:
    the path is the directory, a slash, and the elements. *)
Lemma Join_dir (root : string) (xs : list string) :
  os.tempdir root → Forall element xs → xs ≠ [] →
  Join (root :: xs) = root +:+ "/" +:+ String.concat "/" xs.
Proof.
  intros Hroot Hxs Hne.
  destruct (tempdir_absolute root Hroot) as (es & Hes & Hnes & ->).
  by apply Join_absolute.
Qed.

Lemma Join_lib (root : string) :
  os.tempdir root → Join [root; "lib"] = root +:+ "/" +:+ "lib".
Proof.
  intros Hroot. rewrite Join_dir; [done | done | | done].
  apply Forall_singleton, lib_element.
Qed.

(** Joining in two steps, as [initializeSessionBundleDir] does, or in
    one, as [regenerateLibForServer] does, gives the same path, whatever
    the last element. *)
Lemma Join_lib_any (root x : string) :
  os.tempdir root → Join [Join [root; "lib"]; x] = Join [root; "lib"; x].
Proof.
  intros Hroot. rewrite Join_lib by done.
  rewrite !Join_cons, !decide_False; [| by apply tempdir_ne |].
  - rewrite !concat_cons. by rewrite !string_app_assoc.
  - pose proof (tempdir_ne root Hroot). by destruct root.
Qed.

Lemma Join_lib_file (root x : string) :
  os.tempdir root → element x →
  Join [Join [root; "lib"]; x] = root +:+ "/" +:+ "lib" +:+ "/" +:+ x.
Proof.
  intros Hroot Hx. rewrite Join_lib_any by done.
  rewrite Join_dir; [done | done | | done].
  apply Forall_cons. split; [apply lib_element | by apply Forall_singleton].
Qed.

Lemma libPath_Join (root name : string) :
  os.tempdir root →
  Join [Join [root; "lib"]; name +:+ ".ts"] = session.libPath root name.
Proof. apply Join_lib_any. Qed.

Lemma rspack_element : element "rspack.config.ts".
Proof. by repeat split. Qed.

Lemma mcp_types_element : element "mcp-types.ts".
Proof. by repeat split. Qed.

Lemma Join_rspack (root : string) :
  os.tempdir root →
  Join [root; "rspack.config.ts"] = root +:+ "/" +:+ "rspack.config.ts".
Proof.
  intros Hroot. rewrite Join_dir; [done | done | | done].
  apply Forall_singleton, rspack_element.
Qed.

Lemma within_lib (root : string) :
  os.tempdir root → os.within root (Join [root; "lib"]).
Proof. intros Hroot. rewrite Join_lib by done. apply within_below. Qed.

Lemma within_lib_file (root x : string) :
  os.tempdir root → element x →
  os.within root (Join [Join [root; "lib"]; x]).
Proof.
  intros Hroot Hx. rewrite Join_lib_file by done. apply within_below.
Qed.

Lemma within_rspack (root : string) :
  os.tempdir root → os.within root (Join [root; "rspack.config.ts"]).
Proof. intros Hroot. rewrite Join_rspack by done. apply within_below. Qed.

Lemma root_ne_below (root x : string) : root ≠ root +:+ "/" +:+ x.
Proof. by apply string_app_ne_self. Qed.

Lemma lib_ne_lib_file (root x : string) :
  os.tempdir root → element x →
  Join [root; "lib"] ≠ Join [Join [root; "lib"]; x].
Proof.
  intros Hroot Hx. rewrite Join_lib_file, Join_lib by done.
  intros Heq. apply (f_equal String.length) in Heq.
  rewrite !string_length_app in Heq. simpl in Heq. lia.
Qed.

Lemma lib_ne_rspack (root : string) :
  os.tempdir root → Join [root; "lib"] ≠ Join [root; "rspack.config.ts"].
Proof.
  intros Hroot. rewrite Join_lib, Join_rspack by done.
  intros Heq. by do 2 apply String.app_inj in Heq.
Qed.

Lemma lib_file_ne_rspack (root x : string) :
  os.tempdir root → element x →
  Join [Join [root; "lib"]; x] ≠ Join [root; "rspack.config.ts"].
Proof.
  intros Hroot Hx. rewrite Join_lib_file, Join_rspack by done.
  intros Heq. by do 2 apply String.app_inj in Heq.
Qed.

Lemma lib_file_inj (root x y : string) :
  os.tempdir root → element x → element y →
  Join [Join [root; "lib"]; x] = Join [Join [root; "lib"]; y] → x = y.
Proof.
  intros Hroot Hx Hy. rewrite !Join_lib_file by done.
  intros Heq. by do 4 apply String.app_inj in Heq.
Qed.

Lemma root_ne_lib_file (root x : string) :
  os.tempdir root → element x → root ≠ Join [Join [root; "lib"]; x].
Proof. intros Hroot Hx. rewrite Join_lib_file by done. apply root_ne_below. Qed.

Lemma mcp_types_path (root : string) :
  os.tempdir root →
  Join [Join [root; "lib"]; "mcp-types.ts"] = Join [root; "lib"; "mcp-types.ts"].
Proof. apply Join_lib_any. Qed.
End BundlePaths.

Lemma ts_inj (p q : string) : p +:+ ".ts" = q +:+ ".ts" → p = q.
Proof. apply string_app_inv_tail. Qed.

(** ** Building the bundle directory *)

Section BundleDir.
Context `{Env}.
Import mcp client session.

(** A removal of [root]: where it goes through, nothing is left at
    or below [root]. *)
Lemma RemoveAll_gone root w r w' :
  os.RemoveAll root w = (r, w') →
  conns w' = conns w
  ∧ ∃ ok, trace w' = EvRemoveAll root ok :: trace w
      ∧ (ok = true → ∀ p, os.within root p → fs w' !! p = None)
      ∧ ok = io_ok (Nat.pred (clock w')).
Proof.
  intros Hrun.
  assert (clock w' = S (clock w)) as Hclock.
  { revert Hrun. unfold os.RemoveAll.
    by destruct (io_ok (clock w)); intros [= <- <-]. }
  assert (∀ ok, trace w' = EvRemoveAll root ok :: trace w →
                ok = io_ok (clock w)) as Hanswer.
  { revert Hrun. unfold os.RemoveAll.
    destruct (io_ok (clock w)); intros [= <- <-] ok; simpl; congruence. }
  apply RemoveAll_inv in Hrun as (Hconns & ok & Htr & _ & Hfs & _).
  split; [done |]. exists ok. split; [done |]. split.
  - intros Hok p Hp. rewrite (Hfs Hok), removed_lookup. by rewrite decide_True.
  - rewrite Hclock. simpl. by apply Hanswer.
Qed.

Lemma WriteFile_frame path data w r w' :
  os.WriteFile path data w = (r, w') →
  ∀ p, p ≠ path → fs w' !! p = fs w !! p.
Proof.
  intros Hrun p Hp.
  apply WriteFile_inv in Hrun as [_ [(_ & Hfs & _)|(e & _ & _ & Hfr & _)]].
  - by rewrite Hfs, lookup_insert_ne.
  - by apply Hfr.
Qed.

Lemma RemoveAll_frame root w r w' :
  os.RemoveAll root w = (r, w') →
  ∀ p, ¬ os.within root p → fs w' !! p = fs w !! p.
Proof.
  intros Hrun p Hp.
  apply RemoveAll_inv in Hrun as (_ & ok & _ & _ & Hyes & Hno).
  destruct ok.
  - rewrite Hyes by done. rewrite removed_lookup. by rewrite decide_False.
  - by rewrite Hno.
Qed.

Lemma inside_trans root w1 w2 w3 :
  inside root w1 w2 → inside root w2 w3 → inside root w1 w3.
Proof.
  intros [Hext1 Hfr1] [Hext2 Hfr2]. split; [by eapply extends_trans |].
  intros p Hp. by rewrite Hfr2, Hfr1.
Qed.

Lemma inside_same root w w' :
  trace w' = trace w → fs w' = fs w → inside root w w'.
Proof.
  intros Htr Hfs. split; [by exists [] | intros p _; by rewrite Hfs].
Qed.

Lemma inside_event root w w' e :
  trace w' = e :: trace w →
  (∀ p, ¬ os.within root p → fs w' !! p = fs w !! p) → inside root w w'.
Proof. intros Htr Hfs. split; [by exists [e] | done]. Qed.

Lemma WriteFile_inside root path data w r w' :
  os.within root path →
  os.WriteFile path data w = (r, w') → inside root w w'.
Proof.
  intros Hin Hrun.
  assert (∀ p, ¬ os.within root p → fs w' !! p = fs w !! p) as Hfr.
  { intros p Hp. eapply WriteFile_frame; [done |]. by intros ->. }
  apply WriteFile_inv in Hrun as [_ [(_ & _ & Htr)|(e & _ & Htr & _)]];
    by eapply inside_event.
Qed.

Lemma Mkdir_inside root path w r w' :
  os.within root path → os.Mkdir path w = (r, w') → inside root w w'.
Proof.
  intros Hin Hrun.
  apply Mkdir_inv in Hrun as [_ [(_ & Hfs & Htr)|(e & _ & Hfs & Htr)]];
    eapply inside_event; try done; intros p Hp; rewrite Hfs; [| done].
  rewrite lookup_insert_ne; [done |]. by intros <-.
Qed.

Lemma RemoveAll_inside root w r w' :
  os.RemoveAll root w = (r, w') → inside root w w'.
Proof.
  intros Hrun. pose proof (RemoveAll_frame _ _ _ _ Hrun) as Hfr.
  apply RemoveAll_inv in Hrun as (_ & ok & Htr & _). by eapply inside_event.
Qed.

(** The loop over the catalogs, whatever the names of the providers:
    on an error the directory was removed last; on success every
    rendering has been written and is in the map. *)
Lemma initialize_libs_spec root libDir allTools libs w r w' :
  initialize_libs root libDir allTools libs w = (r, w') →
  conns w' = conns w ∧ quiet w w'
  ∧ match r.1 with
    | Some e =>
        ∃ ok evs, trace w' = (EvRemoveAll root ok :: evs ++ trace w)%list
          ∧ (ok = true → ∀ p, os.within root p → fs w' !! p = None)
          ∧ ok = io_ok (Nat.pred (clock w'))
    | None =>
        (∃ evs, extends_by evs w w'
           ∧ ∀ name ts, (name, ts) ∈ allTools →
               ∃ file, GenerateFile name ts = Some file
                 ∧ EvWriteFile (filepath.Join [libDir; name +:+ ".ts"]) file
                     true ∈ evs)
        ∧ (NoDup allTools.*1 →
           ∀ name, r.2 !! name
             = match (list_to_map allTools : gmap string (list Tool)) !! name with
               | Some ts => GenerateFile name ts
               | None => libs !! name
               end)
    end.
Proof.
  revert libs w. induction allTools as [|[name ts] rest IH]; intros libs w.
  - simpl. intros Hrun. apply ret_inv in Hrun as [-> ->]. simpl.
    split; [done |]. split; [apply quiet_refl |]. split; [| done].
    exists []. split; [done |]. intros n t Hin. by apply elem_of_nil in Hin.
  - cbn [initialize_libs]. destruct (GenerateFile name ts) as [file|] eqn:Hgen.
    + intros Hrun. apply bind_inv in Hrun as (err & w1 & Hwrite & Hk).
      apply WriteFile_inv in Hwrite
        as [Hconns1 [(-> & Hfs1 & Htr1)|(e & -> & Htr1 & Hfr1 & _)]].
      * apply IH in Hk as (Hconns & Hq & Hres).
        split; [congruence |].
        split; [eapply quiet_trans; [by eapply quiet_one | done] |].
        destruct r.1 as [e|].
        -- destruct Hres as (ok & evs & Htr & Hfs).
           exists ok, (evs ++ [EvWriteFile (filepath.Join [libDir; name +:+ ".ts"]) file true])%list.
           split; [by rewrite Htr, Htr1, <- app_assoc | done].
        -- destruct Hres as ((evs & Hext & Hwritten) & Hlibs). split.
           ++ exists (evs ++ [EvWriteFile (filepath.Join [libDir; name +:+ ".ts"]) file true])%list.
              split; [unfold extends_by in *; by rewrite Hext, Htr1, <- app_assoc |].
              intros n t Hin. apply elem_of_cons in Hin as [[= -> ->]|Hin].
              ** exists file. split; [done |]. apply elem_of_app. right. left.
              ** destruct (Hwritten n t Hin) as (f & Hf & Hev).
                 exists f. split; [done |]. apply elem_of_app. by left.
           ++ intros Hnd. simpl in Hnd. apply NoDup_cons in Hnd as [Hnotin Hnd].
              intros n. rewrite (Hlibs Hnd). simpl.
              destruct (decide (name = n)) as [->|Hne].
              ** rewrite (not_elem_of_list_to_map_1 rest n) by done.
                 by rewrite !lookup_insert_eq.
              ** rewrite (lookup_insert_ne (list_to_map rest)) by done.
                 destruct (list_to_map rest !! n); [done |].
                 by rewrite lookup_insert_ne.
      * apply bind_inv in Hk as (r0 & w2 & Hrm & Hk).
        apply ret_inv in Hk as [-> ->]. simpl.
        apply RemoveAll_gone in Hrm as (Hconns2 & ok & Htr2 & Hgone).
        split; [congruence |].
        split; [eapply quiet_trans; by eapply quiet_one |].
        exists ok, [EvWriteFile (filepath.Join [libDir; name +:+ ".ts"]) file false].
        split; [by rewrite Htr2, Htr1 | done].
    + intros Hrun. apply bind_inv in Hrun as (r0 & w2 & Hrm & Hk).
      apply ret_inv in Hk as [-> ->]. simpl.
      apply RemoveAll_gone in Hrm as (Hconns2 & ok & Htr2 & Hgone).
      split; [done |]. split; [by eapply quiet_one |].
      by exists ok, [].
Qed.

(** The loop never leaves the directory when no name has a separator
    in it. *)
Lemma initialize_libs_inside root allTools libs w r w' :
  os.tempdir root →
  Forall filepath.no_separator allTools.*1 →
  initialize_libs root (filepath.Join [root; "lib"]) allTools libs w = (r, w') →
  inside root w w'.
Proof.
  intros Hroot. revert libs w.
  induction allTools as [|[name ts] rest IH]; intros libs w Hnames.
  - simpl. intros Hrun. apply ret_inv in Hrun as [_ ->]. by apply inside_same.
  - simpl in Hnames. apply Forall_cons in Hnames as [Hname Hnames].
    cbn [initialize_libs]. destruct (GenerateFile name ts) as [file|].
    + intros Hrun. apply bind_inv in Hrun as (err & w1 & Hwrite & Hk).
      eapply inside_trans.
      { eapply WriteFile_inside; [| done].
        apply within_lib_file; [done | by apply ts_element]. }
      destruct err.
      * apply bind_inv in Hk as (r0 & w2 & Hrm & Hk).
        apply ret_inv in Hk as [_ ->]. by eapply RemoveAll_inside.
      * by eapply IH.
    + intros Hrun. apply bind_inv in Hrun as (r0 & w2 & Hrm & Hk).
      apply ret_inv in Hk as [_ ->]. by eapply RemoveAll_inside.
Qed.

(** The files the loop leaves on disk when the names of the providers
    are distinct and have no separator in them. *)
Lemma initialize_libs_disk root allTools libs w r w' :
  os.tempdir root →
  Forall filepath.no_separator allTools.*1 → NoDup allTools.*1 →
  initialize_libs root (filepath.Join [root; "lib"]) allTools libs w = (r, w') →
  r.1 = None →
  (∀ p, (∀ name, name ∈ allTools.*1 →
           p ≠ filepath.Join [filepath.Join [root; "lib"]; name +:+ ".ts"]) →
        fs w' !! p = fs w !! p)
  ∧ (∀ name ts, (name, ts) ∈ allTools →
       ∃ file, GenerateFile name ts = Some file
         ∧ fs w' !! filepath.Join [filepath.Join [root; "lib"]; name +:+ ".ts"]
           = Some (File file)).
Proof.
  intros Hroot. revert libs w.
  induction allTools as [|[name ts] rest IH]; intros libs w Hnames Hnd.
  - simpl. intros Hrun _. apply ret_inv in Hrun as [-> ->].
    split; [done |]. intros n t Hin. by apply elem_of_nil in Hin.
  - simpl in Hnames, Hnd. apply Forall_cons in Hnames as [Hname Hnames].
    apply NoDup_cons in Hnd as [Hnotin Hnd].
    cbn [initialize_libs]. destruct (GenerateFile name ts) as [file|] eqn:Hgen.
    2:{ intros Hrun. apply bind_inv in Hrun as (r0 & w2 & _ & Hk).
        by apply ret_inv in Hk as [-> _]. }
    intros Hrun Hok. apply bind_inv in Hrun as (err & w1 & Hwrite & Hk).
    destruct err as [e|].
    { apply bind_inv in Hk as (r0 & w2 & _ & Hk).
      apply ret_inv in Hk as [-> _]. done. }
    apply WriteFile_inv in Hwrite as [_ [(_ & Hfs1 & _)|(e & [=] & _)]].
    destruct (IH _ _ Hnames Hnd Hk Hok) as [Hframe Hdisk]. split.
    + intros p Hp. rewrite Hframe.
      * rewrite Hfs1, lookup_insert_ne; [done |].
        intros <-. apply (Hp name); [simpl; left | done].
      * intros n Hn. apply Hp. by right.
    + intros n t Hin. apply elem_of_cons in Hin as [[= -> ->]|Hin];
        [| by apply Hdisk].
      exists file. split; [done |]. rewrite Hframe.
      * by rewrite Hfs1, lookup_insert_eq.
      * intros n Hn Heq.
        assert (filepath.no_separator n) as Hnn.
        { rewrite Forall_forall in Hnames. by apply Hnames. }
        apply lib_file_inj in Heq; [| done | by apply ts_element..].
        apply ts_inj in Heq. by subst.
Qed.
End BundleDir.

Section Initialize.
Context `{Env}.
Import mcp client session.

(** What [initializeSessionBundleDir] does, whatever the names of the
    providers.  On an error the session is as it was and either no
    directory was created, or the last call is the removal of the
    directory created by this call, after which, when the removal
    succeeded, nothing is left at or below it.  On success the session
    has the bundle directory and the libraries, and every file has
    been written. *)
Lemma initialize_spec m s w r w' :
  initializeSessionBundleDir m s w = (r, w') →
  conns w' = conns w ∧ quiet w w'
  ∧ match r.1 with
    | Some e =>
        r.2 = s
        ∧ ((∃ pattern, trace w' = EvMkdirTemp pattern None :: trace w
                       ∧ fs w' = fs w)
           ∨ (∃ root ok evs pattern,
                trace w'
                = (EvRemoveAll root ok
                   :: evs ++ EvMkdirTemp pattern (Some root) :: trace w)%list
                ∧ fs w !! root = None
                ∧ (ok = true → ∀ p, os.within root p → fs w' !! p = None)
                ∧ ok = io_ok (Nat.pred (clock w'))))
    | None =>
        let s' := r.2 in
        let dir := BundleDir s' in
        SessionID s' = SessionID s ∧ ClientHub s' = ClientHub s
        ∧ CreatedAt s' = CreatedAt s
        ∧ dir ≠ ""
        ∧ (∀ name, Libs s' !! name
             = (clients (ClientHub s) !! name)
                 ≫= λ c, GenerateFile name (GetTools c))
        ∧ ∃ evs, extends_by evs w w'
            ∧ (∀ name c, clients (ClientHub s) !! name = Some c →
                 ∃ file, GenerateFile name (GetTools c) = Some file
                   ∧ EvWriteFile (libPath dir name) file true ∈ evs)
            ∧ EvWriteFile (filepath.Join [dir; "lib"; "mcp-types.ts"])
                GenerateMCPTypesFile true ∈ evs
            ∧ EvWriteFile (filepath.Join [dir; "rspack.config.ts"])
                GetEmbeddedConfig true ∈ evs
    end.
Proof.
  unfold initializeSessionBundleDir. intros Hrun.
  apply bind_inv in Hrun as (r0 & w1 & Hmk & Hk).
  pose proof Hmk as Hmk'.
  apply MkdirTemp_inv in Hmk
    as [Hc1 [(root & -> & Hroot & Hfree & Hfs1 & Htr1)|(e & -> & Hfs1 & Htr1)]];
    [| apply ret_inv in Hk as [-> ->]; simpl;
       split; [done |]; split; [by eapply quiet_one |];
       split; [done |]; left; by eexists].
  apply MkdirTemp_tempdir in Hmk'. rename Hmk' into Htmp.
  assert (quiet w w1) as Hq1 by (by eapply quiet_one).
  (* the library directory *)
  apply bind_inv in Hk as (r1 & w2 & Hlib & Hk).
  apply Mkdir_inv in Hlib as [Hc2 [(-> & Hfs2 & Htr2)|(e & -> & Hfs2 & Htr2)]].
  2:{ apply bind_inv in Hk as (r2 & w3 & Hrm & Hk).
      apply ret_inv in Hk as [-> ->]. simpl.
      apply RemoveAll_gone in Hrm as (Hc3 & ok & Htr3 & Hgone).
      split; [congruence |].
      split; [eapply quiet_trans; [exact Hq1 |];
              eapply quiet_trans; by eapply quiet_one |].
      split; [done |]. right. eexists root, ok, [_], _.
      split; [by rewrite Htr3, Htr2, Htr1 | done]. }
  assert (quiet w w2) as Hq2
    by (eapply quiet_trans; [exact Hq1 | by eapply quiet_one]).
  (* the catalogs *)
  apply bind_inv in Hk as (toolsMap & w3 & Htools & Hk).
  apply Tools_inv in Htools as (Hmap & Hfs3 & Hc3 & Htr3).
  apply bind_inv in Hk as (allTools & w4 & Hrange & Hk).
  apply range_inv in Hrange as (Hperm & Hfs4 & Hc4 & Htr4).
  assert (trace w4 = trace w2) as Htr42 by congruence.
  (* the libraries *)
  apply bind_inv in Hk as (r5 & w5 & Hloop & Hk).
  apply initialize_libs_spec in Hloop as (Hc5 & Hq5 & Hres).
  assert (quiet w w5) as Hq05.
  { eapply quiet_trans; [exact Hq2 |].
    eapply quiet_trans; [by apply quiet_same | exact Hq5]. }
  destruct r5.1 as [e|] eqn:Hr5.
  { apply ret_inv in Hk as [-> ->]. simpl.
    destruct Hres as (ok & evs & Htr5 & Hgone).
    split; [congruence |]. split; [done |]. split; [done |]. right.
    eexists root, ok, (evs ++ [_])%list, _.
    split; [by rewrite Htr5, Htr42, Htr2, Htr1, <- app_assoc | done]. }
  destruct Hres as ((evs5 & Hext5 & Hwritten) & Hlibs).
  (* the shared types *)
  apply bind_inv in Hk as (r6 & w6 & Htypes & Hk).
  apply WriteFile_inv in Htypes
    as [Hc6 [(-> & Hfs6 & Htr6)|(e & -> & Htr6 & Hfr6 & _)]].
  2:{ apply bind_inv in Hk as (r7 & w7 & Hrm & Hk).
      apply ret_inv in Hk as [-> ->]. simpl.
      apply RemoveAll_gone in Hrm as (Hc7 & ok & Htr7 & Hgone).
      split; [congruence |].
      split; [eapply quiet_trans; [exact Hq05 |];
              eapply quiet_trans; by eapply quiet_one |].
      split; [done |]. right.
      eexists root, ok, (_ :: evs5 ++ [_])%list, _.
      split; [| done]. unfold extends_by in Hext5.
      rewrite Htr7, Htr6, Hext5, Htr42, Htr2, Htr1. simpl.
      by rewrite <- app_assoc. }
  (* the bundler configuration *)
  apply bind_inv in Hk as (r7 & w7 & Hcfg & Hk).
  apply WriteFile_inv in Hcfg
    as [Hc7 [(-> & Hfs7 & Htr7)|(e & -> & Htr7 & Hfr7 & _)]].
  2:{ apply bind_inv in Hk as (r8 & w8 & Hrm & Hk).
      apply ret_inv in Hk as [-> ->]. simpl.
      apply RemoveAll_gone in Hrm as (Hc8 & ok & Htr8 & Hgone).
      split; [congruence |].
      split; [eapply quiet_trans; [exact Hq05 |];
              eapply quiet_trans; [by eapply quiet_one |];
              eapply quiet_trans; by eapply quiet_one |].
      split; [done |]. right.
      eexists root, ok, (_ :: _ :: evs5 ++ [_])%list, _.
      split; [| done]. unfold extends_by in Hext5.
      rewrite Htr8, Htr7, Htr6, Hext5, Htr42, Htr2, Htr1. simpl.
      by rewrite <- app_assoc. }
  (* success *)
  apply ret_inv in Hk as [-> ->]. simpl.
  assert (NoDup allTools.*1) as Hnd
    by (rewrite Hperm; apply NoDup_fst_map_to_list).
  assert ((list_to_map allTools : gmap string (list Tool)) = toolsMap) as Hto.
  { rewrite <- (list_to_map_to_list toolsMap). by apply list_to_map_proper. }
  split; [congruence |].
  split; [eapply quiet_trans; [exact Hq05 |];
          eapply quiet_trans; by eapply quiet_one |].
  do 4 (split; [done |]). split.
  { intros name. rewrite (Hlibs Hnd), Hto, Hmap, lookup_empty.
    by destruct (clients (ClientHub s) !! name). }
  exists (EvWriteFile (filepath.Join [root; "rspack.config.ts"])
            GetEmbeddedConfig true
          :: EvWriteFile (filepath.Join [filepath.Join [root; "lib"];
                                         "mcp-types.ts"])
               GenerateMCPTypesFile true
          :: evs5 ++ [EvMkdir (filepath.Join [root; "lib"]) true;
                      EvMkdirTemp ("codebraid-" +:+ SessionID s +:+ "-")
                        (Some root)])%list.
  split.
  { unfold extends_by in *. rewrite Htr7, Htr6, Hext5, Htr42, Htr2, Htr1.
    simpl. by rewrite <- app_assoc. }
  split.
  { intros name c Hc.
    assert ((name, GetTools c) ∈ allTools) as Hin.
    { rewrite Hperm. apply elem_of_map_to_list. by rewrite Hmap, Hc. }
    destruct (Hwritten _ _ Hin) as (file & Hgen & Hev).
    exists file. split; [done |]. rewrite <- libPath_Join by done.
    do 2 right. apply elem_of_app. by left. }
  split.
  { rewrite <- mcp_types_path by done. right. left. }
  left.
Qed.

(** What [initializeSessionBundleDir] does to the file system when no
    provider name has a separator in it: it stays in the directory it
    makes. *)
Lemma initialize_frame m s w r w' :
  (∀ name, is_Some (clients (ClientHub s) !! name) →
           filepath.no_separator name) →
  initializeSessionBundleDir m s w = (r, w') →
  (is_Some r.1 ∧ fs w' = fs w
   ∧ trace w'
     = EvMkdirTemp ("codebraid-" +:+ SessionID s +:+ "-") None :: trace w)
  ∨ ∃ root w1,
      trace w1
      = EvMkdirTemp ("codebraid-" +:+ SessionID s +:+ "-") (Some root)
          :: trace w
      ∧ fs w1 = <[root := Dir]> (fs w)
      ∧ fs w !! root = None
      ∧ inside root w1 w'
      ∧ (r.1 = None → BundleDir r.2 = root).
Proof.
  intros Hnames. unfold initializeSessionBundleDir. intros Hrun.
  apply bind_inv in Hrun as (r0 & w1 & Hmk & Hk).
  pose proof Hmk as Hmk'.
  apply MkdirTemp_inv in Hmk
    as [_ [(root & -> & _ & Hfresh & Hfs1 & Htr1)|(e & -> & Hfs & Htr)]].
  2: { apply ret_inv in Hk as [-> ->]. left. simpl. eauto. }
  apply MkdirTemp_tempdir in Hmk'. rename Hmk' into Htmp.
  right. exists root, w1. do 3 (split; [done |]).
  apply bind_inv in Hk as (err & w2 & Hdir & Hk).
  assert (inside root w1 w2) as H12
    by (eapply Mkdir_inside; [by apply within_lib | done]).
  destruct err as [e|].
  { apply bind_inv in Hk as (? & w3 & Hrm & Hk). apply ret_inv in Hk as [-> ->].
    split; [| done]. eapply inside_trans; [done |]. by eapply RemoveAll_inside. }
  apply bind_inv in Hk as (all & w3 & Htools & Hk).
  apply Tools_inv in Htools as (Hmap & Hfs3 & _ & Htr3).
  apply bind_inv in Hk as (l & w4 & Hrange & Hk).
  apply range_inv in Hrange as (Hperm & Hfs4 & _ & Htr4).
  assert (Forall filepath.no_separator l.*1) as Hl.
  { apply Forall_forall. intros name Hin.
    apply list_elem_of_fmap in Hin as ([n ts] & -> & Hin).
    rewrite Hperm in Hin. apply elem_of_map_to_list in Hin.
    rewrite Hmap in Hin. apply Hnames. simpl.
    by destruct (clients (ClientHub s) !! n). }
  apply bind_inv in Hk as ([e libs] & w5 & Hlibs & Hk). cbn [fst snd] in Hk.
  assert (inside root w1 w5) as H15.
  { eapply inside_trans; [done |].
    eapply inside_trans; [by apply inside_same |].
    eapply inside_trans; [by apply inside_same |].
    by eapply initialize_libs_inside. }
  destruct e as [e|].
  { apply ret_inv in Hk as [-> ->]. by split. }
  apply bind_inv in Hk as (err & w6 & Htypes & Hk).
  assert (inside root w1 w6) as H16.
  { eapply inside_trans; [done |].
    eapply WriteFile_inside; [| done].
    apply within_lib_file; [done | apply mcp_types_element]. }
  destruct err as [e|].
  { apply bind_inv in Hk as (? & w7 & Hrm & Hk). apply ret_inv in Hk as [-> ->].
    split; [| done]. eapply inside_trans; [done |]. by eapply RemoveAll_inside. }
  apply bind_inv in Hk as (err & w7 & Hrspack & Hk).
  assert (inside root w1 w7) as H17.
  { eapply inside_trans; [done |].
    eapply WriteFile_inside; [by apply within_rspack | done]. }
  destruct err as [e|].
  { apply bind_inv in Hk as (? & w8 & Hrm & Hk). apply ret_inv in Hk as [-> ->].
    split; [| done]. eapply inside_trans; [done |]. by eapply RemoveAll_inside. }
  apply ret_inv in Hk as [-> ->]. by split.
Qed.

(** What a successful [initializeSessionBundleDir] leaves on disk when
    no provider name has a separator in it. *)
Lemma initialize_disk m s w s' w' :
  (∀ name, is_Some (clients (ClientHub s) !! name) →
           filepath.no_separator name) →
  initializeSessionBundleDir m s w = ((None, s'), w') →
  let dir := BundleDir s' in
  fs w' !! dir = Some Dir
  ∧ fs w' !! filepath.Join [dir; "lib"] = Some Dir
  ∧ (∀ name c, clients (ClientHub s) !! name = Some c →
       ∃ file, GenerateFile name (GetTools c) = Some file
         ∧ (name ≠ "mcp-types" →
            fs w' !! libPath dir name = Some (File file)))
  ∧ fs w' !! filepath.Join [dir; "lib"; "mcp-types.ts"]
    = Some (File GenerateMCPTypesFile)
  ∧ fs w' !! filepath.Join [dir; "rspack.config.ts"]
    = Some (File GetEmbeddedConfig).
Proof.
  intros Hnames. unfold initializeSessionBundleDir. intros Hrun.
  apply bind_inv in Hrun as (r0 & w1 & Hmk & Hk).
  pose proof Hmk as Hmk'.
  apply MkdirTemp_inv in Hmk
    as [_ [(root & -> & _ & _ & Hfs1 & _)|(e & -> & _)]];
    [| by apply ret_inv in Hk as [[=] _]].
  apply MkdirTemp_tempdir in Hmk'. rename Hmk' into Htmp.
  apply bind_inv in Hk as (r1 & w2 & Hlib & Hk).
  apply Mkdir_inv in Hlib as [_ [(-> & Hfs2 & _)|(e & -> & _)]].
  2:{ apply bind_inv in Hk as (r2 & w3 & _ & Hk).
      by apply ret_inv in Hk as [[=] _]. }
  apply bind_inv in Hk as (toolsMap & w3 & Htools & Hk).
  apply Tools_inv in Htools as (Hmap & Hfs3 & _ & _).
  apply bind_inv in Hk as (allTools & w4 & Hrange & Hk).
  apply range_inv in Hrange as (Hperm & Hfs4 & _ & _).
  assert (fs w4 = fs w2) as Hfs42 by congruence.
  assert (NoDup allTools.*1) as Hnd
    by (rewrite Hperm; apply NoDup_fst_map_to_list).
  assert (Forall filepath.no_separator allTools.*1) as Hl.
  { apply Forall_forall. intros name Hin.
    apply list_elem_of_fmap in Hin as ([n ts] & -> & Hin).
    rewrite Hperm in Hin. apply elem_of_map_to_list in Hin.
    rewrite Hmap in Hin. apply Hnames. simpl.
    by destruct (clients (ClientHub s) !! n). }
  apply bind_inv in Hk as ([e libs] & w5 & Hloop & Hk). cbn [fst snd] in Hk.
  destruct e as [e|]; [by apply ret_inv in Hk as [[=] _] |].
  destruct (initialize_libs_disk _ _ _ _ _ _ Htmp Hl Hnd Hloop eq_refl)
    as [Hframe5 Hdisk].
  assert (∀ name, name ∈ allTools.*1 →
                  filepath.element (name +:+ ".ts")) as Hel.
  { intros name Hin. apply ts_element. rewrite Forall_forall in Hl.
    by apply Hl. }
  apply bind_inv in Hk as (r6 & w6 & Htypes & Hk).
  apply WriteFile_inv in Htypes as [_ [(-> & Hfs6 & _)|(e & -> & _)]].
  2:{ apply bind_inv in Hk as (r7 & w7 & _ & Hk).
      by apply ret_inv in Hk as [[=] _]. }
  apply bind_inv in Hk as (r7 & w7 & Hcfg & Hk).
  apply WriteFile_inv in Hcfg as [_ [(-> & Hfs7 & _)|(e & -> & _)]].
  2:{ apply bind_inv in Hk as (r8 & w8 & _ & Hk).
      by apply ret_inv in Hk as [[=] _]. }
  apply ret_inv in Hk as [[= ->] ->]. simpl.
  split; [| split; [| split; [| split]]].
  - rewrite Hfs7, lookup_insert_ne
      by (rewrite Join_rspack by done; apply not_eq_sym, root_ne_below).
    rewrite Hfs6, lookup_insert_ne
      by (apply not_eq_sym, root_ne_lib_file;
          [done | apply mcp_types_element]).
    rewrite Hframe5 by (intros; apply root_ne_lib_file; auto).
    rewrite Hfs42, Hfs2, lookup_insert_ne
      by (rewrite Join_lib by done; apply not_eq_sym, root_ne_below).
    by rewrite Hfs1, lookup_insert_eq.
  - rewrite Hfs7, lookup_insert_ne by (by apply not_eq_sym, lib_ne_rspack).
    rewrite Hfs6, lookup_insert_ne
      by (apply not_eq_sym, lib_ne_lib_file;
          [done | apply mcp_types_element]).
    rewrite Hframe5 by (intros; apply lib_ne_lib_file; auto).
    by rewrite Hfs42, Hfs2, lookup_insert_eq.
  - intros name c Hc.
    assert ((name, GetTools c) ∈ allTools) as Hin.
    { rewrite Hperm. apply elem_of_map_to_list. by rewrite Hmap, Hc. }
    assert (filepath.element (name +:+ ".ts")) as Hname.
    { apply Hel. apply list_elem_of_fmap. by exists (name, GetTools c). }
    destruct (Hdisk _ _ Hin) as (file & Hgen & Hfile).
    exists file. split; [done |]. intros Hne.
    rewrite <- libPath_Join by done.
    rewrite Hfs7, lookup_insert_ne
      by (by apply not_eq_sym, lib_file_ne_rspack).
    rewrite Hfs6, lookup_insert_ne; [done |].
    intros Heq.
    apply lib_file_inj in Heq; [| done | apply mcp_types_element | done].
    apply (ts_inj "mcp-types" name) in Heq. by subst.
  - rewrite <- mcp_types_path by done.
    rewrite Hfs7, lookup_insert_ne
      by (apply not_eq_sym, lib_file_ne_rspack;
          [done | apply mcp_types_element]).
    by rewrite Hfs6, lookup_insert_eq.
  - by rewrite Hfs7, lookup_insert_eq.
Qed.
End Initialize.

(** ** Creating a session *)

Section Create.
Context `{Env}.
Import mcp client session.


(** The part of [GetOrCreateSession] under the write lock: a session
    that is there is returned and nothing happens; otherwise one hub is
    built, and the registry is left as it was on an error and gains the
    fully built session on success. *)
Lemma GetOrCreateSession_locked_spec m sessionID w r m' w' :
  GetOrCreateSession_locked m sessionID w = ((r, m'), w') →
  match sessions m !! sessionID with
  | Some s => r = inr s ∧ m' = m ∧ w' = w
  | None =>
      builds (trace w') = S (builds (trace w)) ∧ extends w w'
      ∧ match r with
        | inl e => m' = m
        | inr s =>
            m' = set_sessions m (<[sessionID := s]> (sessions m))
            ∧ SessionID s = sessionID
            ∧ fully_built (config m) s w'
        end
  end.
Proof.
  unfold GetOrCreateSession_locked.
  destruct (sessions m !! sessionID) as [s|] eqn:Hlook.
  { intros Hrun. by apply ret_inv in Hrun as [[= -> ->] ->]. }
  intros Hrun. apply bind_inv in Hrun as (hub & w1 & Hnew & Hk).
  apply NewMcpClientHub_inv in Hnew as (-> & Hfs1 & Hc1 & Htr1).
  apply bind_inv in Hk as (rc & w2 & Hconn & Hk).
  destruct rc as [cerr hub]. cbn [fst snd] in Hk.
  apply Connect_spec in Hconn as (Haddr & Href & Hfs2 & Hq2 & Hsub2 & Hcl & Hdom).
  assert (builds (trace w2) = S (builds (trace w))) as Hb2.
  { rewrite (quiet_builds _ _ Hq2), Htr1. done. }
  assert (extends w w2) as He2.
  { eapply extends_trans; [| by apply quiet_extends].
    exists [EvNewHub (clock w)]. done. }
  destruct cerr as [cerr|].
  { apply ret_inv in Hk as [[= -> ->] ->]. done. }
  apply bind_inv in Hk as (s0 & w3 & Hsess & Hk).
  unfold NewSessionContext in Hsess.
  apply bind_inv in Hsess as (now & w3' & Hnow & Hsess).
  apply ret_inv in Hsess as [-> ->].
  apply Now_inv in Hnow as (Hfs3 & Hc3 & Htr3).
  apply bind_inv in Hk as (ri & w4 & Hinit & Hk).
  pose proof (initialize_spec _ _ _ _ _ Hinit) as (Hc4 & Hq4 & Hres).
  assert (builds (trace w4) = S (builds (trace w))) as Hb4.
  { rewrite (quiet_builds _ _ Hq4), Htr3. done. }
  assert (extends w w4) as He4.
  { eapply extends_trans; [exact He2 |].
    eapply extends_trans; [| by apply quiet_extends]. by exists []. }
  destruct ri as [ierr s1]. cbn [fst snd] in *.
  destruct ierr as [ierr|].
  { apply bind_inv in Hk as (rclose & w5 & Hclose & Hk).
    apply ret_inv in Hk as [[= -> ->] ->].
    apply Close_quiet in Hclose.
    rewrite (quiet_builds _ _ Hclose).
    split; [done |]. split; [| done].
    eapply extends_trans; [exact He4 | by apply quiet_extends]. }
  apply ret_inv in Hk as [[= -> ->] ->].
  split; [done |]. split; [done |]. split; [done |].
  destruct Hres as (Hid & Hhub & Hcreated & Hdir & Hlibs
                    & evs & Hext & Hwritten & Htypes & Hcfg).
  simpl in Hid, Hhub, Hlibs, Hwritten. split; [done |].
  assert (∀ e, e ∈ evs → e ∈ trace w4) as Hin4.
  { intros e He. unfold extends_by in Hext. rewrite Hext.
    apply elem_of_app. by left. }
  unfold fully_built. simpl.
  split.
  { rewrite (Hdom eq_refl). simpl. by rewrite dom_empty_L, union_empty_l_L. }
  split.
  { intros name c Hc. rewrite Hc4, Hc3.
    destruct (Hcl name c Hc) as [Hold|Hin]; [| done].
    simpl in Hold. by rewrite lookup_empty in Hold. }
  do 3 (split; [done |]). split.
  { intros name c Hc. destruct (Hwritten name c Hc) as (file & Hgen & Hev).
    exists file. split; [done | by apply Hin4]. }
  split; [by apply Hin4 |]. split; [by apply Hin4 |].
  intros Hnames.
  by apply (initialize_disk m (mkSessionContext sessionID hub ∅ "" now now)
              _ _ _ Hnames Hinit).
Qed.

(** Whenever the construction fails in [Connect], [GetOrCreateSession]
    returns without another call: the hub is built and providers are
    dialled, nothing is closed, and the connections that were opened
    stay open. *)
Lemma connect_failure_closes_nothing m sessionID w cause m' w' :
  GetOrCreateSession m sessionID w
  = ((inl (Errorf "failed to connect client hub: %w" [] [cause]), m'), w') →
  conns w ⊆ conns w'
  ∧ ∃ evs, extends_by evs w w'
      ∧ ∀ e, e ∈ evs → (∃ a, e = EvNewHub a) ∨ (∃ name res, e = EvDial name res).
Proof.
  unfold GetOrCreateSession, GetOrCreateSession_locked.
  destruct (sessions m !! sessionID) as [s|]; [by intros [=] |].
  intros Hrun. apply bind_inv in Hrun as (hub & w1 & Hnew & Hk).
  apply NewMcpClientHub_inv in Hnew as (-> & _ & Hc1 & Htr1).
  apply bind_inv in Hk as (rc & w2 & Hconn & Hk).
  destruct rc as [cerr hub]. cbn [fst snd] in Hk.
  pose proof (Connect_dials _ _ _ _ _ Hconn) as (evs & Hext & Hall).
  apply Connect_spec in Hconn as (_ & _ & _ & _ & Hsub & _).
  destruct cerr as [cerr|].
  - apply ret_inv in Hk as [_ ->]. split; [by rewrite <- Hc1 |].
    exists (evs ++ [EvNewHub (clock w)])%list. unfold extends_by in *.
    rewrite Hext, Htr1, <- app_assoc. split; [done |].
    intros e He. apply elem_of_app in He as [He|He]; [right; by apply Hall |].
    apply list_elem_of_singleton in He as ->. left. eauto.
  - apply bind_inv in Hk as (s0 & w3 & _ & Hk).
    apply bind_inv in Hk as (ri & w4 & _ & Hk).
    destruct ri.1.
    + apply bind_inv in Hk as (rclose & w5 & _ & Hk).
      by apply ret_inv in Hk as [[=] _].
    + by apply ret_inv in Hk as [[=] _].
Qed.

End Create.

(** ** Closing sessions *)

Section Teardown.
Context `{Env}.
Import mcp client session.

Lemma cleanBundleDir_spec s w u w' :
  cleanBundleDir s w = (u, w') →
  conns w' = conns w
  ∧ ∃ evs, extends_by evs w w' ∧ builds evs = 0
      ∧ (BundleDir s ≠ "" →
         ∃ ok, EvRemoveAll (BundleDir s) ok ∈ evs
           ∧ (ok = true → ∀ p, os.within (BundleDir s) p → fs w' !! p = None)).
Proof.
  unfold cleanBundleDir. case_decide as Hdir.
  - intros Hrun. apply bind_inv in Hrun as (r & w1 & Hrm & Hk).
    apply RemoveAll_inv in Hrm as (Hc1 & ok & Htr1 & Hok & Hfs1 & _).
    destruct r as [e|].
    + apply Printf_inv in Hk as (Hfs2 & Hc2 & Htr2).
      split; [congruence |]. eexists [_; _]. unfold extends_by.
      rewrite Htr2, Htr1. repeat split; try done.
      intros _. exists ok. split; [right; left |].
      intros ->. by destruct Hok as [_ Hok]; specialize (Hok eq_refl).
    + apply ret_inv in Hk as [_ ->]. split; [done |].
      eexists [_]. unfold extends_by. rewrite Htr1. repeat split; try done.
      intros _. exists ok. split; [left |].
      intros Hok' p Hp. rewrite (Hfs1 Hok'), removed_lookup. by case_decide.
  - intros Hrun. apply ret_inv in Hrun as [_ ->]. split; [done |].
    exists []. by repeat split.
Qed.

Lemma extends_by_extends evs w w' : extends_by evs w w' → extends w w'.
Proof. intros Hext. by exists evs. Qed.

(** Calls made between two worlds of a run are calls of the run. *)
Lemma extends_between (w w1 w2 w' : World) (mid evs : list event) (e : event) :
  extends w w1 → extends_by mid w1 w2 → extends w2 w' →
  extends_by evs w w' → e ∈ mid → e ∈ evs.
Proof.
  intros [e1 H1] Hmid [e2 H2] Hevs Hin. unfold extends_by in *.
  rewrite H2, Hmid, H1, !app_assoc in Hevs.
  apply app_inv_tail in Hevs as <-.
  apply elem_of_app. left. apply elem_of_app. by right.
Qed.

(** The loop of [CloseAll]: each session is closed and its bundle
    directory removed, whatever the outcome for the sessions before;
    [new] are the errors the loop adds. *)
Lemma CloseAll_loop_spec ss errs w errs' w' :
  NoDup ss.*1 →
  CloseAll_loop ss errs w = (errs', w') →
  extends w w'
  ∧ ∃ new, errs' = (errs ++ new)%list
      ∧ (∀ x, x ∈ new →
           ∃ id cause, id ∈ ss.*1 ∧ x = Errorf "session %q: %w" [id] [cause])
      ∧ (∀ id s, (id, s) ∈ ss →
           ∃ w1 err w2 w3,
             extends w w1 ∧ Close (ClientHub s) w1 = (err, w2)
             ∧ cleanBundleDir s w2 = (tt, w3) ∧ extends w3 w'
             ∧ (∀ cause, err = Some cause
                         ↔ Errorf "session %q: %w" [id] [cause] ∈ new)).
Proof.
  revert errs w. induction ss as [|[id s] rest IH]; intros errs w Hnd.
  - simpl. intros Hrun. apply ret_inv in Hrun as [-> ->].
    split; [done |]. exists []. rewrite app_nil_r. repeat split; try done.
    + intros x Hx. by apply elem_of_nil in Hx.
    + intros i s Hin. by apply elem_of_nil in Hin.
  - simpl in Hnd. apply NoDup_cons in Hnd as [Hnotin Hnd].
    cbn [CloseAll_loop]. intros Hrun.
    apply bind_inv in Hrun as (err & w1 & Hclose & Hk).
    apply bind_inv in Hk as (u & w2 & Hclean & Hk). destruct u.
    pose proof (quiet_extends _ _ (Close_quiet _ _ _ _ Hclose)) as He1.
    destruct (cleanBundleDir_spec _ _ _ _ Hclean) as (_ & evs2 & He2 & _).
    apply extends_by_extends in He2.
    apply (IH _ _ Hnd) in Hk as (He3 & new & Herrs & Hshape & Hall).
    split; [eauto using extends_trans |].
    set (mine := match err with
                 | Some e => [Errorf "session %q: %w" [id] [e]]
                 | None => []
                 end).
    assert (∀ cause, Errorf "session %q: %w" [id] [cause] ∉ new) as Hfresh.
    { intros cause Hin. destruct (Hshape _ Hin) as (id' & c' & Hid' & Heq).
      injection Heq as -> _. done. }
    exists (mine ++ new)%list. split.
    { rewrite Herrs. subst mine. destruct err; [by rewrite <- app_assoc | done]. }
    split.
    { intros x Hx. apply elem_of_app in Hx as [Hx|Hx].
      - subst mine. destruct err as [e|]; [| by apply elem_of_nil in Hx].
        apply list_elem_of_singleton in Hx as ->.
        exists id, e. split; [simpl; left | done].
      - destruct (Hshape _ Hx) as (id' & c' & Hid' & ->).
        exists id', c'. split; [simpl; by right | done]. }
    intros id' s' Hin. apply elem_of_cons in Hin as [[= -> ->]|Hin].
    + exists w, err, w1, w2. repeat split; try done.
      * intros ->. apply elem_of_app. left. subst mine. left.
      * intros Hin. apply elem_of_app in Hin as [Hin|Hin];
          [| by destruct (Hfresh _ Hin)].
        subst mine. destruct err as [e|]; [| by apply elem_of_nil in Hin].
        apply list_elem_of_singleton in Hin. by injection Hin as ->.
    + destruct (Hall _ _ Hin) as (wa & erra & wb & wc & Hea & Hca & Hcl & Hec & Hiff).
      exists wa, erra, wb, wc. repeat split; try done.
      * eauto using extends_trans.
      * intros Hsome. apply elem_of_app. right. by apply Hiff.
      * intros Hin'. apply Hiff. apply elem_of_app in Hin' as [Hin'|Hin']; [| done].
        subst mine. destruct err as [e|]; [| by apply elem_of_nil in Hin'].
        apply list_elem_of_singleton in Hin'. injection Hin' as -> _.
        destruct Hnotin. apply list_elem_of_fmap. by exists (id, s').
Qed.

(** Whenever the hub of the session fails to close, [DeleteSession]
    returns without another call: the registry is as it was, the file
    system is untouched, and nothing but the closing of the
    connections was attempted. *)
Lemma delete_close_failure_keeps_session m sessionID w cause m' w' :
  DeleteSession m sessionID w
  = ((Some (Errorf "failed to close client hub: %w" [] [cause]), m'), w') →
  m' = m ∧ fs w' = fs w
  ∧ ∃ evs, extends_by evs w w' ∧ ∀ e, e ∈ evs → ∃ h ok, e = EvClose h ok.
Proof.
  unfold DeleteSession.
  destruct (sessions m !! sessionID) as [s|]; [| by intros [=]].
  intros Hrun. apply bind_inv in Hrun as (err & w1 & Hclose & Hk).
  apply Close_spec in Hclose as (Hfs & _ & evs & Hext & _ & _ & Honly & _).
  destruct err as [e|].
  - apply ret_inv in Hk as [[= -> ->] ->]. split; [done |]. split; [done |].
    exists evs. split; [done |]. intros ev Hev.
    destruct (Honly ev Hev) as (n & c & ok & _ & ->). eauto.
  - apply bind_inv in Hk as (u & w2 & _ & Hk). by apply ret_inv in Hk as [[=] _].
Qed.

(** C8, as amended. [CloseAll] leaves the registry empty.  For every
    session that was registered, the hub is closed (a close is
    attempted on every connection of the hub) and, when the session has
    a bundle directory, its removal is attempted, whatever happened to
    the sessions before.  The returned error is nil when no hub close
    failed; otherwise it collects one error per session whose hub close
    failed, naming that session.  A failed removal of a bundle
    directory is not part of the returned error. *)
Theorem CloseAll_cleans_every_session (m : Manager) (w : World)
    (r : option error) (m' : Manager) (w' : World) :
  CloseAll m w = ((r, m'), w') →
  sessions m' = ∅ ∧ config m' = config m
  ∧ ∃ errs evs,
      extends_by evs w w'
      ∧ r = match errs with
            | [] => None
            | _ => Some (Errorf "errors closing sessions: %v" [] errs)
            end
      ∧ (∀ x, x ∈ errs →
           ∃ id cause, is_Some (sessions m !! id)
                       ∧ x = Errorf "session %q: %w" [id] [cause])
      ∧ ∀ id s, sessions m !! id = Some s →
          (∀ name c, clients (ClientHub s) !! name = Some c →
                     ∃ ok, EvClose (handle c) ok ∈ evs)
          ∧ (BundleDir s ≠ "" → ∃ ok, EvRemoveAll (BundleDir s) ok ∈ evs)
          ∧ ∃ w1 err w2,
              extends w w1 ∧ extends w2 w'
              ∧ Close (ClientHub s) w1 = (err, w2)
              ∧ (∀ cause, err = Some cause
                          ↔ Errorf "session %q: %w" [id] [cause] ∈ errs).
Proof.
  unfold CloseAll. intros Hrun.
  apply bind_inv in Hrun as (ss & w1 & Hrange & Hk).
  apply bind_inv in Hk as (errs & w2 & Hloop & Hk).
  apply range_inv in Hrange as (Hperm & _ & _ & Htr1).
  assert (NoDup ss.*1) as Hnd by (rewrite Hperm; apply NoDup_fst_map_to_list).
  apply (CloseAll_loop_spec _ _ _ _ _ Hnd) in Hloop
    as ([evs Hevs] & new & Hnew & Hshape & Hall).
  simpl in Hnew. subst errs.
  assert (extends w w1) as He01 by (exists []; done).
  assert ((r, m') = (match new with
                     | [] => None
                     | _ => Some (Errorf "errors closing sessions: %v" [] new)
                     end, set_sessions m ∅) ∧ w' = w2) as [[= -> ->] ->].
  { case_decide as Hlen; apply ret_inv in Hk as [-> ->]; split; try done.
    - destruct new; [simpl in Hlen; lia | done].
    - destruct new; [done | simpl in Hlen; lia]. }
  split; [done |]. split; [done |].
  exists new, evs. split; [unfold extends_by in *; congruence |].
  split; [done |]. split.
  { intros x Hx. destruct (Hshape _ Hx) as (id & cause & Hid & ->).
    exists id, cause. split; [| done].
    apply list_elem_of_fmap in Hid as ([id' s] & -> & Hin).
    rewrite Hperm in Hin. apply elem_of_map_to_list in Hin. by exists s. }
  intros id s Hs.
  assert ((id, s) ∈ ss) as Hin by (rewrite Hperm; by apply elem_of_map_to_list).
  destruct (Hall _ _ Hin) as (wa & err & wb & wc & Hea & Hclose & Hclean & Hec & Hiff).
  assert (extends_by evs w w2) as Hevs' by (unfold extends_by in *; congruence).
  assert (extends w wa) as He0a by eauto using extends_trans.
  destruct (Close_spec _ _ _ _ Hclose) as (_ & _ & evc & Hextc & _ & Hattempt & _).
  destruct (cleanBundleDir_spec _ _ _ _ Hclean) as (_ & evr & Hextr & _ & Hrm).
  split; [| split].
  - intros name c Hc. destruct (Hattempt _ _ Hc) as [ok Hok]. exists ok.
    eapply (extends_between w wa wb w2); eauto.
    eapply extends_trans; [by eapply extends_by_extends | done].
  - intros Hdir. destruct (Hrm Hdir) as (ok & Hok & _). exists ok.
    eapply (extends_between w wb wc w2); eauto.
    eapply extends_trans; [exact He0a | by eapply extends_by_extends].
  - exists wa, err, wb. repeat split; try done; try apply Hiff.
    eapply extends_trans; [by eapply extends_by_extends | done].
Qed.
End Teardown.

(** ** Concurrent first access *)

Section Concurrent.
Context `{Env}.
Import mcp client session concurrent.

Lemma failures_insert (cs : list caller) (i : nat) (c c' : caller) :
  cs !! i = Some c →
  failures (<[i := c']> cs) + (if failed c then 1 else 0)
  = failures cs + (if failed c' then 1 else 0).
Proof.
  revert i. induction cs as [|c0 cs IH]; intros [|i] Hi; simpl in *; try done.
  - injection Hi as ->. lia.
  - specialize (IH i Hi). lia.
Qed.

Lemma failures_replicate (n : nat) : failures (replicate n Start) = 0.
Proof. induction n as [|n IH]; simpl; auto. Qed.

Lemma init_consistent m w n sessionID :
  sessions m !! sessionID = None → consistent sessionID w (init m w n).
Proof.
  intros Hnone. split; simpl.
  - intros i s Hi. apply lookup_replicate in Hi as [[=] _].
  - rewrite Hnone, failures_replicate. lia.
Qed.

Lemma step_consistent sessionID w0 sys i :
  consistent sessionID w0 sys → consistent sessionID w0 (step sessionID sys i).
Proof.
  intros [Hret Hcount]. unfold step.
  destruct (callers sys !! i) as [[| |r]|] eqn:Hi; [| | done | done].
  - (* the lookup under the read lock *)
    destruct (sessions (manager sys) !! sessionID) as [s|] eqn:Hlook.
    + split; simpl.
      * intros j s' Hj. rewrite Hlook.
        destruct (decide (i = j)) as [->|Hne].
        -- rewrite list_lookup_insert_eq in Hj by (by eapply lookup_lt_Some).
           by injection Hj as ->.
        -- rewrite list_lookup_insert_ne in Hj by done. by eapply Hret.
      * pose proof (failures_insert _ _ _ (Returned (inr s)) Hi) as Hf.
        simpl in Hf. rewrite Hlook. lia.
    + split; simpl.
      * intros j s' Hj. rewrite Hlook.
        destruct (decide (i = j)) as [->|Hne].
        -- by rewrite list_lookup_insert_eq in Hj by (by eapply lookup_lt_Some).
        -- rewrite list_lookup_insert_ne in Hj by done. by eapply Hret.
      * pose proof (failures_insert _ _ _ Waiting Hi) as Hf.
        simpl in Hf. rewrite Hlook. lia.
  - (* the section under the write lock *)
    destruct (GetOrCreateSession_locked (manager sys) sessionID (world sys))
      as [[r m'] w'] eqn:Hrun.
    apply GetOrCreateSession_locked_spec in Hrun. cbn [fst snd].
    pose proof (failures_insert _ _ _ (Returned r) Hi) as Hf. simpl in Hf.
    destruct (sessions (manager sys) !! sessionID) as [s|] eqn:Hlook.
    + destruct Hrun as (-> & -> & ->). split; simpl.
      * intros j s' Hj. rewrite Hlook.
        destruct (decide (i = j)) as [->|Hne].
        -- rewrite list_lookup_insert_eq in Hj by (by eapply lookup_lt_Some).
           by injection Hj as ->.
        -- rewrite list_lookup_insert_ne in Hj by done. by eapply Hret.
      * rewrite Hlook. lia.
    + destruct Hrun as (Hb & _ & Hres). destruct r as [e|s].
      * subst m'. split; simpl.
        -- intros j s' Hj. rewrite Hlook.
           destruct (decide (i = j)) as [->|Hne].
           ++ by rewrite list_lookup_insert_eq in Hj by (by eapply lookup_lt_Some).
           ++ rewrite list_lookup_insert_ne in Hj by done. by eapply Hret.
        -- rewrite Hlook, Hb. lia.
      * destruct Hres as (-> & _ & _). split; simpl.
        -- intros j s' Hj. rewrite lookup_insert_eq.
           destruct (decide (i = j)) as [->|Hne].
           ++ rewrite list_lookup_insert_eq in Hj by (by eapply lookup_lt_Some).
              by injection Hj as ->.
           ++ rewrite list_lookup_insert_ne in Hj by done.
              by pose proof (Hret _ _ Hj).
        -- rewrite lookup_insert_eq, Hb. lia.
Qed.

Lemma run_consistent sessionID w0 schedule sys :
  consistent sessionID w0 sys → consistent sessionID w0 (run sessionID schedule sys).
Proof.
  revert sys. induction schedule as [|i rest IH]; intros sys Hc; [done |].
  apply IH. by apply step_consistent.
Qed.

Lemma step_length sessionID sys i :
  length (callers (step sessionID sys i)) = length (callers sys).
Proof.
  unfold step. destruct (callers sys !! i) as [[| |r]|]; try done.
  - destruct (sessions (manager sys) !! sessionID); simpl;
      by rewrite length_insert.
  - simpl. by rewrite length_insert.
Qed.

Lemma step_rank sessionID sys i j :
  (j < length (callers sys))%nat →
  (Nat.min 2 (rank (callers sys !! j) + (if decide (i = j) then 1 else 0))
   ≤ rank (callers (step sessionID sys i) !! j))%nat.
Proof.
  intros Hj. unfold step.
  destruct (decide (i = j)) as [->|Hne].
  - destruct (callers sys !! j) as [[| |r]|] eqn:Hlook.
    + destruct (sessions (manager sys) !! sessionID); cbn [callers];
        rewrite list_lookup_insert_eq by done; cbn [rank]; lia.
    + cbn [callers]. rewrite list_lookup_insert_eq by done. cbn [rank]. lia.
    + rewrite Hlook. cbn [rank]. lia.
    + apply lookup_ge_None in Hlook. lia.
  - destruct (callers sys !! i) as [[| |r]|] eqn:Hlook; try lia.
    + destruct (sessions (manager sys) !! sessionID); cbn [callers];
        rewrite list_lookup_insert_ne by done; lia.
    + cbn [callers]. rewrite list_lookup_insert_ne by done. lia.
Qed.

Lemma run_rank sessionID schedule sys j :
  (j < length (callers sys))%nat →
  (Nat.min 2 (rank (callers sys !! j) + count_occ Nat.eq_dec schedule j)
   ≤ rank (callers (run sessionID schedule sys) !! j))%nat.
Proof.
  revert sys. induction schedule as [|i rest IH]; intros sys Hj.
  - cbn [run foldl count_occ]. lia.
  - cbn [run foldl]. fold (run sessionID rest (step sessionID sys i)).
    specialize (IH (step sessionID sys i)).
    rewrite step_length in IH. specialize (IH Hj).
    pose proof (step_rank sessionID sys i j Hj) as Hstep.
    cbn [count_occ]. destruct (Nat.eq_dec i j) as [->|Hne].
    + rewrite decide_True in Hstep by done. lia.
    + rewrite decide_False in Hstep by done. lia.
Qed.

(** C4, as amended. Callers of [GetOrCreateSession] for one unknown
    identifier, interleaved in any way: every caller that has taken its
    two steps has returned; all sessions handed out are one and the
    same session, the one in the registry; and the connect-and-build
    sequences that ran are one for each caller that got an error, plus
    one when a session was registered.  So at most one sequence
    succeeds, and a caller that fails has run a sequence of its own. *)
Theorem concurrent_first_access (m : Manager) (w : World) (n : nat)
    (sessionID : string) (schedule : list nat) :
  sessions m !! sessionID = None →
  let sys := run sessionID schedule (init m w n) in
  (∀ i, (i < n)%nat → (2 ≤ count_occ Nat.eq_dec schedule i)%nat →
        ∃ r, callers sys !! i = Some (Returned r))
  ∧ (∀ i s, callers sys !! i = Some (Returned (inr s)) →
            GetSession (manager sys) sessionID = Some s)
  ∧ (∀ i j s1 s2, callers sys !! i = Some (Returned (inr s1)) →
                  callers sys !! j = Some (Returned (inr s2)) → s1 = s2)
  ∧ builds (trace (world sys))
    = builds (trace w) + failures (callers sys)
      + (match GetSession (manager sys) sessionID with
         | Some _ => 1
         | None => 0
         end).
Proof.
  intros Hnone sys.
  destruct (run_consistent sessionID w schedule _
              (init_consistent m w n sessionID Hnone)) as [Hret Hcount].
  fold sys in Hret, Hcount. split; [| split; [| split]].
  - intros i Hi Htwice.
    pose proof (run_rank sessionID schedule (init m w n) i) as Hrank.
    cbn [init callers] in Hrank. rewrite length_replicate in Hrank.
    specialize (Hrank Hi). rewrite lookup_replicate_2 in Hrank by done.
    cbn [rank] in Hrank. fold sys in Hrank.
    destruct (callers sys !! i) as [[| |r]|]; cbn [rank] in Hrank;
      [lia | lia | by exists r | lia].
  - exact Hret.
  - intros i j s1 s2 Hi Hj. pose proof (Hret _ _ Hi). pose proof (Hret _ _ Hj).
    congruence.
  - exact Hcount.
Qed.
End Concurrent.

(** ** Scenarios *)

Section Scenarios.
Import mcp client session concurrent scenario.

(** C1. Two providers are configured, [a] answers and [b] cannot be
    reached, and the loop of [Connect] comes to [a] first.
    [GetOrCreateSession] returns the connection error and registers
    nothing, but the connection to [a], opened by the same [Connect],
    is still open when it returns: no call closes it. *)
Theorem connect_failure_leaks_connection :
  let run := GetOrCreateSession (H := b_down) (NewManager two_servers) "s1" w0 in
  run.1.1
  = inl (Errorf "failed to connect client hub: %w" []
           [Errorf "failed to connect to server %q: %w" ["b"]
              [External "NewMcpClient"]])
  ∧ GetSession run.1.2 "s1" = None
  ∧ trace run.2 = [EvDial "b" None; EvDial "a" (Some 2); EvNewHub 0]
  ∧ elements (conns run.2) = [2].
Proof. vm_compute. repeat split; reflexivity. Qed.

(** The other failure of the construction, for comparison: when the
    bundle directory cannot be completed the hub is closed and the
    directory removed, and nothing stays behind. *)
Example bundle_failure_releases_everything :
  let run := created (disk_fails_at 9) in
  run.1.1
  = inl (Errorf "failed to initialize session bundle directory: %w" []
           [Errorf "failed to write mcp-types.ts: %w" []
              [External "os.WriteFile"]])
  ∧ GetSession run.1.2 "s1" = None
  ∧ take 2 (trace run.2)
    = [EvClose 2 true; EvRemoveAll "/tmp/codebraid-s1-4" true]
  ∧ elements (conns run.2) = []
  ∧ map_to_list (fs run.2) = [].
Proof. vm_compute. repeat split; reflexivity. Qed.

(** C2. A registered session whose connection refuses to close:
    [DeleteSession] returns the close error at once; the session is
    still registered and its bundle directory is still on disk, no
    removal having been attempted. *)
Theorem delete_stops_at_close_failure :
  let E := close_fails_from 0 in
  let run := DeleteSession (H := E) (created E).1.2 "s1" (created E).2 in
  run.1.1
  = Some (Errorf "failed to close client hub: %w" []
            [Errorf "errors closing clients: %v" []
               [Errorf "failed to close client %q: %w" ["a"]
                  [External "McpClient.Close"]]])
  ∧ BundleDir <$> GetSession run.1.2 "s1" = Some "/tmp/codebraid-s1-4"
  ∧ fs run.2 !! "/tmp/codebraid-s1-4" = Some Dir
  ∧ trace run.2 = (EvClose 2 false :: trace (created E).2)%list.
Proof. vm_compute. repeat split; reflexivity. Qed.

(** [CloseAll] on the same session, for comparison: the close error is
    collected, the bundle directory is removed all the same and the
    registry is emptied. *)
Example CloseAll_continues_after_close_failure :
  let E := close_fails_from 0 in
  let run := CloseAll (H := E) (created E).1.2 (created E).2 in
  run.1.1
  = Some (Errorf "errors closing sessions: %v" []
            [Errorf "session %q: %w" ["s1"]
               [Errorf "errors closing clients: %v" []
                  [Errorf "failed to close client %q: %w" ["a"]
                     [External "McpClient.Close"]]]])
  ∧ GetSession run.1.2 "s1" = None
  ∧ map_to_list (fs run.2) = []
  ∧ take 2 (trace run.2)
    = [EvRemoveAll "/tmp/codebraid-s1-4" true; EvClose 2 false].
Proof. vm_compute. repeat split; reflexivity. Qed.

(** C4, the claim as stated fails. Two callers ask for the unknown
    session ["s1"] while the provider cannot be reached yet.  Both find
    nothing under the read lock; the first one fails to connect and
    returns the error; the second one, once it has the write lock,
    finds nothing registered and runs a connect-and-build sequence of
    its own, which succeeds.  Two sequences ran, and one caller has an
    error while the other has a session. *)
Lemma concurrent_failure_builds_again :
  let sys := run (H := up_from 3) "s1" [0; 1; 0; 1]
               (init (NewManager one_server) w0 2) in
  builds (trace (world sys)) = 2
  ∧ callers sys !! 0
    = Some (Returned
              (inl (Errorf "failed to connect client hub: %w" []
                      [Errorf "failed to connect to server %q: %w" ["a"]
                         [External "NewMcpClient"]])))
  ∧ ∃ s, callers sys !! 1 = Some (Returned (inr s))
         ∧ GetSession (manager sys) "s1" = Some s.
Proof.
  vm_compute. split; [reflexivity |]. split; [reflexivity |].
  eexists. split; reflexivity.
Qed.

(** C5, the claim as stated fails. Provider [a] announced a new
    catalog and the disk is full when the regeneration writes the file:
    the error is returned, but the in-memory entry of [a] is the new
    rendering already, and the file of [a] on disk, cut to nothing by
    the failed write, holds neither rendering. *)
Lemma regenerate_write_failure_updates_memory :
  let E := disk_full_from 11 in
  let s := refreshed_session (the_session E) in
  let run := regenerateLibForServer (H := E) s "a" (created E).2 in
  run.1.1
  = Some (Errorf "failed to write lib to disk: %w" [] [External "os.WriteFile"])
  ∧ Libs s !! "a" = Some "// a: read,write"
  ∧ fs (created E).2 !! libPath (BundleDir s) "a"
    = Some (File "// a: read,write")
  ∧ Libs run.1.2 !! "a" = Some "// a: search"
  ∧ fs run.2 !! libPath (BundleDir s) "a" = Some (File "").
Proof. vm_compute. repeat split; reflexivity. Qed.

(** C8, the claim as stated fails. The session closes its hub without
    error but the removal of its bundle directory fails: [CloseAll]
    logs a warning and returns no error at all, so the session whose
    cleanup failed is named nowhere in the result. *)
Lemma CloseAll_silent_on_removal_failure :
  let E := disk_fails_from 11 in
  let run := CloseAll (H := E) (created E).1.2 (created E).2 in
  run.1.1 = None
  ∧ take 3 (trace run.2)
    = [EvLog "Warning: failed to clean up bundle dir %s: %v"
         ["/tmp/codebraid-s1-4"];
       EvRemoveAll "/tmp/codebraid-s1-4" false;
       EvClose 2 true]
  ∧ fs run.2 !! "/tmp/codebraid-s1-4" = Some Dir.
Proof. vm_compute. repeat split; reflexivity. Qed.

(** [filepath.Clean] and [filepath.Join] on the cases of Go's own
    tests, and on the paths that provider names with a separator in
    them make. *)
Example Clean_and_Join_examples :
  filepath.Clean "abc/def/../ghi/./jkl//" = "abc/ghi/jkl"
  ∧ filepath.Clean "a/../../b" = "../b"
  ∧ filepath.Clean "/../a" = "/a"
  ∧ filepath.Clean "/a/b/../../.." = "/"
  ∧ filepath.Clean "" = "."
  ∧ filepath.Join [""; ""] = ""
  ∧ filepath.Join ["a"; ""; "b"] = "a/b"
  ∧ filepath.Join [""; ".nvm"; "bin"] = ".nvm/bin"
  ∧ libPath "/tmp/d" "a" = "/tmp/d/lib/a.ts"
  ∧ libPath "/tmp/d" "./a" = "/tmp/d/lib/a.ts"
  ∧ libPath "/tmp/d" "../rspack.config" = "/tmp/d/rspack.config.ts"
  ∧ libPath "/tmp/d" "../../x" = "/tmp/x.ts".
Proof. vm_compute. repeat split; reflexivity. Qed.


(** C5, a second way in which the claim as stated fails.  Providers
    [a] and [./a] share a file; the failed write of the regeneration
    for [./a] cuts that file, which held the library of [a]. *)
Example regenerate_write_failure_cuts_other_library :
  let E := mkEnv (λ _ _ _, Some catalog) (λ _ _, true)
             (λ t, bool_decide (t < 13)%nat) (λ _, Some 0)
             (λ t _, pretty t) (λ _ _, 1) render
             "// types" "// rspack" in
  let run0 := created_of clashing_servers E in
  let s := set_ClientHub (session_of run0)
             (refreshTools (ClientHub (session_of run0)) "./a" new_catalog) in
  let run := regenerateLibForServer (H := E) s "./a" run0.2 in
  run.1.1
  = Some (Errorf "failed to write lib to disk: %w" [] [External "os.WriteFile"])
  ∧ fs run0.2 !! libPath (BundleDir s) "a" = Some (File "// a: read,write")
  ∧ fs run.2 !! libPath (BundleDir s) "a" = Some (File "").
Proof. vm_compute. repeat split; reflexivity. Qed.

(** C6, the claim as stated fails. Providers [a] and [./a] are
    configured, and the file they share holds the library of [a].
    Provider [./a] announces a new catalog and its library is
    regenerated with success: the file of [a] now holds the library of
    [./a]. *)
Lemma regenerate_overwrites_other_library :
  let E := fine_from 1 in
  let run0 := created_of clashing_servers E in
  let s := set_ClientHub (session_of run0)
             (refreshTools (ClientHub (session_of run0)) "./a" new_catalog) in
  let run := regenerateLibForServer (H := E) s "./a" run0.2 in
  run.1.1 = None
  ∧ Libs s !! "a" = Some "// a: read,write"
  ∧ fs run0.2 !! libPath (BundleDir s) "a" = Some (File "// a: read,write")
  ∧ Libs run.1.2 !! "a" = Some "// a: read,write"
  ∧ fs run.2 !! libPath (BundleDir s) "a" = Some (File "// ./a: search").
Proof. vm_compute. repeat split; reflexivity. Qed.


(** The order of [range] decides which provider [FindToolServer]
    names when two providers have the tool. *)
Example FindToolServer_either_provider :
  let ch := mkMcpClientHub 0
              (<["a" := mkMcpClient "a" 1 catalog]>
                 {["b" := mkMcpClient "b" 2 catalog]}) false in
  (FindToolServer (H := fine_from 0) ch "read" w0).1 = inr "a"
  ∧ (FindToolServer (H := fine_from 1) ch "read" w0).1 = inr "b".
Proof. vm_compute. split; reflexivity. Qed.
End Scenarios.

(** ** The theorems at work *)

Section Witnesses.
Import mcp client session concurrent scenario.


Lemma concurrent_first_access_witness :
  let M := NewManager one_server in
  let sys := run (H := up_from 3) "s1" [0; 1; 0; 1] (init M w0 2) in
  sessions M !! "s1" = None
  ∧ (∀ i, (i < 2)%nat → (2 ≤ count_occ Nat.eq_dec [0; 1; 0; 1] i)%nat →
          ∃ r, callers sys !! i = Some (Returned r))
  ∧ (∀ i s, callers sys !! i = Some (Returned (inr s)) →
            GetSession (manager sys) "s1" = Some s)
  ∧ (∀ i j s1 s2, callers sys !! i = Some (Returned (inr s1)) →
                  callers sys !! j = Some (Returned (inr s2)) → s1 = s2)
  ∧ builds (trace (world sys))
    = builds (trace w0) + failures (callers sys)
      + (match GetSession (manager sys) "s1" with
         | Some _ => 1
         | None => 0
         end).
Proof.
  intros M sys.
  assert (sessions M !! "s1" = None) as Hnone by (vm_compute; reflexivity).
  split; [exact Hnone |].
  exact (concurrent_first_access (H := up_from 3) M w0 2 "s1" [0; 1; 0; 1] Hnone).
Defined.

Lemma regenerate_failure_local_witness :
  let E := disk_full_from 11 in
  let s := refreshed_session (the_session E) in
  let w := (created E).2 in
  let run := regenerateLibForServer (H := E) s "a" w in
  let e := Errorf "failed to write lib to disk: %w" [] [External "os.WriteFile"] in
  regenerateLibForServer (H := E) s "a" w = ((Some e, run.1.2), run.2)
  ∧ ClientHub run.1.2 = ClientHub s ∧ BundleDir run.1.2 = BundleDir s
  ∧ SessionID run.1.2 = SessionID s
  ∧ conns run.2 = conns w
  ∧ (∀ Q, Q ≠ "a" →
       Libs run.1.2 !! Q = Libs s !! Q
       ∧ (filepath.no_separator "a" → filepath.no_separator Q →
          fs run.2 !! libPath (BundleDir run.1.2) Q
          = fs w !! libPath (BundleDir s) Q))
  ∧ (∀ path, path ≠ libPath (BundleDir s) "a" →
             fs run.2 !! path = fs w !! path)
  ∧ ((∀ cause, e ≠ Errorf "failed to write lib to disk: %w" [] [cause]) →
     Libs run.1.2 = Libs s ∧ fs run.2 = fs w)
  ∧ (∀ cause, e = Errorf "failed to write lib to disk: %w" [] [cause] →
     ∃ ts file, ServerTools (ClientHub s) "a" = Some ts
       ∧ GenerateFile (Env := E) "a" ts = Some file
       ∧ Libs run.1.2 !! "a" = Some file
       ∧ (fs run.2 !! libPath (BundleDir s) "a"
          = fs w !! libPath (BundleDir s) "a"
          ∨ ∃ k, fs run.2 !! libPath (BundleDir s) "a"
                 = Some (File (String.substring 0 k file)))).
Proof.
  intros E s w run e.
  assert (regenerateLibForServer (H := E) s "a" w = ((Some e, run.1.2), run.2))
    as Hrun by (vm_compute; reflexivity).
  split; [exact Hrun |].
  exact (regenerate_failure_local (H := E) s "a" w e run.1.2 run.2 Hrun).
Defined.

Lemma regenerate_success_frame_witness :
  let s := refreshed_session (the_session fine) in
  let w := (created fine).2 in
  let run := regenerateLibForServer (H := fine) s "a" w in
  BundleDir s ≠ ""
  ∧ regenerateLibForServer (H := fine) s "a" w = ((None, run.1.2), run.2)
  ∧ ∃ ts file,
      ServerTools (ClientHub s) "a" = Some ts
      ∧ GenerateFile (Env := fine) "a" ts = Some file
      ∧ Libs run.1.2 !! "a" = Some file
      ∧ fs run.2 !! libPath (BundleDir run.1.2) "a" = Some (File file)
      ∧ (∀ Q, Q ≠ "a" →
           Libs run.1.2 !! Q = Libs s !! Q
           ∧ (filepath.no_separator "a" → filepath.no_separator Q →
              fs run.2 !! libPath (BundleDir run.1.2) Q
              = fs w !! libPath (BundleDir s) Q))
      ∧ (∀ path, path ≠ libPath (BundleDir s) "a" →
                 fs run.2 !! path = fs w !! path)
      ∧ ClientHub run.1.2 = ClientHub s ∧ BundleDir run.1.2 = BundleDir s.
Proof.
  intros s w run.
  assert (BundleDir s ≠ "") as Hdir by (vm_compute; discriminate).
  assert (regenerateLibForServer (H := fine) s "a" w = ((None, run.1.2), run.2))
    as Hrun by (vm_compute; reflexivity).
  split; [exact Hdir |]. split; [exact Hrun |].
  exact (regenerate_success_frame (H := fine) s "a" w run.1.2 run.2 Hdir Hrun).
Defined.


Lemma CloseAll_cleans_every_session_witness :
  let E := close_fails_from 0 in
  let M := (created E).1.2 in
  let w := (created E).2 in
  let run := CloseAll (H := E) M w in
  CloseAll (H := E) M w = ((run.1.1, run.1.2), run.2)
  ∧ sessions run.1.2 = ∅ ∧ config run.1.2 = config M
  ∧ ∃ errs evs,
      extends_by evs w run.2
      ∧ run.1.1 = match errs with
                  | [] => None
                  | _ => Some (Errorf "errors closing sessions: %v" [] errs)
                  end
      ∧ (∀ x, x ∈ errs →
           ∃ id cause, is_Some (sessions M !! id)
                       ∧ x = Errorf "session %q: %w" [id] [cause])
      ∧ ∀ id s, sessions M !! id = Some s →
          (∀ name c, clients (ClientHub s) !! name = Some c →
                     ∃ ok, EvClose (handle c) ok ∈ evs)
          ∧ (BundleDir s ≠ "" → ∃ ok, EvRemoveAll (BundleDir s) ok ∈ evs)
          ∧ ∃ w1 err w2,
              extends w w1 ∧ extends w2 run.2
              ∧ Close (H := E) (ClientHub s) w1 = (err, w2)
              ∧ (∀ cause, err = Some cause
                          ↔ Errorf "session %q: %w" [id] [cause] ∈ errs).
Proof.
  intros E M w run.
  assert (CloseAll (H := E) M w = ((run.1.1, run.1.2), run.2)) as Hrun
    by (vm_compute; reflexivity).
  split; [exact Hrun |].
  exact (CloseAll_cleans_every_session (H := E) M w run.1.1 run.1.2 run.2 Hrun).
Defined.
End Witnesses.

(** * The rest of the code: properties *)

(** ** The client hub: connecting *)

Section HubConnect.
Context `{Env}.
Import client.

(** The loop of [Connect] over servers of distinct names: after a
    success each server has its client in the hub, with the catalog the
    provider answered and a connection of its own that is open. *)
Lemma Connect_loop_clients servers ch w ch' w' :
  NoDup servers.*1 →
  Connect_loop servers ch w = ((None, ch'), w') →
  (clock w ≤ clock w')%nat
  ∧ (∀ name, name ∉ servers.*1 → clients ch' !! name = clients ch !! name)
  ∧ (∀ name serverCfg, (name, serverCfg) ∈ servers →
       ∃ t ts, clients ch' !! name = Some (mkMcpClient name t ts)
         ∧ dial t name serverCfg = Some ts
         ∧ t ∈ conns w' ∧ (clock w ≤ t < clock w')%nat)
  ∧ (∀ n1 n2 c1 c2, n1 ∈ servers.*1 → n2 ∈ servers.*1 → n1 ≠ n2 →
       clients ch' !! n1 = Some c1 → clients ch' !! n2 = Some c2 →
       handle c1 ≠ handle c2).
Proof.
  revert ch w. induction servers as [|[name serverCfg] rest IH];
    intros ch w Hnd.
  - simpl. intros Hrun. apply ret_inv in Hrun as [[= ->] ->].
    split; [done |]. split; [done |]. split.
    + intros n s Hin. by apply elem_of_nil in Hin.
    + intros n1 n2 c1 c2 Hin. by apply elem_of_nil in Hin.
  - simpl in Hnd. apply NoDup_cons in Hnd as [Hnotin Hnd].
    cbn [Connect_loop]. intros Hrun.
    apply bind_inv in Hrun as (r & w1 & Hdial & Hk).
    unfold NewMcpClient in Hdial.
    destruct (dial (clock w) name serverCfg) as [ts|] eqn:Hd;
      injection Hdial as <- <-; [| by apply ret_inv in Hk as [[=] _]].
    pose proof (Connect_loop_spec _ _ _ _ _ _ Hk)
      as (_ & _ & _ & _ & Hsub & _).
    apply (IH _ _ Hnd) in Hk as (Hclock & Hother & Hmine & Hdistinct).
    simpl in Hclock, Hother, Hmine, Hsub.
    assert (clients ch' !! name = Some (mkMcpClient name (clock w) ts)) as Hhead.
    { rewrite (Hother name Hnotin). simpl. by rewrite lookup_insert_eq. }
    split; [lia |]. split; [| split].
    + intros n Hn. simpl in Hn. apply not_elem_of_cons in Hn as [Hne Hn].
      rewrite (Hother n Hn). simpl. by rewrite lookup_insert_ne.
    + intros n s Hin. apply elem_of_cons in Hin as [[= -> ->]|Hin].
      * exists (clock w), ts. split; [done |]. split; [done |].
        split; [apply Hsub; by apply elem_of_union_l, elem_of_singleton | lia].
      * destruct (Hmine n s Hin) as (t & ts' & Hc & Hdl & Hopen & Ht).
        exists t, ts'. repeat split; try done; simpl in Ht; lia.
    + intros n1 n2 c1 c2 Hn1 Hn2 Hne Hc1 Hc2. simpl in Hn1, Hn2.
      assert (∀ n c, n ∈ rest.*1 → clients ch' !! n = Some c →
                     (clock w < handle c)%nat) as Hlater.
      { intros n c Hn Hc. apply list_elem_of_fmap in Hn as ([n' s] & -> & Hin).
        destruct (Hmine _ _ Hin) as (t & ts' & Hc' & _ & _ & Ht).
        simpl in Hc, Hc'. rewrite Hc in Hc'. injection Hc' as ->. simpl in *. lia. }
      apply elem_of_cons in Hn1 as [->|Hn1];
        apply elem_of_cons in Hn2 as [->|Hn2].
      * done.
      * rewrite Hhead in Hc1. injection Hc1 as <-. simpl.
        pose proof (Hlater _ _ Hn2 Hc2). lia.
      * rewrite Hhead in Hc2. injection Hc2 as <-. simpl.
        pose proof (Hlater _ _ Hn1 Hc1). lia.
      * by apply (Hdistinct n1 n2).
Qed.

(** X1. When [Connect] returns nil, the hub holds, beside the clients it
    had, one client for every configured server, with the catalog that
    server answered and a connection of its own, which is open; no two
    servers share a connection, and clients of other names are
    untouched. *)
Theorem Connect_connects_every_server (ch : McpClientHub) (cfg : config.Config)
    (w : World) (ch' : McpClientHub) (w' : World) :
  Connect ch cfg w = ((None, ch'), w') →
  dom (clients ch') = dom (clients ch) ∪ dom (config.McpServers cfg)
  ∧ (∀ name, config.McpServers cfg !! name = None →
             clients ch' !! name = clients ch !! name)
  ∧ (∀ name serverCfg, config.McpServers cfg !! name = Some serverCfg →
       ∃ c t, clients ch' !! name = Some c
         ∧ serverName c = name
         ∧ dial t name serverCfg = Some (GetTools c)
         ∧ handle c ∈ conns w')
  ∧ (∀ n1 n2 c1 c2,
       is_Some (config.McpServers cfg !! n1) →
       is_Some (config.McpServers cfg !! n2) → n1 ≠ n2 →
       clients ch' !! n1 = Some c1 → clients ch' !! n2 = Some c2 →
       handle c1 ≠ handle c2).
Proof.
  intros Hrun.
  pose proof (Connect_spec _ _ _ _ _ _ Hrun) as (_ & _ & _ & _ & _ & _ & Hdom).
  unfold Connect in Hrun.
  apply bind_inv in Hrun as (servers & w1 & Hrange & Hk).
  apply range_inv in Hrange as (Hperm & _).
  assert (NoDup servers.*1) as Hnd
    by (rewrite Hperm; apply NoDup_fst_map_to_list).
  assert (∀ name, name ∈ servers.*1 ↔ is_Some (config.McpServers cfg !! name))
    as Hkeys.
  { intros name. rewrite Hperm, list_elem_of_fmap. split.
    - intros ([n s] & -> & Hin). apply elem_of_map_to_list in Hin. eauto.
    - intros [s Hs]. exists (name, s). split; [done |].
      by apply elem_of_map_to_list. }
  apply (Connect_loop_clients _ _ _ _ _ Hnd) in Hk
    as (_ & Hother & Hmine & Hdistinct).
  split; [by apply Hdom |]. split; [| split].
  - intros name Hnone. apply Hother. rewrite Hkeys, Hnone.
    by intros [? [=]].
  - intros name serverCfg Hs.
    assert ((name, serverCfg) ∈ servers) as Hin
      by (rewrite Hperm; by apply elem_of_map_to_list).
    destruct (Hmine _ _ Hin) as (t & ts & Hc & Hd & Hopen & _).
    by exists (mkMcpClient name t ts), t.
  - intros n1 n2 c1 c2 H1 H2. apply Hdistinct; by apply Hkeys.
Qed.

(** The loop of [Connect] stops at the first server that fails. *)
Lemma Connect_loop_failure servers ch w e ch' w' :
  NoDup servers.*1 →
  Connect_loop servers ch w = ((Some e, ch'), w') →
  ∃ name serverCfg cause tr,
    (name, serverCfg) ∈ servers
    ∧ e = Errorf "failed to connect to server %q: %w" [name] [cause]
    ∧ trace w' = EvDial name None :: tr
    ∧ clients ch' !! name = clients ch !! name.
Proof.
  revert ch w. induction servers as [|[name serverCfg] rest IH];
    intros ch w Hnd.
  - simpl. intros Hrun. by apply ret_inv in Hrun as [[=] _].
  - simpl in Hnd. apply NoDup_cons in Hnd as [Hnotin Hnd].
    cbn [Connect_loop]. intros Hrun.
    apply bind_inv in Hrun as (r & w1 & Hdial & Hk).
    unfold NewMcpClient in Hdial.
    destruct (dial (clock w) name serverCfg) as [ts|] eqn:Hd;
      injection Hdial as <- <-.
    + apply (IH _ _ Hnd) in Hk as (n & s & cause & tr & Hin & -> & Htr & Hc).
      exists n, s, cause, tr. split; [by right |]. split; [done |].
      split; [done |]. rewrite Hc. simpl. apply lookup_insert_ne.
      intros ->. apply Hnotin. apply list_elem_of_fmap. by exists (n, s).
    + apply ret_inv in Hk as [[= -> ->] ->].
      exists name, serverCfg, (External "NewMcpClient"), (trace w).
      split; [left | done].
Qed.

(** X2. When [Connect] returns an error, the error names a configured
    server, the failed attempt to reach that server is the last call
    that was made, the hub has no new client under that name, and every
    client the hub did gain has its connection open. *)
Theorem Connect_stops_at_first_failure (ch : McpClientHub)
    (cfg : config.Config) (w : World) (e : error) (ch' : McpClientHub)
    (w' : World) :
  Connect ch cfg w = ((Some e, ch'), w') →
  ∃ name cause tr,
    is_Some (config.McpServers cfg !! name)
    ∧ e = Errorf "failed to connect to server %q: %w" [name] [cause]
    ∧ trace w' = EvDial name None :: tr
    ∧ clients ch' !! name = clients ch !! name
    ∧ (∀ other c, clients ch' !! other = Some c →
         clients ch !! other = Some c ∨ handle c ∈ conns w').
Proof.
  intros Hrun.
  pose proof (Connect_spec _ _ _ _ _ _ Hrun) as (_ & _ & _ & _ & _ & Hcl & _).
  unfold Connect in Hrun.
  apply bind_inv in Hrun as (servers & w1 & Hrange & Hk).
  apply range_inv in Hrange as (Hperm & _).
  assert (NoDup servers.*1) as Hnd
    by (rewrite Hperm; apply NoDup_fst_map_to_list).
  apply (Connect_loop_failure _ _ _ _ _ _ Hnd) in Hk
    as (name & s & cause & tr & Hin & -> & Htr & Hc).
  exists name, cause, tr. repeat split; try done.
  rewrite Hperm in Hin. apply elem_of_map_to_list in Hin. eauto.
Qed.
End HubConnect.

(** ** The client hub: closing *)

Section HubClose.
Context `{Env}.
Import client.

Lemma failed_closes_app (evs tr : list event) :
  failed_closes (evs ++ tr) = failed_closes evs + failed_closes tr.
Proof.
  induction evs as [|e evs IH]; [done |].
  destruct e as [| |h [|]| | | | |]; simpl; rewrite IH; lia.
Qed.

Lemma failed_closes_none (evs : list event) :
  (∀ e, e ∈ evs → ∃ h ok, e = EvClose h ok) →
  failed_closes evs = 0 ↔ ∀ e, e ∈ evs → ∃ h, e = EvClose h true.
Proof.
  induction evs as [|e evs IH]; intros Hall.
  - split; [| done]. intros _ e He. by apply elem_of_nil in He.
  - destruct (Hall e) as (h & ok & ->); [left |].
    assert (∀ e, e ∈ evs → ∃ h ok, e = EvClose h ok) as Hrest
      by (intros e He; apply Hall; by right).
    specialize (IH Hrest). destruct ok; simpl.
    + rewrite IH. split.
      * intros Hok e He. apply elem_of_cons in He as [->|He]; eauto.
      * intros Hok e He. apply Hok. by right.
    + split; [lia |]. intros Hok.
      destruct (Hok (EvClose h false)) as [h' [=]]. left.
Qed.

(** The loop of [Close], call by call. *)
Lemma Close_loop_full cs errs w errs' w' :
  Close_loop cs errs w = (errs', w') →
  ∃ evs new,
    extends_by evs w w'
    ∧ length evs = length cs
    ∧ (∀ e, e ∈ evs → ∃ h ok, e = EvClose h ok)
    ∧ (∀ h, h ∈ conns w' ↔ h ∈ conns w ∧ EvClose h true ∉ evs)
    ∧ errs' = (errs ++ new)%list
    ∧ length new = failed_closes evs
    ∧ (∀ x, x ∈ new →
         ∃ name c cause,
           (name, c) ∈ cs
           ∧ x = Errorf "failed to close client %q: %w" [name] [cause]
           ∧ EvClose (handle c) false ∈ evs).
Proof.
  revert errs w. induction cs as [|[name c] rest IH]; intros errs w.
  - simpl. intros Hrun. apply ret_inv in Hrun as [-> ->].
    exists [], []. rewrite app_nil_r.
    split; [done |]. split; [done |].
    split; [intros e He; by apply elem_of_nil in He |].
    split.
    { intros h. split; [| by intros [? _]].
      intros Hh. split; [done |]. intros He. by apply elem_of_nil in He. }
    split; [done |]. split; [done |].
    intros x Hx. by apply elem_of_nil in Hx.
  - cbn [Close_loop]. intros Hrun.
    apply bind_inv in Hrun as (r & w1 & Hclose & Hk).
    unfold McpClient_Close in Hclose.
    destruct (close_ok (clock w) (handle c)) eqn:Hok;
      injection Hclose as <- <-.
    + apply IH in Hk as (evs & new & Hext & Hlen & Hshape & Hconns & -> & Hnew & Hnames).
      exists (evs ++ [EvClose (handle c) true])%list, new.
      unfold extends_by in *. rewrite Hext. simpl. rewrite <- app_assoc.
      split; [done |]. split; [rewrite length_app; simpl; lia |].
      split; [| split; [| split; [done | split]]].
      * intros e He. apply elem_of_app in He as [He|He]; [by apply Hshape |].
        apply list_elem_of_singleton in He as ->. eauto.
      * intros h. rewrite Hconns. simpl. rewrite elem_of_difference,
          elem_of_singleton, elem_of_app, list_elem_of_singleton.
        split.
        -- intros [[Hin Hne] Hnot]. split; [done |].
           intros [Hev|[= ->]]; done.
        -- intros [Hin Hnot]. split; [split; [done |] |].
           ++ intros ->. apply Hnot. by right.
           ++ intros Hev. apply Hnot. by left.
      * rewrite failed_closes_app. simpl. lia.
      * intros x Hx. destruct (Hnames x Hx) as (n & c' & cause & Hin & -> & Hev).
        exists n, c', cause. split; [by right |]. split; [done |].
        apply elem_of_app. by left.
    + apply IH in Hk as (evs & new & Hext & Hlen & Hshape & Hconns & -> & Hnew & Hnames).
      exists (evs ++ [EvClose (handle c) false])%list,
        (Errorf "failed to close client %q: %w" [name]
           [External "McpClient.Close"] :: new).
      unfold extends_by in *. rewrite Hext. simpl. rewrite <- !app_assoc.
      split; [done |]. split; [rewrite length_app; simpl; lia |].
      split; [| split; [| split; [done | split]]].
      * intros e He. apply elem_of_app in He as [He|He]; [by apply Hshape |].
        apply list_elem_of_singleton in He as ->. eauto.
      * intros h. rewrite Hconns. simpl. rewrite elem_of_app,
          list_elem_of_singleton.
        split.
        -- intros [Hin Hnot]. split; [done |]. intros [Hev|[=]]; done.
        -- intros [Hin Hnot]. split; [done |]. intros Hev. apply Hnot. by left.
      * rewrite failed_closes_app. simpl. lia.
      * intros x Hx. apply elem_of_cons in Hx as [->|Hx].
        -- exists name, c, (External "McpClient.Close"). split; [left |].
           split; [done |]. apply elem_of_app. right. left.
        -- destruct (Hnames x Hx) as (n & c' & cause & Hin & -> & Hev).
           exists n, c', cause. split; [by right |]. split; [done |].
           apply elem_of_app. by left.
Qed.

(** [Close], call by call. *)
Lemma Close_calls (ch : McpClientHub) (w : World)
    (err : option error) (w' : World) :
  Close ch w = (err, w') →
  ∃ evs,
    extends_by evs w w'
    ∧ length evs = size (clients ch)
    ∧ (∀ e, e ∈ evs → ∃ h ok, e = EvClose h ok)
    ∧ (∀ name c, clients ch !! name = Some c →
                 ∃ ok, EvClose (handle c) ok ∈ evs)
    ∧ (err = None ↔ failed_closes evs = 0)
    ∧ (∀ h, h ∈ conns w' ↔ h ∈ conns w ∧ EvClose h true ∉ evs)
    ∧ fs w' = fs w.
Proof.
  intros Hrun.
  pose proof (Close_spec _ _ _ _ Hrun) as (Hfs & _ & evs0 & Hext0 & _ & Hall & _).
  unfold Close in Hrun.
  apply bind_inv in Hrun as (cs & w1 & Hrange & Hk).
  apply bind_inv in Hk as (errs & w2 & Hloop & Hk).
  apply range_inv in Hrange as (Hperm & _ & Hconns1 & Htr1).
  apply Close_loop_full in Hloop
    as (evs & new & Hext & Hlen & Hshape & Hconns & Herrs & Hnew & _).
  simpl in Herrs. subst errs.
  assert (w' = w2 ∧ (err = None ↔ length new = 0)) as [-> Herr].
  { case_decide as Hlt; apply ret_inv in Hk as [-> ->]; split; try done;
      split; try done; lia. }
  assert (evs0 = evs) as ->.
  { unfold extends_by in *. rewrite Htr1 in Hext. rewrite Hext in Hext0.
    by apply app_inv_tail in Hext0. }
  exists evs. split; [done |].
  split; [by rewrite Hlen, Hperm, length_map_to_list |].
  split; [done |]. split; [done |]. split; [by rewrite Herr, Hnew |].
  split; [| done]. intros h. by rewrite Hconns, Hconns1.
Qed.

(** X3. [Close] calls [Close] on every client of the hub, once each and
    whatever the earlier ones answered, and calls nothing else.  It
    returns nil exactly when no close failed, and a connection is open
    afterwards exactly when it was open before and was not closed with
    success.  The file system is as before. *)
Theorem Close_closes_every_client (ch : McpClientHub) (w : World)
    (err : option error) (w' : World) :
  Close ch w = (err, w') →
  ∃ evs,
    extends_by evs w w'
    ∧ length evs = size (clients ch)
    ∧ (∀ e, e ∈ evs → ∃ h ok, e = EvClose h ok)
    ∧ (∀ name c, clients ch !! name = Some c →
                 ∃ ok, EvClose (handle c) ok ∈ evs)
    ∧ (err = None ↔ failed_closes evs = 0)
    ∧ (∀ h, h ∈ conns w' ↔ h ∈ conns w ∧ EvClose h true ∉ evs)
    ∧ fs w' = fs w.
Proof. apply Close_calls. Qed.

(** A [Close] that returns nil has closed every client of the hub. *)
Lemma Close_ok_closes_all (ch : McpClientHub) (w w' : World) :
  Close ch w = (None, w') →
  ∀ name c, clients ch !! name = Some c → handle c ∉ conns w'.
Proof.
  intros Hrun name c Hc.
  apply Close_calls in Hrun as (evs & _ & _ & Hshape & Hall & Herr & Hconns & _).
  destruct (Hall _ _ Hc) as [ok Hev].
  assert (failed_closes evs = 0) as Hzero by by apply Herr.
  pose proof (proj1 (failed_closes_none _ Hshape) Hzero) as Hgood.
  destruct (Hgood _ Hev) as [h [= <- ->]].
  rewrite Hconns. by intros [_ Hnot].
Qed.

(** X4. The error of [Close] lists one error per close that failed, each
    naming a client of the hub whose close did fail. *)
Theorem Close_error_names_failed_clients (ch : McpClientHub) (w : World)
    (e : error) (w' : World) :
  Close ch w = (Some e, w') →
  ∃ evs errs,
    extends_by evs w w'
    ∧ e = Errorf "errors closing clients: %v" [] errs
    ∧ length errs = failed_closes evs
    ∧ (0 < length errs)%nat
    ∧ (∀ x, x ∈ errs →
         ∃ name c cause,
           clients ch !! name = Some c
           ∧ x = Errorf "failed to close client %q: %w" [name] [cause]
           ∧ EvClose (handle c) false ∈ evs).
Proof.
  unfold Close. intros Hrun.
  apply bind_inv in Hrun as (cs & w1 & Hrange & Hk).
  apply bind_inv in Hk as (errs & w2 & Hloop & Hk).
  apply range_inv in Hrange as (Hperm & _ & _ & Htr1).
  apply Close_loop_full in Hloop
    as (evs & new & Hext & _ & _ & _ & Herrs & Hnew & Hnames).
  simpl in Herrs. subst errs.
  case_decide as Hlt; apply ret_inv in Hk as [[= ->] ->].
  exists evs, new. unfold extends_by in *. rewrite Hext, Htr1.
  repeat split; try done.
  intros x Hx. destruct (Hnames x Hx) as (n & c & cause & Hin & -> & Hev).
  exists n, c, cause. repeat split; try done.
  rewrite Hperm in Hin. by apply elem_of_map_to_list in Hin.
Qed.
End HubClose.

(** ** The client hub: catalogs and dispatch *)

Section HubDispatch.
Context `{Env} `{clienthub.Provider}.
Import client clienthub.

(** X5. [ListTools] returns the map of the hub's clients to their
    catalogs, whatever the order of the iteration, and calls nothing. *)
Theorem ListTools_is_the_catalog_map (ch : McpClientHub) (w : World) :
  (ListTools ch w).1 = GetTools <$> clients ch
  ∧ trace (ListTools ch w).2 = trace w
  ∧ fs (ListTools ch w).2 = fs w
  ∧ conns (ListTools ch w).2 = conns w.
Proof.
  split.
  - apply map_eq. intros name. by rewrite ListTools_lookup, lookup_fmap.
  - unfold ListTools. by rewrite bind_run.
Qed.

(** X6. When the providers that have a tool of the requested name are
    one and only one, [FindToolServer] returns that provider, whatever
    the order of the iteration. *)
Theorem FindToolServer_unique_provider (ch : McpClientHub)
    (toolName name : string) (w : World) :
  (∃ c tool, clients ch !! name = Some c ∧ tool ∈ GetTools c
             ∧ mcp.Name tool = toolName) →
  (∀ other c tool, clients ch !! other = Some c → tool ∈ GetTools c →
                   mcp.Name tool = toolName → other = name) →
  (FindToolServer ch toolName w).1 = inr name.
Proof.
  intros (c & tool & Hc & Htool & Hname) Honly.
  unfold FindToolServer. rewrite bind_run. unfold ret. cbn [fst snd].
  destruct (FindToolServer_loop _ toolName) as [err|found] eqn:Hloop.
  - apply FindToolServer_loop_missing in Hloop as [_ Hnone].
    apply (proj2 (range_elem _ w _ _)) in Hc. specialize (Hnone _ _ Hc).
    assert (hasTool (GetTools c) toolName = true) as Hhas
      by (apply hasTool_true; eauto).
    congruence.
  - apply FindToolServer_loop_found in Hloop as (c' & Hin & Hhas).
    apply range_elem in Hin.
    apply hasTool_true in Hhas as (tool' & Htool' & Hname').
    f_equal. by eapply Honly.
Qed.

(** X7. [FindToolServer] and [ListTools] agree: the provider that is
    found has the tool in its listed catalog, and when nothing is found
    no listed catalog has it. *)
Theorem FindToolServer_agrees_with_ListTools (ch : McpClientHub)
    (toolName : string) (w w0 : World) :
  let listed := (ListTools ch w0).1 in
  match (FindToolServer ch toolName w).1 with
  | inr name =>
      ∃ ts tool, listed !! name = Some ts ∧ tool ∈ ts
                 ∧ mcp.Name tool = toolName
  | inl _ =>
      ∀ name ts tool, listed !! name = Some ts → tool ∈ ts →
                      mcp.Name tool ≠ toolName
  end.
Proof.
  cbv zeta. unfold FindToolServer. rewrite bind_run. unfold ret. cbn [fst snd].
  destruct (FindToolServer_loop _ toolName) as [err|found] eqn:Hloop.
  - apply FindToolServer_loop_missing in Hloop as [_ Hnone].
    intros name ts tool Hts Htool Hname.
    rewrite ListTools_lookup in Hts.
    destruct (clients ch !! name) as [c|] eqn:Hc; [| done].
    injection Hts as <-.
    apply (proj2 (range_elem _ w _ _)) in Hc. specialize (Hnone _ _ Hc).
    assert (hasTool (GetTools c) toolName = true) as Hhas
      by (apply hasTool_true; eauto).
    congruence.
  - apply FindToolServer_loop_found in Hloop as (c & Hin & Hhas).
    apply range_elem in Hin.
    apply hasTool_true in Hhas as (tool & Htool & Hname).
    exists (GetTools c), tool. rewrite ListTools_lookup, Hin. done.
Qed.

(** X8. [CallTool] on a server that the hub does not have returns the
    server-not-found error naming it and calls nobody: the world is as
    before.  A server that [FindToolServer] has found is always there:
    the call goes to the client registered under that name and the
    result is that client's answer. *)
Theorem CallTool_dispatch (ch : McpClientHub) (toolName : string)
    (args : Args) (w w0 : World) :
  (∀ serverName, clients ch !! serverName = None →
     CallTool ch serverName toolName args w
     = (inl (Errorf "server %q not found" [serverName] []), w))
  ∧ (∀ serverName, (FindToolServer ch toolName w0).1 = inr serverName →
       ∃ c, clients ch !! serverName = Some c
         ∧ (CallTool ch serverName toolName args w).1
           = answer (clock w) (handle c) toolName args
         ∧ fs (CallTool ch serverName toolName args w).2 = fs w
         ∧ conns (CallTool ch serverName toolName args w).2 = conns w).
Proof.
  split.
  - intros serverName Hnone. unfold CallTool. by rewrite Hnone.
  - intros serverName. unfold FindToolServer. rewrite bind_run. unfold ret.
    cbn [fst snd]. intros Hloop.
    apply FindToolServer_loop_found in Hloop as (c & Hin & _).
    apply range_elem in Hin. exists c. split; [done |].
    unfold CallTool. by rewrite Hin.
Qed.
End HubDispatch.

(** ** The session manager: the life of a session *)

Section SessionLifecycle.
Context `{Env}.
Import mcp client session.

(** The connections that the loop of [Connect] opens are those of the
    clients it puts into the hub, and they are made after the loop
    started. *)
Lemma Connect_loop_conns servers ch w r w' :
  NoDup servers.*1 →
  Connect_loop servers ch w = (r, w') →
  (∀ name, name ∉ servers.*1 → clients r.2 !! name = clients ch !! name)
  ∧ (∀ h, h ∈ conns w' →
       h ∈ conns w ∨ ∃ name c, clients r.2 !! name = Some c ∧ handle c = h)
  ∧ (∀ name c, clients r.2 !! name = Some c →
       clients ch !! name = Some c ∨ (clock w ≤ handle c)%nat).
Proof.
  revert ch w. induction servers as [|[name serverCfg] rest IH];
    intros ch w Hnd.
  - simpl. intros Hrun. apply ret_inv in Hrun as [-> ->]. simpl.
    split; [done |]. split; intros; by left.
  - simpl in Hnd. apply NoDup_cons in Hnd as [Hnotin Hnd].
    cbn [Connect_loop]. intros Hrun.
    apply bind_inv in Hrun as (r0 & w1 & Hdial & Hk).
    unfold NewMcpClient in Hdial.
    destruct (dial (clock w) name serverCfg) as [ts|] eqn:Hd;
      injection Hdial as <- <-.
    + apply (IH _ _ Hnd) in Hk as (Hother & Hconns & Hlate). simpl in *.
      split; [| split].
      * intros n Hn. apply not_elem_of_cons in Hn as [Hne Hn].
        rewrite (Hother n Hn). by rewrite lookup_insert_ne.
      * intros h Hh. destruct (Hconns h Hh) as [Hin|Hc]; [| by right].
        apply elem_of_union in Hin as [Hin|Hin]; [| by left].
        apply elem_of_singleton in Hin as ->. right.
        exists name, (mkMcpClient name (clock w) ts).
        rewrite (Hother name Hnotin). by rewrite lookup_insert_eq.
      * intros n c Hc. destruct (Hlate n c Hc) as [Hold|Hle]; [| right; lia].
        destruct (decide (name = n)) as [->|Hne].
        -- rewrite lookup_insert_eq in Hold. injection Hold as <-.
           right. simpl. lia.
        -- rewrite lookup_insert_ne in Hold by done. by left.
    + apply ret_inv in Hk as [-> ->]. simpl.
      split; [done |]. split; intros; by left.
Qed.

Lemma Connect_conns ch cfg w r w' :
  Connect ch cfg w = (r, w') →
  (∀ h, h ∈ conns w' →
     h ∈ conns w ∨ ∃ name c, clients r.2 !! name = Some c ∧ handle c = h)
  ∧ (∀ name c, clients r.2 !! name = Some c →
       clients ch !! name = Some c ∨ (clock w ≤ handle c)%nat).
Proof.
  unfold Connect. intros Hrun.
  apply bind_inv in Hrun as (servers & w1 & Hrange & Hk).
  assert (NoDup servers.*1) as Hnd.
  { replace servers with (range (config.McpServers cfg) w).1
      by by rewrite Hrange.
    apply range_NoDup. }
  apply (Connect_loop_conns _ _ _ _ _ Hnd) in Hk as (_ & Hconns & Hlate).
  unfold range in Hrange. injection Hrange as _ <-. simpl in *.
  split; [done |]. intros n c Hc.
  destruct (Hlate n c Hc); [by left | right; lia].
Qed.

(** The steps of a [GetOrCreateSession] that builds a session. *)
Lemma GetOrCreateSession_created m id w s m' w' :
  sessions m !! id = None →
  GetOrCreateSession m id w = ((inr s, m'), w') →
  ∃ ch0 wh ch wc s0 wn s1,
    NewMcpClientHub w = (ch0, wh)
    ∧ Connect ch0 (config m) wh = ((None, ch), wc)
    ∧ NewSessionContext id ch wc = (s0, wn)
    ∧ initializeSessionBundleDir m s0 wn = ((None, s1), w')
    ∧ s = set_ClientHub s1 (SetToolsRefreshedCallback ch)
    ∧ m' = set_sessions m (<[id := s]> (sessions m)).
Proof.
  intros Hnone. unfold GetOrCreateSession, GetOrCreateSession_locked.
  rewrite Hnone. intros Hrun.
  apply bind_inv in Hrun as (ch0 & wh & Hhub & Hk).
  apply bind_inv in Hk as ([err ch] & wc & Hconn & Hk). cbn [fst snd] in Hk.
  destruct err as [e|]; [by apply ret_inv in Hk as [[=] _] |].
  apply bind_inv in Hk as (s0 & wn & Hnew & Hk).
  apply bind_inv in Hk as ([err s1] & wi & Hinit & Hk). cbn [fst snd] in Hk.
  destruct err as [e|].
  - apply bind_inv in Hk as (? & ? & _ & Hk). by apply ret_inv in Hk as [[=] _].
  - apply ret_inv in Hk as [[= -> ->] ->]. by exists ch0, wh, ch, wc, s0, wn, s1.
Qed.

(** X9. After [GetOrCreateSession] has returned a session, a call for
    the same id returns that session again and does nothing else: the
    registry and the world are as they were. *)
Theorem GetOrCreateSession_again (m : Manager) (id : string) (w : World)
    (s : SessionContext) (m' : Manager) (w' : World) :
  GetOrCreateSession m id w = ((inr s, m'), w') →
  ∀ w2, GetOrCreateSession m' id w2 = ((inr s, m'), w2).
Proof.
  intros Hrun.
  assert (sessions m' !! id = Some s) as Hs.
  { unfold GetOrCreateSession in Hrun.
    destruct (sessions m !! id) as [s0|] eqn:Hlook.
    - by apply ret_inv in Hrun as [[= -> ->] _].
    - apply GetOrCreateSession_locked_spec in Hrun. rewrite Hlook in Hrun.
      destruct Hrun as (_ & _ & -> & _). simpl. by rewrite lookup_insert_eq. }
  intros w2. unfold GetOrCreateSession. by rewrite Hs.
Qed.

(** The steps of a [DeleteSession] that returns nil. *)
Lemma DeleteSession_ok m id w m' w' :
  DeleteSession m id w = ((None, m'), w') →
  ∃ s w1, sessions m !! id = Some s
    ∧ Close (ClientHub s) w = (None, w1)
    ∧ cleanBundleDir s w1 = (tt, w')
    ∧ m' = set_sessions m (delete id (sessions m)).
Proof.
  unfold DeleteSession. destruct (sessions m !! id) as [s|]; intros Hrun;
    [| by apply ret_inv in Hrun as [[=] _]].
  apply bind_inv in Hrun as (err & w1 & Hclose & Hk).
  destruct err as [e|]; [by apply ret_inv in Hk as [[=] _] |].
  apply bind_inv in Hk as ([] & w2 & Hclean & Hk).
  apply ret_inv in Hk as [[= ->] ->]. by exists s, w1.
Qed.

Lemma cleanBundleDir_frame s w u w' :
  cleanBundleDir s w = (u, w') →
  ∀ p, ¬ os.within (BundleDir s) p → fs w' !! p = fs w !! p.
Proof.
  unfold cleanBundleDir. case_decide as Hdir; intros Hrun p Hp;
    [| by apply ret_inv in Hrun as [_ ->]].
  apply bind_inv in Hrun as (err & w1 & Hrm & Hk).
  rewrite <- (RemoveAll_frame _ _ _ _ Hrm p Hp).
  destruct err; [apply Printf_inv in Hk as (-> & _) |
                 apply ret_inv in Hk as [_ ->]]; done.
Qed.

(** X10. A [DeleteSession] that returns nil has found the session,
    closed every client of its hub and taken the session out of the
    registry; the other sessions stay, no connection is opened, and no
    path outside the bundle directory changes.  The removal of the
    bundle directory was called, and where it went through nothing is
    left at or below the directory. *)
Theorem DeleteSession_success (m : Manager) (id : string) (w : World)
    (m' : Manager) (w' : World) :
  DeleteSession m id w = ((None, m'), w') →
  ∃ s, GetSession m id = Some s
    ∧ GetSession m' id = None
    ∧ (∀ other, other ≠ id → GetSession m' other = GetSession m other)
    ∧ config m' = config m
    ∧ conns w' ⊆ conns w
    ∧ (∀ name c, clients (ClientHub s) !! name = Some c →
                 handle c ∉ conns w')
    ∧ (∀ p, ¬ os.within (BundleDir s) p → fs w' !! p = fs w !! p)
    ∧ (BundleDir s ≠ "" →
       ∃ ok, EvRemoveAll (BundleDir s) ok ∈ trace w'
         ∧ (ok = true →
            ∀ p, os.within (BundleDir s) p → fs w' !! p = None)).
Proof.
  intros Hrun.
  apply DeleteSession_ok in Hrun as (s & w1 & Hs & Hclose & Hclean & ->).
  pose proof (Close_spec _ _ _ _ Hclose) as (Hfs1 & Hsub1 & _).
  pose proof (Close_ok_closes_all _ _ _ Hclose) as Hclosed.
  pose proof (cleanBundleDir_spec _ _ _ _ Hclean)
    as (Hconns & evs & Hext & _ & Hrm).
  exists s. unfold GetSession. simpl.
  split; [done |]. split; [by rewrite lookup_delete_eq |].
  split; [intros other Hne; by rewrite lookup_delete_ne |].
  split; [done |]. split; [by rewrite Hconns |].
  split; [intros name c Hc; rewrite Hconns; by eapply Hclosed |].
  split.
  - intros p Hp. rewrite (cleanBundleDir_frame _ _ _ _ Hclean p Hp).
    by rewrite Hfs1.
  - intros Hdir. destruct (Hrm Hdir) as (ok & Hev & Hgone).
    exists ok. split; [| done]. unfold extends_by in Hext. rewrite Hext.
    apply elem_of_app. by left.
Qed.

(** X11. When no provider name has a separator in it,
    [initializeSessionBundleDir] touches nothing outside the directory
    it makes: either [os.MkdirTemp] fails, which is the only call and
    leaves the file system as it was, or the directory is a new one and
    every path that is not at or below it is as before, whatever the
    outcome.  On success that directory is the bundle directory of the
    session. *)
Theorem initialize_stays_in_its_directory (m : Manager) (s : SessionContext)
    (w : World) (r : option error * SessionContext) (w' : World) :
  (∀ name, is_Some (clients (ClientHub s) !! name) →
           filepath.no_separator name) →
  initializeSessionBundleDir m s w = (r, w') →
  (is_Some r.1 ∧ fs w' = fs w
   ∧ trace w'
     = EvMkdirTemp ("codebraid-" +:+ SessionID s +:+ "-") None :: trace w)
  ∨ ∃ root evs,
      trace w'
      = (evs ++ EvMkdirTemp ("codebraid-" +:+ SessionID s +:+ "-")
                  (Some root) :: trace w)%list
      ∧ fs w !! root = None
      ∧ (∀ p, ¬ os.within root p → fs w' !! p = fs w !! p)
      ∧ (r.1 = None → BundleDir r.2 = root).
Proof.
  intros Hnames Hrun.
  apply (initialize_frame _ _ _ _ _ Hnames) in Hrun
    as [?|(root & w1 & Htr1 & Hfs1 & Hfresh & [[evs Hext] Hfr] & Hdir)];
    [by left | right].
  exists root, evs. unfold extends_by in Hext. rewrite Hext, Htr1.
  split; [done |]. split; [done |]. split; [| done].
  intros p Hp. rewrite (Hfr p Hp), Hfs1, lookup_insert_ne; [done |].
  intros <-. apply Hp, within_root.
Qed.

(** X12. When no configured server has a separator in its name, a
    session that is created and then deleted leaves things as they
    were: the registry is the one before the creation, no connection
    that the creation opened is left open, no connection that was open
    before is closed, and the file system differs at most at and below
    the bundle directory, which was new; where its removal went
    through, nothing is left there either. *)
Theorem create_then_delete (m : Manager) (id : string) (w : World)
    (s : SessionContext) (m1 : Manager) (w1 : World) (m2 : Manager)
    (w2 : World) :
  (∀ name, is_Some (config.McpServers (config m) !! name) →
           filepath.no_separator name) →
  sessions m !! id = None →
  GetOrCreateSession m id w = ((inr s, m1), w1) →
  DeleteSession m1 id w1 = ((None, m2), w2) →
  m2 = m
  ∧ conns w2 ⊆ conns w
  ∧ (∀ h, h ∈ conns w → (h < clock w)%nat → h ∈ conns w2)
  ∧ fs w !! BundleDir s = None
  ∧ (∀ p, ¬ os.within (BundleDir s) p → fs w2 !! p = fs w !! p)
  ∧ ∃ ok, EvRemoveAll (BundleDir s) ok ∈ trace w2
      ∧ (ok = true → ∀ p, os.within (BundleDir s) p → fs w2 !! p = None).
Proof.
  intros Hservers Hnone Hcreate Hdelete.
  apply (GetOrCreateSession_created _ _ _ _ _ _ Hnone) in Hcreate
    as (ch0 & wh & ch & wc & s0 & wn & s1 & Hhub & Hconn & Hnew & Hinit
        & Hs & ->).
  apply DeleteSession_ok in Hdelete as (s' & w3 & Hs' & Hclose & Hclean & ->).
  simpl in Hs'. rewrite lookup_insert_eq in Hs'. injection Hs' as <-.
  unfold NewMcpClientHub in Hhub. injection Hhub as <- <-.
  pose proof (Connect_spec _ _ _ _ _ _ Hconn)
    as (_ & _ & Hfsc & _ & Hsubc & _ & Hdomc).
  pose proof (Connect_conns _ _ _ _ _ Hconn) as [Hnewc Hlate].
  simpl in Hfsc, Hsubc, Hnewc, Hlate, Hdomc.
  assert (∀ name, is_Some (clients ch !! name) → filepath.no_separator name)
    as Hnames.
  { intros name Hname. apply Hservers. apply elem_of_dom.
    apply elem_of_dom in Hname. rewrite (Hdomc eq_refl) in Hname.
    by rewrite dom_empty_L, union_empty_l_L in Hname. }
  unfold NewSessionContext in Hnew.
  apply bind_inv in Hnew as (now & wn' & Hnow & Hret).
  apply ret_inv in Hret as [-> ->].
  apply Now_inv in Hnow as (Hfsn & Hconnsn & _).
  pose proof (initialize_spec _ _ _ _ _ Hinit) as (Hconnsi & _ & Hres).
  simpl in Hres. destruct Hres as (_ & Hhub1 & _ & Hdir & _).
  simpl in Hhub1.
  apply (initialize_frame m (mkSessionContext id ch ∅ "" now now)
           _ _ _ Hnames) in Hinit
    as [([e [=]] & _)|(root & wm & _ & Hfsm & Hfresh & [_ Hfr] & Hroot)].
  simpl in Hroot. specialize (Hroot eq_refl).
  assert (BundleDir s = root) as HdirS by by rewrite Hs.
  assert (clients (ClientHub s) = clients ch) as HclS by by rewrite Hs.
  pose proof (Close_spec _ _ _ _ Hclose)
    as (Hfs3 & Hsub3 & evs & Hext & _ & _ & Hshape & _).
  pose proof (Close_calls _ _ _ _ Hclose)
    as (evs' & Hext' & _ & _ & _ & _ & Hconns3 & _).
  assert (evs' = evs) as ->.
  { unfold extends_by in *. rewrite Hext in Hext'.
    by apply app_inv_tail in Hext'. }
  pose proof (Close_ok_closes_all _ _ _ Hclose) as Hclosed.
  pose proof (cleanBundleDir_spec _ _ _ _ Hclean)
    as (Hconns2 & evs2 & Hext2 & _ & Hrm).
  split.
  { destruct m as [ss cfg]. unfold set_sessions. simpl in *.
    by rewrite delete_insert_id. }
  split.
  { intros h Hh. rewrite Hconns2 in Hh.
    assert (h ∈ conns wc) as Hc.
    { rewrite <- Hconnsn, <- Hconnsi. by apply Hsub3. }
    destruct (Hnewc h Hc) as [Hold|(name & c & Hcl & <-)]; [done |].
    exfalso. eapply Hclosed; [| done]. by rewrite HclS. }
  split.
  { intros h Hh Hlt. rewrite Hconns2. apply Hconns3. split.
    - rewrite Hconnsi, Hconnsn. by apply Hsubc.
    - intros Hev. destruct (Hshape _ Hev) as (name & c & ok & Hcl & [= -> _]).
      rewrite HclS in Hcl.
      destruct (Hlate _ _ Hcl) as [Hold|Hle]; [done | lia]. }
  split; [rewrite HdirS; by rewrite <- Hfsc, <- Hfsn |].
  split.
  { intros p Hp. rewrite (cleanBundleDir_frame _ _ _ _ Hclean p Hp).
    rewrite Hfs3. rewrite HdirS in Hp. rewrite (Hfr p Hp), Hfsm.
    rewrite lookup_insert_ne; [by rewrite Hfsn, Hfsc |].
    intros <-. apply Hp, within_root. }
  assert (BundleDir s ≠ "") as Hne by (rewrite Hs; done).
  destruct (Hrm Hne) as (ok & Hev & Hgone).
  exists ok. split; [| done]. unfold extends_by in Hext2. rewrite Hext2.
  apply elem_of_app. by left.
Qed.

(** X13. The registry keeps its sessions as [GetOrCreateSession]
    registers them: each under its own id, with a bundle directory, the
    callback registered and a client for every configured server.
    [GetOrCreateSession], [DeleteSession] and [CloseAll] all keep it
    so, whatever they return. *)
Theorem registry_invariant (m : Manager) (id : string) (w : World) :
  registered m →
  registered (GetOrCreateSession m id w).1.2
  ∧ registered (DeleteSession m id w).1.2
  ∧ registered (CloseAll m w).1.2.
Proof.
  intros Hreg. split; [| split].
  - destruct (GetOrCreateSession m id w) as [[r m'] w'] eqn:Hrun. simpl.
    unfold GetOrCreateSession in Hrun.
    destruct (sessions m !! id) as [s0|] eqn:Hlook.
    + by apply ret_inv in Hrun as [[= _ ->] _].
    + apply GetOrCreateSession_locked_spec in Hrun. rewrite Hlook in Hrun.
      destruct Hrun as (_ & _ & Hres). destruct r as [e|s]; [by subst |].
      destruct Hres as (-> & Hid & Hdom & _ & Hcb & Hdir & _).
      intros id' s'. simpl. intros Hs'.
      apply lookup_insert_Some in Hs' as [[<- <-]|[_ Hs']]; [done |].
      by apply Hreg.
  - destruct (DeleteSession m id w) as [[r m'] w'] eqn:Hrun. simpl.
    unfold DeleteSession in Hrun.
    destruct (sessions m !! id) as [s0|] eqn:Hlook;
      [| by apply ret_inv in Hrun as [[= _ ->] _]].
    apply bind_inv in Hrun as (err & w1 & Hclose & Hk).
    destruct err as [e|]; [by apply ret_inv in Hk as [[= _ ->] _] |].
    apply bind_inv in Hk as (u & w2 & Hclean & Hk).
    apply ret_inv in Hk as [[= _ ->] _].
    intros id' s'. simpl. intros Hs'.
    apply lookup_delete_Some in Hs' as [_ Hs']. by apply Hreg.
  - destruct (CloseAll m w) as [[r m'] w'] eqn:Hrun. simpl.
    unfold CloseAll in Hrun.
    apply bind_inv in Hrun as (ss & w1 & _ & Hk).
    apply bind_inv in Hk as (errs & w2 & _ & Hk).
    assert (m' = set_sessions m ∅) as ->
      by (case_decide; by apply ret_inv in Hk as [[= _ ->] _]).
    intros id' s'. simpl. by rewrite lookup_empty.
Qed.

(** X14. Regenerating the library of a server twice is the same as
    regenerating it once: when both calls succeed, the second leaves
    the session, the file system and the connections as the first left
    them. *)
Theorem regenerate_idempotent (s : SessionContext) (P : string) (w : World)
    (s1 : SessionContext) (w1 : World) (s2 : SessionContext) (w2 : World) :
  regenerateLibForServer s P w = ((None, s1), w1) →
  regenerateLibForServer s1 P w1 = ((None, s2), w2) →
  s2 = s1 ∧ fs w2 = fs w1 ∧ conns w2 = conns w1.
Proof.
  unfold regenerateLibForServer.
  destruct (ServerTools (ClientHub s) P) as [ts|] eqn:Hts;
    [| intros Hrun; by apply ret_inv in Hrun as [[=] _]].
  destruct (GenerateFile P ts) as [file|] eqn:Hgen;
    [| intros Hrun; by apply ret_inv in Hrun as [[=] _]].
  cbv zeta. cbn [BundleDir set_Libs].
  assert (∀ t : SessionContext,
            set_Libs (set_Libs t (<[P := file]> (Libs t)))
              (<[P := file]> (Libs (set_Libs t (<[P := file]> (Libs t)))))
            = set_Libs t (<[P := file]> (Libs t))) as Htwice.
  { intros t. unfold set_Libs. simpl. by rewrite insert_insert_eq. }
  case_decide as Hdir.
  - intros Hrun. apply bind_inv in Hrun as (err & w1' & Hwrite & Hk).
    destruct err as [e|]; [by apply ret_inv in Hk as [[=] _] |].
    apply ret_inv in Hk as [[= ->] ->].
    apply WriteFile_inv in Hwrite
      as [Hconns1 [(_ & Hfs1 & _)|(e & [=] & _)]].
    cbn [ClientHub set_Libs]. rewrite Hts, Hgen. cbn [BundleDir].
    rewrite decide_True by done.
    intros Hrun. apply bind_inv in Hrun as (err & w2' & Hwrite & Hk).
    destruct err as [e|]; [by apply ret_inv in Hk as [[=] _] |].
    apply ret_inv in Hk as [[= ->] ->].
    apply WriteFile_inv in Hwrite
      as [Hconns2 [(_ & Hfs2 & _)|(e & [=] & _)]].
    split; [apply Htwice |]. split; [| done].
    by rewrite Hfs2, Hfs1, insert_insert_eq.
  - intros Hrun. apply ret_inv in Hrun as [[= ->] ->].
    cbn [ClientHub set_Libs]. rewrite Hts, Hgen. cbn [BundleDir].
    rewrite decide_False by (simpl; intros Hx; by apply Hx).
    intros Hrun. apply ret_inv in Hrun as [[= ->] ->].
    split; [apply Htwice | done].
Qed.

Lemma Close_failed ch w err w' :
  Close ch w = (err, w') →
  ∃ evs, extends_by evs w w' ∧ (err = None ↔ failed_closes evs = 0).
Proof.
  intros Hrun.
  apply Close_calls in Hrun as (evs & Hext & _ & _ & _ & Herr & _).
  by exists evs.
Qed.

Lemma cleanBundleDir_no_close s w u w' :
  cleanBundleDir s w = (u, w') →
  ∃ evs, extends_by evs w w' ∧ failed_closes evs = 0.
Proof.
  unfold cleanBundleDir. case_decide as Hdir; intros Hrun;
    [| apply ret_inv in Hrun as [_ ->]; by exists []].
  apply bind_inv in Hrun as (err & w1 & Hrm & Hk).
  apply RemoveAll_inv in Hrm as (_ & ok & Htr1 & _).
  destruct err.
  - apply Printf_inv in Hk as (_ & _ & Htr).
    eexists [_; _]. split; [unfold extends_by; by rewrite Htr, Htr1 | done].
  - apply ret_inv in Hk as [_ ->]. by eexists [_].
Qed.

Lemma CloseAll_loop_failed ss errs w errs' w' :
  CloseAll_loop ss errs w = (errs', w') →
  ∃ evs new, extends_by evs w w' ∧ errs' = (errs ++ new)%list
    ∧ (new = [] ↔ failed_closes evs = 0).
Proof.
  revert errs w. induction ss as [|[id s] rest IH]; intros errs w.
  - simpl. intros Hrun. apply ret_inv in Hrun as [-> ->].
    exists [], []. by rewrite app_nil_r.
  - cbn [CloseAll_loop]. intros Hrun.
    apply bind_inv in Hrun as (err & w1 & Hclose & Hk).
    apply bind_inv in Hk as (u & w2 & Hclean & Hk).
    apply Close_failed in Hclose as (evs1 & Hext1 & Herr).
    apply cleanBundleDir_no_close in Hclean as (evs2 & Hext2 & Hzero).
    apply IH in Hk as (evs3 & new & Hext3 & -> & Hnew).
    unfold extends_by in *.
    destruct err as [e|].
    + exists (evs3 ++ evs2 ++ evs1)%list,
        (Errorf "session %q: %w" [id] [e] :: new).
      split; [by rewrite Hext3, Hext2, Hext1, <- !app_assoc |].
      split; [by rewrite <- app_assoc |].
      rewrite !failed_closes_app. split; [done |].
      intros Hsum. assert (failed_closes evs1 = 0) as Hz by lia.
      by apply Herr in Hz.
    + exists (evs3 ++ evs2 ++ evs1)%list, new.
      split; [by rewrite Hext3, Hext2, Hext1, <- !app_assoc |].
      split; [done |].
      rewrite !failed_closes_app, Hzero, Hnew.
      assert (failed_closes evs1 = 0) as -> by by apply Herr.
      lia.
Qed.

(** X15. [CloseAll] returns nil exactly when no close of a client
    failed: a bundle directory whose removal fails does not show in the
    result. *)
Theorem CloseAll_nil_iff_no_failed_close (m : Manager) (w : World)
    (r : option error) (m' : Manager) (w' : World) :
  CloseAll m w = ((r, m'), w') →
  ∃ evs, extends_by evs w w' ∧ (r = None ↔ failed_closes evs = 0).
Proof.
  unfold CloseAll. intros Hrun.
  apply bind_inv in Hrun as (ss & w1 & Hrange & Hk).
  apply bind_inv in Hk as (errs & w2 & Hloop & Hk).
  apply range_inv in Hrange as (_ & _ & _ & Htr1).
  apply CloseAll_loop_failed in Hloop as (evs & new & Hext & Herrs & Hnew).
  simpl in Herrs. subst errs. exists evs.
  case_decide as Hlen; apply ret_inv in Hk as [[= -> _] ->];
    (split; [unfold extends_by in *; by rewrite Hext, Htr1 |]).
  - split; [done |]. intros Hz. apply Hnew in Hz. subst new. simpl in Hlen. lia.
  - split; [intros _ | done]. apply Hnew. destruct new; [done | simpl in Hlen; lia].
Qed.

(** X16. After [CloseAll] the registry is empty whatever was returned:
    no session is found, a [DeleteSession] fails with the
    session-not-found error, and a second [CloseAll] returns nil and
    calls nothing. *)
Theorem CloseAll_leaves_nothing (m : Manager) (w : World)
    (r : option error) (m' : Manager) (w' : World) :
  CloseAll m w = ((r, m'), w') →
  (∀ id, GetSession m' id = None)
  ∧ (∀ id w2, DeleteSession m' id w2
              = ((Some (Errorf "session %q not found" [id] []), m'), w2))
  ∧ (∀ w2, (CloseAll m' w2).1 = (None, m')
           ∧ trace (CloseAll m' w2).2 = trace w2
           ∧ fs (CloseAll m' w2).2 = fs w2
           ∧ conns (CloseAll m' w2).2 = conns w2).
Proof.
  unfold CloseAll at 1. intros Hrun.
  apply bind_inv in Hrun as (ss & w1 & _ & Hk).
  apply bind_inv in Hk as (errs & w2 & _ & Hk).
  assert (m' = set_sessions m ∅) as ->
    by (case_decide; by apply ret_inv in Hk as [[= _ ->] _]).
  split; [intros id; apply lookup_empty |].
  split.
  - intros id w3. unfold DeleteSession. simpl. by rewrite lookup_empty.
  - intros w3. unfold CloseAll, range. rewrite !bind_run. simpl.
    rewrite map_to_list_empty. done.
Qed.
End SessionLifecycle.

(** ** The manager of [manager.go] *)

Section OlderManager.
Context `{Env}.
Import mcp client session.

Lemma cleanBundleDir_plain s : BundleDir s = "" → cleanBundleDir s = ret tt.
Proof.
  intros Hdir. unfold cleanBundleDir. rewrite decide_False; [done |].
  intros Hx. by apply Hx.
Qed.

Lemma CloseAll_loop_plain ss errs w :
  (∀ id s, (id, s) ∈ ss → BundleDir s = "") →
  manager_go.CloseAll_loop ss errs w = CloseAll_loop ss errs w.
Proof.
  revert errs w. induction ss as [|[id s] rest IH]; intros errs w Hplain;
    [done |].
  cbn [manager_go.CloseAll_loop CloseAll_loop].
  rewrite (cleanBundleDir_plain s) by (eapply Hplain; left).
  rewrite !bind_run.
  destruct (Close (ClientHub s) w) as [[e|] w1]; unfold ret; cbn [fst snd];
    apply IH; intros id' s' Hin; eapply Hplain; by right.
Qed.

(** X17. On a registry whose sessions have no bundle directory, which
    is what [manager.go] builds, the manager of [manager.go] and the
    manager with bundle directories do the same: [GetSession],
    [DeleteSession] and [CloseAll] return the same and make the same
    calls.  The operations of [manager.go] keep the registry that way. *)
Theorem manager_go_agrees (m : Manager) (id : string) (w : World) :
  plain m →
  manager_go.GetSession m id = GetSession m id
  ∧ manager_go.DeleteSession m id w = DeleteSession m id w
  ∧ manager_go.CloseAll m w = CloseAll m w
  ∧ plain (manager_go.GetOrCreateSession m id w).1.2
  ∧ plain (manager_go.DeleteSession m id w).1.2
  ∧ plain (manager_go.CloseAll m w).1.2.
Proof.
  intros Hplain. split; [done |]. split; [| split; [| split; [| split]]].
  - unfold manager_go.DeleteSession, DeleteSession.
    destruct (sessions m !! id) as [s|] eqn:Hs; [| done].
    rewrite (cleanBundleDir_plain s) by by eapply Hplain.
    rewrite !bind_run. by destruct (Close (ClientHub s) w) as [[e|] w1].
  - unfold manager_go.CloseAll, CloseAll. rewrite !bind_run.
    rewrite CloseAll_loop_plain; [done |].
    intros id' s' Hin. apply range_elem in Hin. by eapply Hplain.
  - destruct (manager_go.GetOrCreateSession m id w) as [[r m'] w'] eqn:Hrun.
    simpl. unfold manager_go.GetOrCreateSession in Hrun.
    destruct (sessions m !! id) as [s0|] eqn:Hlook.
    + by apply ret_inv in Hrun as [[= _ ->] _].
    + apply bind_inv in Hrun as (ch0 & wh & _ & Hk).
      apply bind_inv in Hk as ([err ch] & wc & _ & Hk). cbn [fst snd] in Hk.
      destruct err as [e|]; [by apply ret_inv in Hk as [[= _ ->] _] |].
      apply bind_inv in Hk as (s & wn & Hnew & Hk).
      apply ret_inv in Hk as [[= _ ->] _].
      unfold NewSessionContext in Hnew.
      apply bind_inv in Hnew as (now & wn' & _ & Hret).
      apply ret_inv in Hret as [-> _].
      intros id' s'. simpl. intros Hs'.
      apply lookup_insert_Some in Hs' as [[_ <-]|[_ Hs']]; [done |].
      by eapply Hplain.
  - destruct (manager_go.DeleteSession m id w) as [[r m'] w'] eqn:Hrun.
    simpl. unfold manager_go.DeleteSession in Hrun.
    destruct (sessions m !! id) as [s0|] eqn:Hlook;
      [| by apply ret_inv in Hrun as [[= _ ->] _]].
    apply bind_inv in Hrun as (err & w1 & _ & Hk).
    destruct err as [e|]; apply ret_inv in Hk as [[= _ ->] _]; [done |].
    intros id' s'. simpl. intros Hs'.
    apply lookup_delete_Some in Hs' as [_ Hs']. by eapply Hplain.
  - destruct (manager_go.CloseAll m w) as [[r m'] w'] eqn:Hrun. simpl.
    unfold manager_go.CloseAll in Hrun.
    apply bind_inv in Hrun as (ss & w1 & _ & Hk).
    apply bind_inv in Hk as (errs & w2 & _ & Hk).
    assert (m' = set_sessions m ∅) as ->
      by (case_decide; by apply ret_inv in Hk as [[= _ ->] _]).
    intros id' s'. simpl. by rewrite lookup_empty.
Qed.

(** X18. [GetOrCreateSession] of [manager.go] never touches the file
    system.  It registers a session only after [Connect] has succeeded:
    on an error the registry is unchanged; a session it returns is
    registered under the id, and one it has built carries the id, has a
    client with an open connection for every configured server, and has
    neither a bundle directory nor a registered callback. *)
Theorem manager_go_GetOrCreateSession_spec (m : Manager) (id : string)
    (w : World) (r : error + SessionContext) (m' : Manager) (w' : World) :
  manager_go.GetOrCreateSession m id w = ((r, m'), w') →
  fs w' = fs w
  ∧ match r with
    | inl e =>
        m' = m ∧ sessions m !! id = None
        ∧ ∃ cause, e = Errorf "failed to connect client hub: %w" [] [cause]
    | inr s =>
        manager_go.GetSession m' id = Some s
        ∧ (∀ other, other ≠ id →
             manager_go.GetSession m' other = manager_go.GetSession m other)
        ∧ (sessions m !! id = None →
           SessionID s = id
           ∧ BundleDir s = ""
           ∧ refreshed (ClientHub s) = false
           ∧ dom (clients (ClientHub s)) = dom (config.McpServers (config m))
           ∧ ∀ name c, clients (ClientHub s) !! name = Some c →
                       handle c ∈ conns w')
    end.
Proof.
  unfold manager_go.GetOrCreateSession, manager_go.GetSession.
  destruct (sessions m !! id) as [s0|] eqn:Hlook; intros Hrun.
  - apply ret_inv in Hrun as [[= -> ->] ->]. by rewrite Hlook.
  - apply bind_inv in Hrun as (ch0 & wh & Hhub & Hk).
    apply NewMcpClientHub_inv in Hhub as (-> & Hfsh & _ & _).
    apply bind_inv in Hk as ([err ch] & wc & Hconn & Hk). cbn [fst snd] in Hk.
    apply Connect_spec in Hconn
      as (_ & Hcb & Hfsc & _ & _ & Hopen & Hdom).
    simpl in Hcb, Hopen, Hdom.
    destruct err as [e|].
    + apply ret_inv in Hk as [[= -> ->] ->].
      split; [congruence |]. split; [done |]. split; [done |]. by exists e.
    + apply bind_inv in Hk as (s & wn & Hnew & Hk).
      apply ret_inv in Hk as [[= -> ->] ->].
      unfold NewSessionContext in Hnew.
      apply bind_inv in Hnew as (now & wn' & Hnow & Hret).
      apply ret_inv in Hret as [-> ->].
      apply Now_inv in Hnow as (Hfsn & Hconnsn & _).
      split; [congruence |]. simpl.
      split; [by rewrite lookup_insert_eq |].
      split; [intros other Hne; by rewrite lookup_insert_ne |].
      intros _. split; [done |]. split; [done |]. split; [done |].
      split; [rewrite Hdom by done; apply union_empty_l_L |].
      intros name c Hc. rewrite Hconnsn.
      destruct (Hopen _ _ Hc) as [Hold|Hin]; [| done].
      by rewrite lookup_empty in Hold.
Qed.
End OlderManager.

(** ** The session context of [context.go] *)

Section SessionContextTimes.
Context {Ctx Box : Type}.
Import sessioncontext.

(** X20. For a context whose timestamps are in order, the idle time is
    never negative and never more than the age; [UpdateLastAccessed]
    does not change the age and does not lengthen the idle time. *)
Theorem IdleDuration_at_most_Age (s : SessionContext Ctx Box) (w : World) :
  timely s w →
  (0 ≤ (IdleDuration s w).1 ≤ (Age s w).1)%Z
  ∧ let s' := (UpdateLastAccessed s w).1 in
    let w' := (UpdateLastAccessed s w).2 in
    (Age s' w').1 = (Age s w').1
    ∧ (0 ≤ (IdleDuration s' w').1 ≤ (IdleDuration s w').1)%Z.
Proof.
  intros [Horder Hpast]. unfold IdleDuration, Age, Since, LastAccessedAt.
  simpl. lia.
Qed.
End SessionContextTimes.

(** ** The sandbox: detecting TypeScript *)

Section Detect.
Import sandbox.

Lemma prefix_inv (sub s : string) :
  String.prefix sub s = true → ∃ post, s = sub +:+ post.
Proof.
  revert s. induction sub as [|c sub IH]; intros s Hp.
  - by exists s.
  - destruct s as [|d s]; [done |]. simpl in Hp.
    destruct (Ascii.ascii_dec c d) as [->|]; [| done].
    destruct (IH _ Hp) as [post ->]. by exists post.
Qed.

Lemma Contains_unfold (s substr : string) :
  Contains s substr
  = String.prefix substr s
    || match s with
       | EmptyString => false
       | String _ rest => Contains rest substr
       end.
Proof. by destruct s. Qed.

(** [strings.Contains]: [substr] occurs in [s]. *)
Lemma Contains_spec (s substr : string) :
  Contains s substr = true ↔ ∃ pre post, s = pre +:+ substr +:+ post.
Proof.
  split.
  - induction s as [|c s IH]; rewrite Contains_unfold; intros Hc;
      apply orb_true_iff in Hc as [Hp|Hc]; try done.
    + apply prefix_inv in Hp as [post ->]. by exists "", post.
    + apply prefix_inv in Hp as [post ->]. by exists "", post.
    + destruct (IH Hc) as (pre & post & ->). by exists (String c pre), post.
  - intros (pre & post & ->). induction pre as [|c pre IH].
    + rewrite string_app_nil, Contains_unfold, string_prefix_app. done.
    + rewrite string_app_cons, Contains_unfold, IH. apply orb_true_r.
Qed.

Lemma IsTypeScript_loop_spec (indicators : list string) (code : string) :
  IsTypeScript_loop indicators code = true
  ↔ ∃ indicator, indicator ∈ indicators ∧ Contains code indicator = true.
Proof.
  induction indicators as [|i rest IH]; simpl.
  - split; [done |]. intros (? & Hin & _). by apply elem_of_nil in Hin.
  - destruct (Contains code i) eqn:Hc.
    + split; [| done]. intros _. exists i. split; [left | done].
    + rewrite IH. split.
      * intros (x & Hin & Hx). exists x. split; [by right | done].
      * intros (x & Hin & Hx). apply elem_of_cons in Hin as [->|Hin];
          [congruence | eauto].
Qed.

(** X21. [IsTypeScript] holds of a text exactly when one of the
    fourteen indicators occurs in it, anywhere. *)
Theorem IsTypeScript_iff_indicator (code : string) :
  IsTypeScript code = true
  ↔ ∃ indicator pre post,
      indicator ∈ tsIndicators ∧ code = pre +:+ indicator +:+ post.
Proof.
  unfold IsTypeScript. rewrite IsTypeScript_loop_spec. split.
  - intros (i & Hin & Hc). apply Contains_spec in Hc as (pre & post & ->).
    by exists i, pre, post.
  - intros (i & pre & post & Hin & ->). exists i. split; [done |].
    apply Contains_spec. by exists pre, post.
Qed.

(** X22. A text that holds a text taken for TypeScript is taken for
    TypeScript too: text around it never hides an indicator. *)
Theorem IsTypeScript_embedded (code pre post : string) :
  IsTypeScript code = true →
  IsTypeScript (pre +:+ code +:+ post) = true.
Proof.
  unfold IsTypeScript. rewrite !IsTypeScript_loop_spec.
  intros (i & Hin & Hc). exists i. split; [done |].
  apply Contains_spec in Hc as (pre' & post' & ->).
  apply Contains_spec. exists (pre +:+ pre'), (post' +:+ post).
  by rewrite !string_app_assoc.
Qed.

(** X23. A text of fewer than three bytes, the empty text among them,
    is never taken for TypeScript. *)
Theorem IsTypeScript_short (code : string) :
  (String.length code < 3)%nat → IsTypeScript code = false.
Proof.
  assert (∀ i, i ∈ tsIndicators → (3 ≤ String.length i)%nat) as Hmin.
  { apply Forall_forall. unfold tsIndicators. repeat constructor; simpl; lia. }
  intros Hlen. apply not_true_is_false. unfold IsTypeScript.
  rewrite IsTypeScript_loop_spec. intros (i & Hin & Hc).
  apply Contains_spec in Hc as (pre & post & ->).
  rewrite !string_length_app in Hlen. specialize (Hmin i Hin). lia.
Qed.
End Detect.

(** ** The sandbox: the transformer *)

Section Transformer.
Context `{Env} `{sandbox.Host}.
Import sandbox.

Lemma nvmCandidate_not_npx : nvmCandidate ≠ "npx".
Proof.
  unfold nvmCandidate.
  destruct (decide (Getenv "HOME" = "")) as [->|Hhome]; [by vm_compute |].
  rewrite Join_onto; [| done | | done].
  - intros Heq. apply (f_equal String.length) in Heq.
    rewrite string_length_app in Heq.
    destruct (rev (filepath.kept (Getenv "HOME"))) as [|k ks].
    + simpl in Heq. lia.
    + rewrite concat_app, !string_length_app in Heq by done.
      simpl in Heq. lia.
  - repeat (apply Forall_cons; split; [by repeat split |]). by apply Forall_nil.
Qed.

(** The third candidate is a path below the home directory, and a
    relative one when [HOME] is not set. *)
Lemma nvmCandidate_relative :
  Getenv "HOME" = "" → nvmCandidate = ".nvm/versions/node/*/bin/swc".
Proof. unfold nvmCandidate. by intros ->. Qed.

(** X24. [NewTypeScriptTransformer] looks for [swc], then for [npx],
    then for the copy below the home directory, in this order, and
    takes the first that is found: the path that was found, or the
    plain name [npx].  It fails exactly when all three lookups fail.
    The transformer it returns targets es2020 with es6 modules.
    Nothing else is called. *)
Theorem NewTypeScriptTransformer_priority (w : World) :
  let run := NewTypeScriptTransformer w in
  let made path :=
    inr (mkTypeScriptTransformer path (mkTransformOptions "es2020" "es6")) in
  run.1
  = match LookPath (clock w) "swc" with
    | Some path => made path
    | None =>
        match LookPath (S (clock w)) "npx" with
        | Some _ => made "npx"
        | None =>
            match LookPath (S (S (clock w))) nvmCandidate with
            | Some path => made path
            | None =>
                inl (Errorf
                  "SWC not found: %w (install with: npm install -g @swc/cli @swc/core)"
                  [] [Errorf "swc executable not found" [] []])
            end
        end
    end
  ∧ fs run.2 = fs w ∧ conns run.2 = conns w ∧ trace run.2 = trace w.
Proof.
  cbv zeta. unfold NewTypeScriptTransformer, findSWC. cbn [findSWC_loop].
  rewrite (decide_False (P := "swc" = "npx")) by done.
  rewrite (decide_True (P := "npx" = "npx")) by done.
  rewrite (decide_False (P := nvmCandidate = "npx"))
    by apply nvmCandidate_not_npx.
  unfold exec_LookPath. rewrite !bind_run. cbn [fst snd].
  destruct (LookPath (clock w) "swc") as [p1|]; [done |].
  rewrite !bind_run. cbn [fst snd tick clock].
  destruct (LookPath (S (clock w)) "npx") as [p2|]; [done |].
  rewrite !bind_run. cbn [fst snd tick clock].
  by destruct (LookPath (S (S (clock w))) nvmCandidate) as [p3|].
Qed.

Lemma exec_Run_inv argv w r w' :
  exec_Run argv w = (r, w') →
  ∃ f', Run (clock w) argv (fs w) = (r, f') ∧ fs w' = f'
    ∧ conns w' = conns w ∧ trace w' = trace w.
Proof.
  unfold exec_Run. intros [= <- <-]. exists (Run (clock w) argv (fs w)).2.
  by destruct (Run (clock w) argv (fs w)).
Qed.

(** A file right below a directory that [os.MkdirTemp] made. *)
Lemma Join_file (tmpDir x : string) :
  os.tempdir tmpDir → filepath.element x →
  filepath.Join [tmpDir; x] = tmpDir +:+ "/" +:+ x.
Proof.
  intros Htmp Hx. rewrite Join_dir; [done | done | | done].
  by apply Forall_singleton.
Qed.

Lemma input_element : filepath.element "input.ts".
Proof. by repeat split. Qed.

Lemma config_element : filepath.element ".swcrc".
Proof. by repeat split. Qed.



(** X26. What [Transform] returns on success is what the command
    printed: the command line of the transformer, on the input file and
    the configuration file of a new temporary directory, was run and
    returned no error, on a file system in which the input file holds
    the code and the configuration file the marshalled configuration,
    and which is otherwise as before the call. *)
Theorem Transform_success (t : TypeScriptTransformer) (code : string)
    (w : World) (out : string) (w' : World) :
  Transform t code w = (inr out, w') →
  ∃ cfg tmpDir t0 f f' stderr,
    Marshal (swcConfig (options t)) = Some cfg
    ∧ fs w !! tmpDir = None
    ∧ f !! tmpDir = Some Dir
    ∧ f !! filepath.Join [tmpDir; "input.ts"] = Some (File code)
    ∧ f !! filepath.Join [tmpDir; ".swcrc"] = Some (File cfg)
    ∧ (∀ p, ¬ os.within tmpDir p → f !! p = fs w !! p)
    ∧ Run t0
        (swcCommand t (filepath.Join [tmpDir; "input.ts"])
           (filepath.Join [tmpDir; ".swcrc"])) f
      = ((None, out, stderr), f').
Proof.
  unfold Transform.
  destruct (Marshal (swcConfig (options t))) as [cfg|] eqn:Hcfg; intros Hrun;
    [| by apply ret_inv in Hrun as [[=] _]].
  apply bind_inv in Hrun as (r0 & w1 & Hmk & Hk).
  pose proof Hmk as Htmp.
  apply MkdirTemp_inv in Hmk
    as [_ [(tmpDir & -> & _ & Hfresh & Hfs1 & _)|(e & -> & _)]];
    [| by apply ret_inv in Hk as [[=] _]].
  apply MkdirTemp_tempdir in Htmp.
  pose proof (Join_file tmpDir _ Htmp input_element) as Hinput.
  pose proof (Join_file tmpDir _ Htmp config_element) as Hconfig.
  apply bind_inv in Hk as (err & w2 & Hin & Hk).
  destruct err as [e|].
  { apply bind_inv in Hk as (u & w3 & _ & Hk).
    by apply ret_inv in Hk as [[=] _]. }
  apply WriteFile_inv in Hin as [_ [(_ & Hfs2 & _)|(e & [=] & _)]].
  apply bind_inv in Hk as (err & w3 & Hconf & Hk).
  destruct err as [e|].
  { apply bind_inv in Hk as (u & w4 & _ & Hk).
    by apply ret_inv in Hk as [[=] _]. }
  apply WriteFile_inv in Hconf as [_ [(_ & Hfs3 & _)|(e & [=] & _)]].
  apply bind_inv in Hk as ([[err so] se] & w4 & Hexec & Hk).
  cbn [fst snd] in Hk.
  apply exec_Run_inv in Hexec as (f' & Hexec & _).
  destruct err as [e|]; apply bind_inv in Hk as (u & w5 & _ & Hk);
    apply ret_inv in Hk as [[= ->] _].
  exists cfg, tmpDir, (clock w3), (fs w3), f', se.
  split; [done |]. split; [done |]. rewrite Hfs3, Hfs2, Hfs1 in Hexec |- *.
  split.
  { do 2 rewrite lookup_insert_ne
      by (rewrite ?Hinput, ?Hconfig; apply not_eq_sym, root_ne_below).
    by rewrite lookup_insert_eq. }
  split.
  { rewrite lookup_insert_ne; [by rewrite lookup_insert_eq |].
    rewrite Hinput, Hconfig. intros Heq.
    by do 2 apply String.app_inj in Heq. }
  split; [by rewrite lookup_insert_eq |].
  split; [| done].
  intros p Hp. rewrite !lookup_insert_ne; [done | | |]; intros <-; apply Hp.
  - apply within_root.
  - rewrite Hinput. apply within_below.
  - rewrite Hconfig. apply within_below.
Qed.
End Transformer.

(** ** The properties at work *)

Section HubWitnesses.
Import client clienthub scenario examples.

Lemma Connect_connects_every_server_witness :
  let E : Env := fine in
  let ch := hub0 in
  let cfg := two_servers in
  let w := w0 in
  let ch' := (connected E).1.2 in
  let w' := (connected E).2 in
  (Connect ch cfg w = ((None, ch'), w')) ∧
  (dom (clients ch') = dom (clients ch) ∪ dom (config.McpServers cfg)
  ∧ (∀ name, config.McpServers cfg !! name = None →
             clients ch' !! name = clients ch !! name)
  ∧ (∀ name serverCfg, config.McpServers cfg !! name = Some serverCfg →
       ∃ c t, clients ch' !! name = Some c
         ∧ serverName c = name
         ∧ dial t name serverCfg = Some (GetTools c)
         ∧ handle c ∈ conns w')
  ∧ (∀ n1 n2 c1 c2,
       is_Some (config.McpServers cfg !! n1) →
       is_Some (config.McpServers cfg !! n2) → n1 ≠ n2 →
       clients ch' !! n1 = Some c1 → clients ch' !! n2 = Some c2 →
       handle c1 ≠ handle c2)).
Proof.
  intros E ch cfg w ch' w'.
  assert (Connect ch cfg w = ((None, ch'), w')) as Hyp0
    by (vm_compute; reflexivity).
  split; [exact Hyp0 |].
  exact (Connect_connects_every_server ch cfg w ch' w' Hyp0).
Defined.

Lemma Connect_stops_at_first_failure_witness :
  let E : Env := b_down in
  let ch := hub0 in
  let cfg := two_servers in
  let w := w0 in
  let e := the_error (connected E).1.1 in
  let ch' := (connected E).1.2 in
  let w' := (connected E).2 in
  (Connect ch cfg w = ((Some e, ch'), w')) ∧
  (∃ name cause tr,
    is_Some (config.McpServers cfg !! name)
    ∧ e = Errorf "failed to connect to server %q: %w" [name] [cause]
    ∧ trace w' = EvDial name None :: tr
    ∧ clients ch' !! name = clients ch !! name
    ∧ (∀ other c, clients ch' !! other = Some c →
         clients ch !! other = Some c ∨ handle c ∈ conns w')).
Proof.
  intros E ch cfg w e ch' w'.
  assert (Connect ch cfg w = ((Some e, ch'), w')) as Hyp0
    by (vm_compute; reflexivity).
  split; [exact Hyp0 |].
  exact (Connect_stops_at_first_failure ch cfg w e ch' w' Hyp0).
Defined.

Lemma Close_closes_every_client_witness :
  let E : Env := fine in
  let ch := (connected E).1.2 in
  let w := (connected E).2 in
  let err := (Close ch w).1 in
  let w' := (Close ch w).2 in
  (Close ch w = (err, w')) ∧
  (∃ evs,
    extends_by evs w w'
    ∧ length evs = size (clients ch)
    ∧ (∀ e, e ∈ evs → ∃ h ok, e = EvClose h ok)
    ∧ (∀ name c, clients ch !! name = Some c →
                 ∃ ok, EvClose (handle c) ok ∈ evs)
    ∧ (err = None ↔ failed_closes evs = 0)
    ∧ (∀ h, h ∈ conns w' ↔ h ∈ conns w ∧ EvClose h true ∉ evs)
    ∧ fs w' = fs w).
Proof.
  intros E ch w err w'.
  assert (Close ch w = (err, w')) as Hyp0
    by (vm_compute; reflexivity).
  split; [exact Hyp0 |].
  exact (Close_closes_every_client ch w err w' Hyp0).
Defined.

Lemma Close_error_names_failed_clients_witness :
  let E : Env := close_fails_from 0 in
  let ch := (connected E).1.2 in
  let w := (connected E).2 in
  let e := the_error (Close ch w).1 in
  let w' := (Close ch w).2 in
  (Close ch w = (Some e, w')) ∧
  (∃ evs errs,
    extends_by evs w w'
    ∧ e = Errorf "errors closing clients: %v" [] errs
    ∧ length errs = failed_closes evs
    ∧ (0 < length errs)%nat
    ∧ (∀ x, x ∈ errs →
         ∃ name c cause,
           clients ch !! name = Some c
           ∧ x = Errorf "failed to close client %q: %w" [name] [cause]
           ∧ EvClose (handle c) false ∈ evs)).
Proof.
  intros E ch w e w'.
  assert (Close ch w = (Some e, w')) as Hyp0
    by (vm_compute; reflexivity).
  split; [exact Hyp0 |].
  exact (Close_error_names_failed_clients ch w e w' Hyp0).
Defined.

Lemma FindToolServer_unique_provider_witness :
  let E : Env := fine in
  let ch := two_catalogs in
  let toolName := "search" in
  let name := "b" in
  let w := w0 in
  ((∃ c tool, clients ch !! name = Some c ∧ tool ∈ GetTools c
             ∧ mcp.Name tool = toolName)) ∧
  ((∀ other c tool, clients ch !! other = Some c → tool ∈ GetTools c →
                   mcp.Name tool = toolName → other = name)) ∧
  ((FindToolServer ch toolName w).1 = inr name).
Proof.
  intros E ch toolName name w.
  assert ((∃ c tool, clients ch !! name = Some c ∧ tool ∈ GetTools c
             ∧ mcp.Name tool = toolName)) as Hyp0
    by (exists (mkMcpClient "b" 2 new_catalog), (mcp.mkTool "search" "searches"); split; [vm_compute; reflexivity | split; [left | reflexivity]]).
  split; [exact Hyp0 |].
  assert ((∀ other c tool, clients ch !! other = Some c → tool ∈ GetTools c →
                   mcp.Name tool = toolName → other = name)) as Hyp1.
  { intros other c tool Hc Ht Hn. unfold ch, two_catalogs in Hc. simpl in Hc.
    apply lookup_insert_Some in Hc as [[<- <-]|[_ Hc]].
    - simpl in Ht. apply elem_of_cons in Ht as [->|Ht]; [done |].
      apply list_elem_of_singleton in Ht as ->. done.
    - by apply lookup_singleton_Some in Hc as [<- _]. }
  split; [exact Hyp1 |].
  exact (FindToolServer_unique_provider ch toolName name w Hyp0 Hyp1).
Defined.

End HubWitnesses.

Section SessionWitnesses.
Import mcp client session scenario examples.

Lemma GetOrCreateSession_again_witness :
  let E : Env := fine in
  let m := NewManager one_server in
  let id := "s1" in
  let w := w0 in
  let s := the_session E in
  let m' := (created E).1.2 in
  let w' := (created E).2 in
  (GetOrCreateSession m id w = ((inr s, m'), w')) ∧
  (∀ w2, GetOrCreateSession m' id w2 = ((inr s, m'), w2)).
Proof.
  intros E m id w s m' w'.
  assert (GetOrCreateSession m id w = ((inr s, m'), w')) as Hyp0
    by (vm_compute; reflexivity).
  split; [exact Hyp0 |].
  exact (GetOrCreateSession_again m id w s m' w' Hyp0).
Defined.

Lemma DeleteSession_success_witness :
  let E : Env := fine in
  let m := (created E).1.2 in
  let id := "s1" in
  let w := (created E).2 in
  let m' := (DeleteSession m id w).1.2 in
  let w' := (DeleteSession m id w).2 in
  (DeleteSession m id w = ((None, m'), w')) ∧
  (∃ s, GetSession m id = Some s
    ∧ GetSession m' id = None
    ∧ (∀ other, other ≠ id → GetSession m' other = GetSession m other)
    ∧ config m' = config m
    ∧ conns w' ⊆ conns w
    ∧ (∀ name c, clients (ClientHub s) !! name = Some c →
                 handle c ∉ conns w')
    ∧ (∀ p, ¬ os.within (BundleDir s) p → fs w' !! p = fs w !! p)
    ∧ (BundleDir s ≠ "" →
       ∃ ok, EvRemoveAll (BundleDir s) ok ∈ trace w'
         ∧ (ok = true →
            ∀ p, os.within (BundleDir s) p → fs w' !! p = None))).
Proof.
  intros E m id w m' w'.
  assert (DeleteSession m id w = ((None, m'), w')) as Hyp0
    by (vm_compute; reflexivity).
  split; [exact Hyp0 |].
  exact (DeleteSession_success m id w m' w' Hyp0).
Defined.

Lemma initialize_stays_in_its_directory_witness :
  let E : Env := fine in
  let m := NewManager one_server in
  let s := connected_session in
  let w := w0 in
  let r := (initializeSessionBundleDir m s w).1 in
  let w' := (initializeSessionBundleDir m s w).2 in
  ((∀ name, is_Some (clients (ClientHub s) !! name) →
           filepath.no_separator name)) ∧
  (initializeSessionBundleDir m s w = (r, w')) ∧
  ((is_Some r.1 ∧ fs w' = fs w
   ∧ trace w'
     = EvMkdirTemp ("codebraid-" +:+ SessionID s +:+ "-") None :: trace w)
  ∨ ∃ root evs,
      trace w'
      = (evs ++ EvMkdirTemp ("codebraid-" +:+ SessionID s +:+ "-")
                  (Some root) :: trace w)%list
      ∧ fs w !! root = None
      ∧ (∀ p, ¬ os.within root p → fs w' !! p = fs w !! p)
      ∧ (r.1 = None → BundleDir r.2 = root)).
Proof.
  intros E m s w r w'.
  assert ((∀ name, is_Some (clients (ClientHub s) !! name) →
           filepath.no_separator name)) as Hyp0.
  { intros name [c Hc]. simpl in Hc.
    by apply lookup_singleton_Some in Hc as [<- _]. }
  split; [exact Hyp0 |].
  assert (initializeSessionBundleDir m s w = (r, w')) as Hyp1
    by (vm_compute; reflexivity).
  split; [exact Hyp1 |].
  exact (initialize_stays_in_its_directory m s w r w' Hyp0 Hyp1).
Defined.

Lemma create_then_delete_witness :
  let E : Env := fine in
  let m := NewManager one_server in
  let id := "s1" in
  let w := w0 in
  let s := the_session E in
  let m1 := (created E).1.2 in
  let w1 := (created E).2 in
  let m2 := (DeleteSession m1 id w1).1.2 in
  let w2 := (DeleteSession m1 id w1).2 in
  ((∀ name, is_Some (config.McpServers (config m) !! name) →
           filepath.no_separator name)) ∧
  (sessions m !! id = None) ∧
  (GetOrCreateSession m id w = ((inr s, m1), w1)) ∧
  (DeleteSession m1 id w1 = ((None, m2), w2)) ∧
  (m2 = m
  ∧ conns w2 ⊆ conns w
  ∧ (∀ h, h ∈ conns w → (h < clock w)%nat → h ∈ conns w2)
  ∧ fs w !! BundleDir s = None
  ∧ (∀ p, ¬ os.within (BundleDir s) p → fs w2 !! p = fs w !! p)
  ∧ ∃ ok, EvRemoveAll (BundleDir s) ok ∈ trace w2
      ∧ (ok = true → ∀ p, os.within (BundleDir s) p → fs w2 !! p = None)).
Proof.
  intros E m id w s m1 w1 m2 w2.
  assert ((∀ name, is_Some (config.McpServers (config m) !! name) →
           filepath.no_separator name)) as Hyp0.
  { intros name [c Hc]. simpl in Hc.
    by apply lookup_singleton_Some in Hc as [<- _]. }
  split; [exact Hyp0 |].
  assert (sessions m !! id = None) as Hyp1
    by (vm_compute; reflexivity).
  split; [exact Hyp1 |].
  assert (GetOrCreateSession m id w = ((inr s, m1), w1)) as Hyp2
    by (vm_compute; reflexivity).
  split; [exact Hyp2 |].
  assert (DeleteSession m1 id w1 = ((None, m2), w2)) as Hyp3
    by (vm_compute; reflexivity).
  split; [exact Hyp3 |].
  exact (create_then_delete m id w s m1 w1 m2 w2 Hyp0 Hyp1 Hyp2 Hyp3).
Defined.

Lemma registry_invariant_witness :
  let E : Env := fine in
  let m := (created E).1.2 in
  let id := "s1" in
  let w := (created E).2 in
  (registered m) ∧
  (registered (GetOrCreateSession m id w).1.2
  ∧ registered (DeleteSession m id w).1.2
  ∧ registered (CloseAll m w).1.2).
Proof.
  intros E m id w.
  assert (registered m) as Hyp0.
  { refine (proj1 (registry_invariant (NewManager one_server) "s1" w0 _)).
    intros i s0 Hs. simpl in Hs. by rewrite lookup_empty in Hs. }
  split; [exact Hyp0 |].
  exact (registry_invariant m id w Hyp0).
Defined.

Lemma regenerate_idempotent_witness :
  let E : Env := fine in
  let s := refreshed_session (the_session E) in
  let P := "a" in
  let w := (created E).2 in
  let s1 := (regenerateLibForServer s P w).1.2 in
  let w1 := (regenerateLibForServer s P w).2 in
  let s2 := (regenerateLibForServer s1 P w1).1.2 in
  let w2 := (regenerateLibForServer s1 P w1).2 in
  (regenerateLibForServer s P w = ((None, s1), w1)) ∧
  (regenerateLibForServer s1 P w1 = ((None, s2), w2)) ∧
  (s2 = s1 ∧ fs w2 = fs w1 ∧ conns w2 = conns w1).
Proof.
  intros E s P w s1 w1 s2 w2.
  assert (regenerateLibForServer s P w = ((None, s1), w1)) as Hyp0
    by (vm_compute; reflexivity).
  split; [exact Hyp0 |].
  assert (regenerateLibForServer s1 P w1 = ((None, s2), w2)) as Hyp1
    by (vm_compute; reflexivity).
  split; [exact Hyp1 |].
  exact (regenerate_idempotent s P w s1 w1 s2 w2 Hyp0 Hyp1).
Defined.

Lemma CloseAll_nil_iff_no_failed_close_witness :
  let E : Env := close_fails_from 0 in
  let m := (created E).1.2 in
  let w := (created E).2 in
  let r := (CloseAll m w).1.1 in
  let m' := (CloseAll m w).1.2 in
  let w' := (CloseAll m w).2 in
  (CloseAll m w = ((r, m'), w')) ∧
  (∃ evs, extends_by evs w w' ∧ (r = None ↔ failed_closes evs = 0)).
Proof.
  intros E m w r m' w'.
  assert (CloseAll m w = ((r, m'), w')) as Hyp0
    by (vm_compute; reflexivity).
  split; [exact Hyp0 |].
  exact (CloseAll_nil_iff_no_failed_close m w r m' w' Hyp0).
Defined.

Lemma CloseAll_leaves_nothing_witness :
  let E : Env := fine in
  let m := (created E).1.2 in
  let w := (created E).2 in
  let r := (CloseAll m w).1.1 in
  let m' := (CloseAll m w).1.2 in
  let w' := (CloseAll m w).2 in
  (CloseAll m w = ((r, m'), w')) ∧
  ((∀ id, GetSession m' id = None)
  ∧ (∀ id w2, DeleteSession m' id w2
              = ((Some (Errorf "session %q not found" [id] []), m'), w2))
  ∧ (∀ w2, (CloseAll m' w2).1 = (None, m')
           ∧ trace (CloseAll m' w2).2 = trace w2
           ∧ fs (CloseAll m' w2).2 = fs w2
           ∧ conns (CloseAll m' w2).2 = conns w2)).
Proof.
  intros E m w r m' w'.
  assert (CloseAll m w = ((r, m'), w')) as Hyp0
    by (vm_compute; reflexivity).
  split; [exact Hyp0 |].
  exact (CloseAll_leaves_nothing m w r m' w' Hyp0).
Defined.

Lemma manager_go_agrees_witness :
  let E : Env := fine in
  let m := (older E).1.2 in
  let id := "s1" in
  let w := (older E).2 in
  (plain m) ∧
  (manager_go.GetSession m id = GetSession m id
  ∧ manager_go.DeleteSession m id w = DeleteSession m id w
  ∧ manager_go.CloseAll m w = CloseAll m w
  ∧ plain (manager_go.GetOrCreateSession m id w).1.2
  ∧ plain (manager_go.DeleteSession m id w).1.2
  ∧ plain (manager_go.CloseAll m w).1.2).
Proof.
  intros E m id w.
  assert (plain m) as Hyp0.
  { refine (proj1 (proj2 (proj2 (proj2
             (manager_go_agrees (NewManager one_server) "s1" w0 _))))).
    intros i s0 Hs. simpl in Hs. by rewrite lookup_empty in Hs. }
  split; [exact Hyp0 |].
  exact (manager_go_agrees m id w Hyp0).
Defined.

Lemma manager_go_GetOrCreateSession_spec_witness :
  let E : Env := fine in
  let m := NewManager two_servers in
  let id := "s1" in
  let w := w0 in
  let r := (manager_go.GetOrCreateSession m id w).1.1 in
  let m' := (manager_go.GetOrCreateSession m id w).1.2 in
  let w' := (manager_go.GetOrCreateSession m id w).2 in
  (manager_go.GetOrCreateSession m id w = ((r, m'), w')) ∧
  (fs w' = fs w
  ∧ match r with
    | inl e =>
        m' = m ∧ sessions m !! id = None
        ∧ ∃ cause, e = Errorf "failed to connect client hub: %w" [] [cause]
    | inr s =>
        manager_go.GetSession m' id = Some s
        ∧ (∀ other, other ≠ id →
             manager_go.GetSession m' other = manager_go.GetSession m other)
        ∧ (sessions m !! id = None →
           SessionID s = id
           ∧ BundleDir s = ""
           ∧ refreshed (ClientHub s) = false
           ∧ dom (clients (ClientHub s)) = dom (config.McpServers (config m))
           ∧ ∀ name c, clients (ClientHub s) !! name = Some c →
                       handle c ∈ conns w')
    end).
Proof.
  intros E m id w r m' w'.
  assert (manager_go.GetOrCreateSession m id w = ((r, m'), w')) as Hyp0
    by (vm_compute; reflexivity).
  split; [exact Hyp0 |].
  exact (manager_go_GetOrCreateSession_spec m id w r m' w' Hyp0).
Defined.

End SessionWitnesses.

Section ContextWitnesses.
Import sessioncontext.

Lemma IdleDuration_at_most_Age_witness :
  let s := (UpdateLastAccessed (NewSessionContext () "s1" () scenario.w0).1 (NewSessionContext () "s1" () scenario.w0).2).1 in
  let w := (UpdateLastAccessed (NewSessionContext () "s1" () scenario.w0).1 (NewSessionContext () "s1" () scenario.w0).2).2 in
  (timely s w) ∧
  ((0 ≤ (IdleDuration s w).1 ≤ (Age s w).1)%Z
  ∧ let s' := (UpdateLastAccessed s w).1 in
    let w' := (UpdateLastAccessed s w).2 in
    (Age s' w').1 = (Age s w').1
    ∧ (0 ≤ (IdleDuration s' w').1 ≤ (IdleDuration s w').1)%Z).
Proof.
  intros s w.
  assert (timely s w) as Hyp0
    by (unfold timely; simpl; lia).
  split; [exact Hyp0 |].
  exact (IdleDuration_at_most_Age s w Hyp0).
Defined.

End ContextWitnesses.

Section SandboxWitnesses.
Import sandbox examples.

Lemma IsTypeScript_embedded_witness :
  let code := typed_code in
  let pre := "// head " in
  let post := " // tail" in
  (IsTypeScript code = true) ∧
  (IsTypeScript (pre +:+ code +:+ post) = true).
Proof.
  intros code pre post.
  assert (IsTypeScript code = true) as Hyp0
    by (vm_compute; reflexivity).
  split; [exact Hyp0 |].
  exact (IsTypeScript_embedded code pre post Hyp0).
Defined.

Lemma IsTypeScript_short_witness :
  let code := "as" in
  ((String.length code < 3)%nat) ∧
  (IsTypeScript code = false).
Proof.
  intros code.
  assert ((String.length code < 3)%nat) as Hyp0
    by (simpl; lia).
  split; [exact Hyp0 |].
  exact (IsTypeScript_short code Hyp0).
Defined.


Lemma Transform_success_witness :
  let E : Env := scenario.fine in
  let Hh : Host := host in
  let t := transformer in
  let code := typed_code in
  let w := scenario.w0 in
  let out := "/* js */ " +:+ typed_code in
  let w' := (Transform t code w).2 in
  (Transform t code w = (inr out, w')) ∧
  (∃ cfg tmpDir t0 f f' stderr,
    Marshal (swcConfig (options t)) = Some cfg
    ∧ fs w !! tmpDir = None
    ∧ f !! tmpDir = Some Dir
    ∧ f !! filepath.Join [tmpDir; "input.ts"] = Some (File code)
    ∧ f !! filepath.Join [tmpDir; ".swcrc"] = Some (File cfg)
    ∧ (∀ p, ¬ os.within tmpDir p → f !! p = fs w !! p)
    ∧ Run t0
        (swcCommand t (filepath.Join [tmpDir; "input.ts"])
           (filepath.Join [tmpDir; ".swcrc"])) f
      = ((None, out, stderr), f')).
Proof.
  intros E Hh t code w out w'.
  assert (Transform t code w = (inr out, w')) as Hyp0
    by (vm_compute; reflexivity).
  split; [exact Hyp0 |].
  exact (Transform_success t code w out w' Hyp0).
Defined.

End SandboxWitnesses.
